(** * Ingestion and retrieval core of the appliance-manual backend

    A shallow embedding of [ingestion/state.py], [ingestion/pipeline.py],
    [ingestion/chunkers.py] and [rag/pipeline.py].

    Conventions of the embedding.
    - A Python [str] is a [string]; each [ascii] is read as the code point
      of the same number (U+0000 to U+00FF).
    - A Python [dict] used as a map is a [gmap]; a [dict] whose iteration
      order matters ([sparse.items()]) is an association list.
    - A Python [float] is carried around as a rational: the repository
      never computes with the vectors and weights it moves.
    - Code that can raise returns a [Result]; code that mutates objects or
      talks to a remote service runs in the monad [M] over a [World]. *)

From Stdlib Require Import ZArith QArith.QArith_base Lia List Bool Ascii String.
From Stdlib Require Import Sorted Permutation DecimalString.
From Stdlib Require Import DecimalNat.
From stdpp Require Import gmap strings list.

Open Scope string_scope.
Open Scope list_scope.

(** ** Exceptions and results *)

Inductive Exn :=
  | FileDataError        (* fitz.open / page access on a broken document *)
  | VisionError          (* LocalVisionAnalyzer.analyze *)
  | EmbeddingError       (* SentenceTransformer.encode *)
  | NotFittedError       (* TfidfVectorizer.transform before fit *)
  | VocabularyError      (* TfidfVectorizer.fit: empty vocabulary *)
  | RuntimeError (msg : string)
  | ValueError (msg : string)
  | PineconeError        (* a failed call to the vector index *)
  | SupabaseError.       (* a failed call to the documents table *)

Inductive Result (A : Type) :=
  | Ok (a : A)
  | Raise (e : Exn).
Arguments Ok {A} a.
Arguments Raise {A} e.

(** ** [ingestion/state.py]: the checkpoint map *)

(** One record of the checkpoint map: a [dict] with string keys. *)
Abbreviation Entry := (gmap string string).

Module StateTracker.

(** [state] is the attribute [self.state]; [file] is the content of the
    JSON file at [self.path], [None] while the file does not exist. *)
Record t := mk {
  state : gmap string Entry;
  file : option (gmap string Entry)
}.

(** [StateTracker.load]: the decoded file, or [{}]. *)
Definition load (f : option (gmap string Entry)) : t :=
  match f with
  | Some data => mk data f
  | None => mk ∅ f
  end.

(** [persist]: the whole map is written to the file. *)
Definition persist (s : t) : t := mk (state s) (Some (state s)).

(** [meta or {}] *)
Definition meta_or_empty (meta : option Entry) : Entry :=
  match meta with
  | Some m => m
  | None => ∅
  end.

(** [{"status": status, **(meta or {})}]: the keys of [meta] are laid
    over the ["status"] item, so [∪] (left-biased) has [meta] first. *)
Definition entry (status : string) (meta : option Entry) : Entry :=
  meta_or_empty meta ∪ {[ "status" := status ]}.

(** [mark]: [self.state[digest] = {...}; self.persist()]. *)
Definition mark (digest status : string) (meta : option Entry) (s : t) : t :=
  persist (mk (<[digest := entry status meta]> (state s)) (file s)).

(** [self.state.state.get(digest, {}).get("status")] *)
Definition status_of (digest : string) (s : t) : option string :=
  match state s !! digest with
  | Some e => e !! "status"
  | None => None
  end.

End StateTracker.

(** ** Python built-ins the pipelines rely on *)

(** [sorted]: a stable sort; [leb x y] reads "x may stand before y". The
    head of the input is inserted last, in front of every element it is
    not greater than, so equal elements keep their input order. *)
Section PySorted.
Context {A : Type} (leb : A -> A -> bool).

Fixpoint insert_sorted (x : A) (l : list A) : list A :=
  match l with
  | [] => [x]
  | y :: l' => if leb x y then x :: y :: l' else y :: insert_sorted x l'
  end.

Definition py_sorted (l : list A) : list A := foldr insert_sorted [] l.
End PySorted.

(** [str(n)] for a non-negative [int]. *)
Definition str_of_nat (n : nat) : string :=
  NilEmpty.string_of_uint (Nat.to_uint n).

(** [s[:n]] for a non-negative [n]. *)
Definition str_prefix (n : nat) (s : string) : string := substring 0 n s.

(** [s.rfind(c)]: the index of the last occurrence, [None] for [-1]. *)
Fixpoint rfind (c : ascii) (s : string) : option nat :=
  match s with
  | EmptyString => None
  | String a s' =>
      match rfind c s' with
      | Some i => Some (S i)
      | None => if Ascii.eqb a c then Some 0 else None
      end
  end.

(** [str.encode("utf-8")] on code points below U+0100: one byte below
    U+0080, two bytes from there on. *)
Definition utf8_of_ascii (a : ascii) : list N :=
  let c := N_of_ascii a in
  if (c <? 128)%N then [c]
  else [(192 + N.shiftr c 6)%N; (128 + N.land c 63)%N].

Fixpoint encode_utf8 (s : string) : list N :=
  match s with
  | EmptyString => []
  | String a s' => utf8_of_ascii a ++ encode_utf8 s'
  end.

(** [zlib.crc32]: the reflected CRC-32 of IEEE 802.3 (polynomial
    [0xEDB88320]), one bit at a time, on 32-bit values held in [Z]. *)
Definition crc32_poly : Z := 0xEDB88320.
Definition crc32_mask : Z := 0xFFFFFFFF.

Definition crc32_shift (crc : Z) : Z :=
  if Z.testbit crc 0
  then Z.lxor (Z.shiftr crc 1) crc32_poly
  else Z.shiftr crc 1.

Definition crc32_update (crc : Z) (b : N) : Z :=
  Nat.iter 8 crc32_shift (Z.lxor crc (Z.of_N b)).

Definition crc32 (data : list N) : Z :=
  Z.lxor (foldl crc32_update crc32_mask data) crc32_mask.

(** The values of an unsigned 32-bit integer. *)
Definition is_uint32 (z : Z) : Prop := (0 <= z < 2 ^ 32)%Z.

(** ** [pathlib]: a path is the list of its parts *)

Abbreviation Path := (list string).

(** [PurePath.name]: the last part, [""] when there is none. *)
Definition path_name (p : Path) : string := List.last p "".

(** [PurePath.stem]: the name without its last suffix; a leading or a
    trailing dot starts no suffix. *)
Definition path_stem (p : Path) : string :=
  let name := path_name p in
  match rfind "." name with
  | Some i =>
      if (0 <? i)%nat && (i <? String.length name - 1)%nat
      then str_prefix i name
      else name
  | None => name
  end.

(** [p.relative_to(root).parts]; [None] stands for the [ValueError] raised
    when [root] is not a prefix of [p]. *)
Fixpoint relative_to (p root : Path) : option Path :=
  match root with
  | [] => Some p
  | r :: root' =>
      match p with
      | [] => None
      | a :: p' => if String.eqb a r then relative_to p' root' else None
      end
  end.

(** The order of paths: the order of their lists of parts. *)
Fixpoint path_leb (p q : Path) : bool :=
  match p, q with
  | [], _ => true
  | _ :: _, [] => false
  | a :: p', b :: q' =>
      match String.compare a b with
      | Lt => true
      | Gt => false
      | Eq => path_leb p' q'
      end
  end.

(** ** [re]: the patterns of the token extractors

    Both patterns are a sequence of word boundaries and greedy bounded
    repetitions of a character class, which is all the matcher knows. It
    is the backtracking matcher of [re]: a repetition takes as many
    characters as it may and gives them back one at a time while the rest
    of the pattern fails. *)

Inductive Atom :=
  | WordBoundary
  | Repeat (cls : ascii -> bool) (lo : nat) (hi : option nat).

Definition code_in (lo hi : N) (a : ascii) : bool :=
  let c := N_of_ascii a in (lo <=? c)%N && (c <=? hi)%N.

(** [\w] of a [str] pattern, on the code points below U+0100. *)
Definition is_word (a : ascii) : bool :=
  code_in 48 57 a || code_in 65 90 a || code_in 95 95 a || code_in 97 122 a
  || code_in 170 170 a || code_in 178 179 a || code_in 181 181 a
  || code_in 185 186 a || code_in 188 190 a || code_in 192 214 a
  || code_in 216 246 a || code_in 248 255 a.

(** [[A-Z0-9]] *)
Definition upper_or_digit (a : ascii) : bool :=
  code_in 65 90 a || code_in 48 57 a.

(** [[A-Z0-9/]] *)
Definition upper_digit_or_slash (a : ascii) : bool :=
  upper_or_digit a || Ascii.eqb a "/".

Definition hyphen (a : ascii) : bool := Ascii.eqb a "-".

Definition is_word_opt (o : option ascii) : bool :=
  match o with
  | Some a => is_word a
  | None => false
  end.

(** [\b] holds between the previous character and the next one when
    exactly one of them is a word character; the ends of the text count
    as non-word. *)
Definition at_boundary (prev : option ascii) (s : list ascii) : bool :=
  xorb (is_word_opt prev) (is_word_opt (List.head s)).

Definition hi_allows (hi : option nat) : bool :=
  match hi with
  | Some 0 => false
  | _ => true
  end.

Definition hi_pred (hi : option nat) : option nat :=
  match hi with
  | Some n => Some (Nat.pred n)
  | None => None
  end.

Fixpoint match_repeat {X : Type} (cls : ascii -> bool) (lo : nat) (hi : option nat)
    (prev : option ascii) (s : list ascii)
    (k : option ascii -> list ascii -> option X) : option X :=
  let stop := match lo with 0 => k prev s | S _ => None end in
  match s with
  | a :: s' =>
      if cls a && hi_allows hi then
        match match_repeat cls (Nat.pred lo) (hi_pred hi) (Some a) s' k with
        | Some r => Some r
        | None => stop
        end
      else stop
  | [] => stop
  end.

(** [match_here re prev s]: the text left after the first match of [re]
    that starts at the head of [s], where [prev] is the character before. *)
Fixpoint match_here (re : list Atom) (prev : option ascii) (s : list ascii)
    : option (list ascii) :=
  match re with
  | [] => Some s
  | WordBoundary :: re' =>
      if at_boundary prev s then match_here re' prev s else None
  | Repeat cls lo hi :: re' =>
      match_repeat cls lo hi prev s (match_here re')
  end.

(** [findall]: the matches from left to right, none overlapping another;
    [skip] counts the characters still covered by the last match. Neither
    pattern below matches the empty string. *)
Fixpoint findall_from (re : list Atom) (prev : option ascii) (s : list ascii)
    (skip : nat) : list string :=
  match s with
  | [] => []
  | a :: s' =>
      match skip with
      | S n => findall_from re (Some a) s' n
      | 0 =>
          match match_here re prev s with
          | Some rest =>
              let len := (length s - length rest)%nat in
              string_of_list_ascii (take len s)
                :: findall_from re (Some a) s' (Nat.pred len)
          | None => findall_from re (Some a) s' 0
          end
      end
  end.

Definition findall (re : list Atom) (text : string) : list string :=
  findall_from re None (list_ascii_of_string text) 0.

(** ** [ingestion/pipeline.py]: token extraction *)

(** [\b[A-Z0-9]{3,5}-?[0-9A-Z]{3,6}\b] *)
Definition PART_NUMBER_RE : list Atom :=
  [ WordBoundary;
    Repeat upper_or_digit 3 (Some 5);
    Repeat hyphen 0 (Some 1);
    Repeat upper_or_digit 3 (Some 6);
    WordBoundary ].

(** [\b[A-Z0-9]{3,}-[A-Z0-9/]{3,}\b] *)
Definition MODEL_RE : list Atom :=
  [ WordBoundary;
    Repeat upper_or_digit 3 None;
    Repeat hyphen 1 (Some 1);
    Repeat upper_digit_or_slash 3 None;
    WordBoundary ].

(** [sorted(set(candidates))]: the set keeps one copy of each match, in
    no particular order, and [sorted] orders strings by code points. *)
Definition extract_part_numbers (text : string) : list string :=
  let candidates := findall PART_NUMBER_RE text in
  py_sorted String.leb (remove_dups candidates).

Definition extract_model_numbers (text : string) : list string :=
  py_sorted String.leb (remove_dups (findall MODEL_RE text)).

(** ** [ingestion/pipeline.py]: records *)

Record IngestionConfig := {
  pdf_root : Path;
  namespace : string;
  batch_size : Z;
  tmp_dir : Path
}.

(** The fields of [backend.app.config.settings] the two pipelines read. *)
Record Settings := {
  pinecone_api_key : string;
  pinecone_index : string;
  supabase_url : string;
  supabase_key : string
}.

(** A page of an opened document: what [page.get_text("text")] and the
    xrefs of [page.get_images()] give, each of which may raise. *)
Record Page := {
  get_text : Result string;
  get_images : Result (list nat)
}.

(** A sparse vector as the embedder returns it: a [dict] from term to
    weight, in insertion order. *)
Abbreviation SparseDict := (list (string * Q)).

Record SparseValues := {
  indices : list Z;
  values : list Q
}.

Record ChunkMetadata := {
  document_id : string;
  chunk_index : nat;
  text : string;
  appliance_type : string;
  brand : string;
  part_numbers : list string;
  appliance_models : list string
}.

(** One item of [to_upsert]. *)
Record VectorRecord := {
  vec_id : string;
  vec_values : list Q;
  vec_sparse_values : SparseValues;
  vec_metadata : ChunkMetadata
}.

Record ImageMetadata := {
  img_document_id : string;
  img_page_number : nat;
  img_image_path : Path;
  img_analysis : string
}.

(** The row written to the [documents] table. *)
Record DocumentRow := {
  row_document_id : string;
  row_filename : string;
  row_total_pages : nat;
  row_images : list ImageMetadata
}.

(** ** The world outside the interpreter *)

(** The calls that leave the process or run a model, in the order made. *)
Inductive Event :=
  | CallOpen (pdf_path : Path)
  | CallAnalyze (image_path : Path)
  | CallSparseFit (texts : list string)
  | CallDenseEmbed (texts : list string)
  | CallSparseEmbed (texts : list string)
  | CallPineconeUpsert (ns : string) (vectors : list VectorRecord)
  | CallDocumentsUpsert (row : DocumentRow).

(** What the pipeline does not own. The directory and the local models
    answer by their input alone. The two remote stores may fail at one
    call and accept the same call later: their answer also depends on
    the number of calls made before. *)
Record Env := {
  settings : Settings;
  (* pdf_root.glob("**/*.pdf"), in the order the file system lists them *)
  glob_pdfs : list Path;
  (* Path.read_bytes *)
  read_bytes : Path -> string;
  (* hashlib.sha256(data).hexdigest() *)
  sha256_hexdigest : string -> string;
  (* fitz.open *)
  fitz_open : Path -> Result (list Page);
  (* whether fitz.Pixmap(doc, xref) ... pix.save(image_path) goes through *)
  pixmap_saved : Path -> nat -> bool;
  (* components.vision_analyzer and its analyze method *)
  vision_analyzer : option (Path -> Result string);
  (* RecursiveCharacterTextSplitter.split_text *)
  split_text : string -> list string;
  (* SentenceTransformer.encode(...).tolist() *)
  dense_encode : list string -> Result (list (list Q));
  (* TfidfVectorizer.fit *)
  tfidf_fit : list string -> Result unit;
  (* TfidfVectorizer.transform of a vectorizer fit on the first argument,
     already turned into one term-to-weight dict per text *)
  tfidf_transform : list string -> list string -> Result (list SparseDict);
  (* the answer of the index to Index.upsert *)
  pinecone_accepts : nat -> string -> list VectorRecord -> bool;
  (* the answer of the table to upsert(...).execute() *)
  supabase_accepts : nat -> DocumentRow -> bool
}.

(** The mutable state a run can change or observe. *)
Record World := {
  (* self.state *)
  tracker : StateTracker.t;
  (* the texts the vectorizer of the sparse embedder was last fit on *)
  vectorizer : option (list string);
  (* the vector index: namespace and id to record *)
  pinecone : gmap (string * string) VectorRecord;
  (* the rows written to the documents table, oldest first *)
  documents : list DocumentRow;
  (* every call made so far, oldest first *)
  trace : list Event
}.

Definition set_tracker (f : StateTracker.t -> StateTracker.t) (w : World) : World :=
  {| tracker := f (tracker w); vectorizer := vectorizer w;
     pinecone := pinecone w; documents := documents w; trace := trace w |}.

Definition set_vectorizer (v : option (list string)) (w : World) : World :=
  {| tracker := tracker w; vectorizer := v;
     pinecone := pinecone w; documents := documents w; trace := trace w |}.

Definition set_pinecone (p : gmap (string * string) VectorRecord) (w : World) : World :=
  {| tracker := tracker w; vectorizer := vectorizer w;
     pinecone := p; documents := documents w; trace := trace w |}.

Definition set_documents (d : list DocumentRow) (w : World) : World :=
  {| tracker := tracker w; vectorizer := vectorizer w;
     pinecone := pinecone w; documents := d; trace := trace w |}.

Definition log_call (e : Event) (w : World) : World :=
  {| tracker := tracker w; vectorizer := vectorizer w;
     pinecone := pinecone w; documents := documents w; trace := trace w ++ [e] |}.

(** What an accepted upsert does to the index: each record goes under its
    id in the namespace, over any record already there. *)
Definition store_records (ns : string) (index : gmap (string * string) VectorRecord)
    (vectors : list VectorRecord) : gmap (string * string) VectorRecord :=
  foldl (fun m r => <[(ns, vec_id r) := r]> m) index vectors.

(** ** The monad of the pipeline: state, and exceptions that keep it *)

Definition M (A : Type) : Type := World -> Result A * World.

Definition ret {A} (a : A) : M A := fun w => (Ok a, w).

Definition raise {A} (e : Exn) : M A := fun w => (Raise e, w).

Definition bind {A B} (m : M A) (k : A -> M B) : M B :=
  fun w =>
    match m w with
    | (Ok a, w') => k a w'
    | (Raise e, w') => (Raise e, w')
    end.

Notation "x <- m ;; k" := (bind m (fun x => k))
  (at level 100, m at next level, right associativity).
Notation "m ;;; k" := (bind m (fun _ => k))
  (at level 100, right associativity).

Definition lift {A} (r : Result A) : M A := fun w => (r, w).

(** A call to a local model or library: logged, then answered. *)
Definition call {A} (e : Event) (r : Result A) : M A :=
  fun w => (r, log_call e w).

(** [for x in xs: body(x)] *)
Fixpoint for_each {A} (xs : list A) (body : A -> M unit) : M unit :=
  match xs with
  | [] => ret tt
  | x :: xs' => body x ;;; for_each xs' body
  end.

(** [range(0, stop, step)] for [0 <= stop]: a zero step raises, a
    negative step gives no index at all. *)
Fixpoint range_up (fuel : nat) (start stop step : Z) : list Z :=
  match fuel with
  | O => []
  | S fuel' =>
      if (start <? stop)%Z
      then start :: range_up fuel' (start + step)%Z stop step
      else []
  end.

Definition range_from_zero (stop step : Z) : Result (list Z) :=
  if (step =? 0)%Z then Raise (ValueError "range() arg 3 must not be zero")
  else if (step <? 0)%Z then Ok []
  else Ok (range_up (Z.to_nat stop) 0 stop step).

(** [l[a:b]] for [0 <= a] and [0 <= b]. *)
Definition slice {A} (l : list A) (a b : Z) : list A :=
  take (Z.to_nat b - Z.to_nat a) (drop (Z.to_nat a) l).

(** [zip(xs, ys, zs)]: as long as the shortest. *)
Fixpoint zip3 {A B C} (xs : list A) (ys : list B) (zs : list C) : list (A * B * C) :=
  match xs, ys, zs with
  | x :: xs', y :: ys', z :: zs' => (x, y, z) :: zip3 xs' ys' zs'
  | _, _, _ => []
  end.

(** ** [ingestion/pipeline.py]: [IngestionPipeline] *)

Section IngestionPipeline.
Variable env : Env.
Variable config : IngestionConfig.

(** *** [ingestion/chunkers.py] *)

Definition chunk_text (page : string) : list string := split_text env page.

Definition chunk_iterable (pages : list string) : list string :=
  foldl (fun chunks page => chunks ++ chunk_text page) [] pages.

(** *** [ingestion/embeddings.py] *)

Definition SparseEmbedder_fit (texts : list string) : M unit :=
  call (CallSparseFit texts) (tfidf_fit env texts) ;;;
  fun w => (Ok tt, set_vectorizer (Some texts) w).

Definition SparseEmbedder_embed (texts : list string) : M (list SparseDict) :=
  fun w =>
    match vectorizer w with
    | Some corpus => call (CallSparseEmbed texts) (tfidf_transform env corpus texts) w
    | None => call (CallSparseEmbed texts) (Raise NotFittedError) w
    end.

Definition DenseEmbedder_embed (texts : list string) : M (list (list Q)) :=
  call (CallDenseEmbed texts) (dense_encode env texts).

(** *** [database/clients.py] and the two stores *)

Definition db_clients_pinecone : M unit :=
  if String.eqb (pinecone_api_key (settings env)) ""
  then raise (RuntimeError "Pinecone API key missing")
  else ret tt.

Definition db_clients_supabase : M unit :=
  if String.eqb (supabase_url (settings env)) ""
     || String.eqb (supabase_key (settings env)) ""
  then raise (RuntimeError "Supabase credentials are missing")
  else ret tt.

(** [pinecone.upsert(vectors=batch, namespace=ns)] *)
Definition pinecone_upsert (vectors : list VectorRecord) (ns : string) : M unit :=
  fun w =>
    let w' := log_call (CallPineconeUpsert ns vectors) w in
    if pinecone_accepts env (length (trace w)) ns vectors
    then (Ok tt, set_pinecone (store_records ns (pinecone w) vectors) w')
    else (Raise PineconeError, w').

(** [supabase.table("documents").upsert(row).execute()] *)
Definition documents_upsert (row : DocumentRow) : M unit :=
  fun w =>
    let w' := log_call (CallDocumentsUpsert row) w in
    if supabase_accepts env (length (trace w)) row
    then (Ok tt, set_documents (documents w ++ [row]) w')
    else (Raise SupabaseError, w').

(** *** [IngestionPipeline] *)

(** [__init__]: the checkpoint map is read from the state file. *)
Definition init : M unit :=
  fun w => (Ok tt, set_tracker (fun t => StateTracker.load (StateTracker.file t)) w).

Definition mark (digest status : string) (meta : option Entry) : M unit :=
  fun w => (Ok tt, set_tracker (StateTracker.mark digest status meta) w).

Definition _iter_pdfs : list Path := py_sorted path_leb (glob_pdfs env).

Definition _digest (pdf_path : Path) : string :=
  sha256_hexdigest env (read_bytes env pdf_path).

(** The [try] block swallows every exception of the export. *)
Definition _export_image (pdf_path : Path) (xref : nat) (doc_id : string)
    (page_number img_index : nat) : option Path :=
  let image_path :=
    tmp_dir config ++
      [doc_id +:+ "_p" +:+ str_of_nat page_number +:+ "_"
         +:+ str_of_nat img_index +:+ ".png"] in
  if pixmap_saved env pdf_path xref then Some image_path else None.

Definition _map_sparse_tokens (sparse : SparseDict) : SparseValues :=
  foldl
    (fun acc item =>
       {| indices := indices acc ++ [crc32 (encode_utf8 (fst item))];
          values := values acc ++ [snd item] |})
    {| indices := []; values := [] |}
    sparse.

(** The loop over [enumerate(page.get_images(), start=1)]. *)
Fixpoint analyze_images (pdf_path : Path) (doc_id : string) (page_number : nat)
    (img_index : nat) (imgs : list nat) (image_metadata : list ImageMetadata)
    : M (list ImageMetadata) :=
  match imgs with
  | [] => ret image_metadata
  | xref :: imgs' =>
      match _export_image pdf_path xref doc_id page_number img_index,
            vision_analyzer env with
      | Some image_path, Some analyze =>
          description <- call (CallAnalyze image_path) (analyze image_path) ;;
          analyze_images pdf_path doc_id page_number (S img_index) imgs'
            (image_metadata ++
               [ {| img_document_id := doc_id;
                    img_page_number := page_number;
                    img_image_path := image_path;
                    img_analysis := description |} ])
      | _, _ =>
          analyze_images pdf_path doc_id page_number (S img_index) imgs'
            image_metadata
      end
  end.

(** The loop over [enumerate(doc, start=1)]. *)
Fixpoint read_pages (pdf_path : Path) (doc_id : string) (page_number : nat)
    (pages : list Page) (text_pages : list string)
    (image_metadata : list ImageMetadata)
    : M (list string * list ImageMetadata) :=
  match pages with
  | [] => ret (text_pages, image_metadata)
  | page :: pages' =>
      page_text <- lift (get_text page) ;;
      imgs <- lift (get_images page) ;;
      image_metadata' <-
        analyze_images pdf_path doc_id page_number 1 imgs image_metadata ;;
      read_pages pdf_path doc_id (S page_number) pages'
        (text_pages ++ [page_text]) image_metadata'
  end.

(** The labels taken from the first two parts under [pdf_root]. *)
Definition path_labels (pdf_path : Path) : string * string :=
  match relative_to pdf_path (pdf_root config) with
  | Some path_parts =>
      match path_parts with
      | appliance :: brand_part :: _ => (appliance, brand_part)
      | _ => ("unknown", "unknown")
      end
  | None => ("unknown", "unknown")
  end.

(** The loop over [enumerate(zip(dense_vectors, sparse_vectors, chunks))]
    that fills [to_upsert], from index [idx] on. *)
Fixpoint build_records (doc_id : string) (labels : string * string) (idx : nat)
    (items : list (list Q * SparseDict * string)) : list VectorRecord :=
  match items with
  | [] => []
  | (dense, sparse, chunk) :: items' =>
      {| vec_id := doc_id +:+ "-" +:+ str_of_nat idx;
         vec_values := dense;
         vec_sparse_values := _map_sparse_tokens sparse;
         vec_metadata :=
           {| document_id := doc_id;
              chunk_index := idx;
              text := str_prefix 2000 chunk;
              appliance_type := fst labels;
              brand := snd labels;
              part_numbers := extract_part_numbers chunk;
              appliance_models := extract_model_numbers chunk |} |}
        :: build_records doc_id labels (S idx) items'
  end.

(** The batches the upsert loop walks through:
    [to_upsert[start : start + batch_size]] for each [start] of the range. *)
Definition batches (to_upsert : list VectorRecord) : Result (list (list VectorRecord)) :=
  match range_from_zero (Z.of_nat (length to_upsert)) (batch_size config) with
  | Ok starts =>
      Ok (map (fun start => slice to_upsert start (start + batch_size config)) starts)
  | Raise e => Raise e
  end.

Definition upsert_batches (to_upsert : list VectorRecord) : M unit :=
  bs <- lift (batches to_upsert) ;;
  for_each bs (fun batch => pinecone_upsert batch (namespace config)).

Definition _process_pdf (pdf_path : Path) : M unit :=
  let doc_id := path_stem pdf_path in
  let labels := path_labels pdf_path in
  pages <- call (CallOpen pdf_path) (fitz_open env pdf_path) ;;
  read <- read_pages pdf_path doc_id 1 pages [] [] ;;
  let text_pages := fst read in
  let image_metadata := snd read in
  let chunks := chunk_iterable text_pages in
  match chunks with
  | [] => ret tt
  | _ :: _ =>
      SparseEmbedder_fit chunks ;;;
      dense_vectors <- DenseEmbedder_embed chunks ;;
      sparse_vectors <- SparseEmbedder_embed chunks ;;
      db_clients_pinecone ;;;
      let to_upsert :=
        build_records doc_id labels 0 (zip3 dense_vectors sparse_vectors chunks) in
      upsert_batches to_upsert ;;;
      db_clients_supabase ;;;
      documents_upsert
        {| row_document_id := doc_id;
           row_filename := path_name pdf_path;
           row_total_pages := length text_pages;
           row_images := image_metadata |}
  end.

Definition filename_meta (pdf_path : Path) : option Entry :=
  Some {[ "filename" := path_name pdf_path ]}.

(** The body of the loop of [ingest]. *)
Definition ingest_one (pdf_path : Path) : M unit :=
  let digest := _digest pdf_path in
  fun w =>
    let status := StateTracker.status_of digest (tracker w) in
    if bool_decide (status = Some "completed") then (Ok tt, w)
    else
      (mark digest "processing" (filename_meta pdf_path) ;;;
       _process_pdf pdf_path ;;;
       mark digest "completed" (filename_meta pdf_path)) w.

Definition ingest : M unit := for_each _iter_pdfs ingest_one.

(** [ingestion/__main__.py]: a pipeline is built, then run. *)
Definition main : M unit := init ;;; ingest.

End IngestionPipeline.

(** ** [rag/pipeline.py]: [RetrievalPipeline] *)

(** The keys [_to_result] reads from [document.meta]; a key that is not
    in the dict is [None]. *)
Record Meta := {
  meta_document_id : option string;
  meta_source : option string;
  meta_page_number : option nat;
  meta_appliance_type : option string;
  meta_summary : option string;
  meta_part_numbers : option (list string)
}.

(** A document as the components of the search pipeline pass it on. *)
Record Document := {
  doc_id : string;
  doc_content : string;
  doc_meta : option Meta;
  doc_score : option Q
}.

Record RetrievalResult := {
  res_document_id : string;
  res_source : string;
  res_page_number : option nat;
  res_appliance_type : option string;
  res_summary : option string;
  res_part_numbers : list string;
  res_score : Q;
  res_text : string
}.

(** [app/models.py]: the fields of [DocumentChunk] that [to_model] fills. *)
Record DocumentChunk := {
  chunk_document_id : string;
  chunk_source : string;
  chunk_page_number : option nat;
  chunk_appliance_type : option string;
  chunk_summary : string;
  chunk_part_numbers : list string
}.

(** The three components of the search pipeline, each a class of a
    library the repository only calls. *)
Record SearchEnv := {
  (* SentenceTransformersTextEmbedder: the query to its dense vector *)
  text_embedder : string -> Result (list Q);
  (* PineconeEmbeddingRetriever: the nearest documents of the store to a
     query vector, at most as many as asked for; raises when the store
     cannot be reached *)
  retriever : list Q -> nat -> Result (list Document);
  (* TransformersSimilarityRanker, given its top_k, the query and the
     candidates *)
  ranker : nat -> string -> list Document -> Result (list Document)
}.

(** What [__init__] fixes: the counts given to the retriever and to the
    ranker. *)
Record RetrievalPipeline := {
  top_k : nat;
  retriever_top_k : nat;
  ranker_top_k : nat
}.

Definition RetrievalPipeline_init (k : nat) : RetrievalPipeline :=
  {| top_k := k; retriever_top_k := k * 2; ranker_top_k := k |}.

Definition set_score (s : Q) (d : Document) : Document :=
  {| doc_id := doc_id d; doc_content := doc_content d;
     doc_meta := doc_meta d; doc_score := Some s |}.

Definition score_or_zero (d : Document) : Q :=
  match doc_score d with
  | Some s => s
  | None => 0%Q
  end.

(** "May stand before": the score is not lower. *)
Definition score_geb (a b : Document) : bool :=
  Qle_bool (score_or_zero b) (score_or_zero a).

(** Modelled from the spec: what the ranker component computes (a class
    of the haystack library, whose code is not part of the repository).
    It scores each pair of the query and a candidate's text with a
    cross-encoder, and returns the [k] best by that score, highest
    first, equal scores in the order of the candidates. *)
Definition ranker_run (cross_encoder : string -> string -> Q) (k : nat) (query : string)
    (documents : list Document) : list Document :=
  let scored :=
    map (fun d => set_score (cross_encoder query (doc_content d)) d) documents in
  take k (py_sorted score_geb scored).

Definition from_option {A} (o : option A) (default : A) : A :=
  match o with
  | Some a => a
  | None => default
  end.

(** *** The wiring of [__init__] *)

(** The three components in the order of [add_component], each with the
    inputs its [run] has no default for, in the order of its
    signature. *)
Definition pipeline_components : list (string * list string) :=
  [ ("text_embedder", ["text"]);
    ("retriever", ["query_embedding"]);
    ("ranker", ["query"; "documents"]) ].

(** The two calls of [pipeline.connect]: the output of a component and
    the input it is sent to. [connect("retriever", "ranker")] names no
    socket, and joins the documents of the one to the documents of the
    other. Nothing is sent to the query of the ranker. *)
Definition pipeline_connections : list ((string * string) * (string * string)) :=
  [ (("text_embedder", "embedding"), ("retriever", "query_embedding"));
    (("retriever", "documents"), ("ranker", "documents")) ].

(** The [data] of a run: for a component, the inputs given by hand. *)
Abbreviation RunData := (list (string * list (string * string))).

Fixpoint assoc {A} (key : string) (l : list (string * A)) : option A :=
  match l with
  | [] => None
  | (k, v) :: l' => if String.eqb k key then Some v else assoc key l'
  end.

(** [data[component][socket]], if it is there. *)
Definition data_get (data : RunData) (component socket : string) : option string :=
  match assoc component data with
  | Some inputs => assoc socket inputs
  | None => None
  end.

(** An input that a connection sends. *)
Definition is_sent (component socket : string) : bool :=
  existsb (fun c => String.eqb (fst (snd c)) component && String.eqb (snd (snd c)) socket)
    pipeline_connections.

(** The first input, component by component, that no connection sends
    and that [data] does not give. *)
Definition missing_input (data : RunData) : option (string * string) :=
  List.find
    (fun input =>
       negb (is_sent (fst input) (snd input))
       && match data_get data (fst input) (snd input) with
          | Some _ => false
          | None => true
          end)
    (flat_map (fun c => map (fun socket => (fst c, socket)) (snd c)) pipeline_components).

(** [self.pipeline.run(data)] and the ["ranker"]["documents"] of its
    result. Before it runs any component, the pipeline of the library
    looks for an input that is neither sent nor given, and raises a
    [ValueError] that names the first one. Otherwise the embedder takes
    its text from [data] and feeds the retriever, the retriever feeds
    the ranker, which takes its query from [data], and an exception of a
    component ends the run. Of the checks the library makes on [data]
    this is the only one modelled: [data] names components and inputs
    of the pipeline, and no input that a connection sends. *)
Definition pipeline_run (senv : SearchEnv) (p : RetrievalPipeline) (data : RunData)
    : Result (list Document) :=
  match missing_input data with
  | Some (component, socket) =>
      Raise (ValueError ("Missing input for component " +:+ component +:+ ": " +:+ socket))
  | None =>
      match text_embedder senv (from_option (data_get data "text_embedder" "text") "") with
      | Raise e => Raise e
      | Ok embedding =>
          match retriever senv embedding (retriever_top_k p) with
          | Raise e => Raise e
          | Ok candidates =>
              ranker senv (ranker_top_k p)
                (from_option (data_get data "ranker" "query") "") candidates
          end
      end
  end.

(** [meta.get(key)] on [document.meta or {}] *)
Definition meta_get {A} (d : Document) (key : Meta -> option A) : option A :=
  match doc_meta d with
  | Some m => key m
  | None => None
  end.

Definition _to_result (d : Document) : RetrievalResult :=
  {| res_document_id := from_option (meta_get d meta_document_id) (doc_id d);
     res_source := from_option (meta_get d meta_source) "pinecone";
     res_page_number := meta_get d meta_page_number;
     res_appliance_type := meta_get d meta_appliance_type;
     res_summary := meta_get d meta_summary;
     res_part_numbers := from_option (meta_get d meta_part_numbers) [];
     res_score := score_or_zero d;
     res_text := doc_content d |}.

(** [retrieve]: the run is given the text of the embedder and nothing
    else, and no exception of the run is caught. *)
Definition retrieve (senv : SearchEnv) (p : RetrievalPipeline) (query : string)
    : Result (list RetrievalResult) :=
  match pipeline_run senv p [("text_embedder", [("text", query)])] with
  | Ok documents => Ok (map _to_result documents)
  | Raise e => Raise e
  end.

(** [RetrievalResult.to_model]: [self.summary or self.text[:280]]. *)
Definition to_model (r : RetrievalResult) : DocumentChunk :=
  {| chunk_document_id := res_document_id r;
     chunk_source := res_source r;
     chunk_page_number := res_page_number r;
     chunk_appliance_type := res_appliance_type r;
     chunk_summary :=
       match res_summary r with
       | Some s => if String.eqb s "" then str_prefix 280 (res_text r) else s
       | None => str_prefix 280 (res_text r)
       end;
     chunk_part_numbers := res_part_numbers r |}.

(** ** Vocabulary of the properties *)

(** [m] takes every world to one that [R] relates to it, whatever it
    returns. *)
Definition respects (R : World -> World -> Prop) {A} (m : M A) : Prop :=
  forall w, R w (snd (m w)).

(** A relation between the world before and the world after that no
    local step breaks: it holds along a call that satisfies [P] and along
    a new fit of the vectorizer. *)
Class Frame (R : World -> World -> Prop) (P : Event -> Prop) : Prop := {
  frame_refl : forall w, R w w;
  frame_trans : forall w1 w2 w3, R w1 w2 -> R w2 w3 -> R w1 w3;
  frame_log : forall e w, P e -> R w (log_call e w);
  frame_vectorizer : forall v w, R w (set_vectorizer v w)
}.

(** A relation that a write to either store does not break. *)
Class StoreFrame (R : World -> World -> Prop) : Prop := {
  frame_pinecone : forall index w, R w (set_pinecone index w);
  frame_documents : forall rows w, R w (set_documents rows w)
}.

Definition same_tracker (w w' : World) : Prop := tracker w' = tracker w.

(** The calls made between [w] and [w'] all satisfy [P]. *)
Definition extends_trace (P : Event -> Prop) (w w' : World) : Prop :=
  exists calls, trace w' = trace w ++ calls /\ Forall P calls.

(** Opening the document and looking at its images. *)
Definition is_parse_call (e : Event) : Prop :=
  match e with
  | CallOpen _ | CallAnalyze _ => True
  | _ => False
  end.

(** Any call but a write to one of the two stores. *)
Definition is_local_call (e : Event) : Prop :=
  match e with
  | CallPineconeUpsert _ _ | CallDocumentsUpsert _ => False
  | _ => True
  end.

(** Between [w] and [w'] nothing was written: the checkpoint map and the
    two stores are the same, and the calls in between satisfy [P]. *)
Definition quiet (P : Event -> Prop) (w w' : World) : Prop :=
  tracker w' = tracker w /\ pinecone w' = pinecone w
  /\ documents w' = documents w /\ extends_trace P w w'.

(** The checkpoint map in memory is what a fresh process would load. *)
Definition synced (w : World) : Prop :=
  tracker w = StateTracker.load (StateTracker.file (tracker w)).

(** The record is the [i]-th chunk of the document called [doc_id]. *)
Definition chunk_record_of (doc_id : string) (i : nat) (r : VectorRecord) : Prop :=
  vec_id r = doc_id +:+ "-" +:+ str_of_nat i
  /\ chunk_index (vec_metadata r) = i
  /\ document_id (vec_metadata r) = doc_id.


(** The documents whose score equals [v]. *)
Definition has_score (v : Q) (d : Document) : bool := Qeq_bool (score_or_zero d) v.

(** The candidates with their rerank scores, in the order of the
    candidates. *)
Definition rescored (cross_encoder : string -> string -> Q) (query : string)
    (candidates : list Document) : list Document :=
  map (fun d => set_score (cross_encoder query (doc_content d)) d) candidates.


(** ** Small directories to run the pipelines on *)

Module Examples.

Definition example_settings : Settings :=
  {| pinecone_api_key := "pc-key";
     pinecone_index := "appliance-manuals";
     supabase_url := "https://db.example";
     supabase_key := "sb-key" |}.

Definition example_config : IngestionConfig :=
  {| pdf_root := ["manuals"];
     namespace := "appliance_manuals";
     batch_size := 32;
     tmp_dir := [".ingestion"; "tmp"] |}.

Definition broken_pdf : Path := ["manuals"; "Refrigerator"; "Acme"; "a100.pdf"].
Definition good_pdf : Path := ["manuals"; "Refrigerator"; "Acme"; "b200.pdf"].
Definition scanned_pdf : Path := ["manuals"; "Dishwasher"; "Acme"; "scan.pdf"].
Definition copy_pdf : Path := ["manuals"; "Dishwasher"; "Bolt"; "c300.pdf"].

Definition example_bytes (p : Path) : string :=
  if bool_decide (p = broken_pdf) then "%PDF-1.7 truncated"
  else if bool_decide (p = scanned_pdf) then "%PDF-1.7 scanned pages"
  else "%PDF-1.7 service manual".

(** A stand-in for SHA-256 that keeps different contents apart. *)
Definition example_hexdigest (data : string) : string := "sha256:" +:+ data.

Definition manual_page : Page :=
  {| get_text := Ok "Part WR-60X10074 fits Model ABC-123/DEF";
     get_images := Ok [] |}.

Definition blank_page : Page :=
  {| get_text := Ok ""; get_images := Ok [] |}.

Definition example_open (p : Path) : Result (list Page) :=
  if bool_decide (p = broken_pdf) then Raise FileDataError
  else if bool_decide (p = scanned_pdf) then Ok [blank_page; blank_page]
  else Ok [manual_page].

(** A splitter that keeps a short page whole and gives nothing for an
    empty one. *)
Definition example_split (page : string) : list string :=
  if String.eqb page "" then [] else [page].

Definition example_env (pdfs : list Path) : Env :=
  {| settings := example_settings;
     glob_pdfs := pdfs;
     read_bytes := example_bytes;
     sha256_hexdigest := example_hexdigest;
     fitz_open := example_open;
     pixmap_saved := fun _ _ => false;
     vision_analyzer := None;
     split_text := example_split;
     dense_encode := fun texts => Ok (map (fun _ => [1%Q; 0%Q]) texts);
     tfidf_fit := fun _ => Ok tt;
     tfidf_transform := fun _ texts => Ok (map (fun _ => [("part", 1 # 2)]) texts);
     pinecone_accepts := fun _ _ _ => true;
     supabase_accepts := fun _ _ => true |}.

(** The example directory with an index that takes an upsert only at
    the moments [up] holds of: a moment is the number of calls made
    before. *)
Definition env_with_index (up : nat -> bool) (pdfs : list Path) : Env :=
  {| settings := example_settings;
     glob_pdfs := pdfs;
     read_bytes := example_bytes;
     sha256_hexdigest := example_hexdigest;
     fitz_open := example_open;
     pixmap_saved := fun _ _ => false;
     vision_analyzer := None;
     split_text := example_split;
     dense_encode := fun texts => Ok (map (fun _ => [1%Q; 0%Q]) texts);
     tfidf_fit := fun _ => Ok tt;
     tfidf_transform := fun _ texts => Ok (map (fun _ => [("part", 1 # 2)]) texts);
     pinecone_accepts := fun t _ _ => up t;
     supabase_accepts := fun _ _ => true |}.

(** A directory of one manual, and an index that is down during the
    first five calls of the process and up afterwards. *)
Definition outage_env : Env :=
  env_with_index (fun t => (5 <=? t)%nat) [good_pdf].

Definition small_config : IngestionConfig :=
  {| pdf_root := ["manuals"];
     namespace := "appliance_manuals";
     batch_size := 2;
     tmp_dir := [".ingestion"; "tmp"] |}.

Definition five_records : list VectorRecord :=
  build_records "b200" ("Refrigerator", "Acme") 0
    (map (fun chunk => ([1%Q; 0%Q], [("part", 1 # 2)], chunk))
       ["one"; "two"; "three"; "four"; "five"]).

Definition manual_doc (name content : string) (dense_score : Q) : Document :=
  {| doc_id := name; doc_content := content; doc_meta := None;
     doc_score := Some dense_score |}.

(** Three indexed passages, nearest first by dense similarity. *)
Definition indexed_docs : list Document :=
  [ manual_doc "m1" "Replace the door gasket" (9 # 10);
    manual_doc "m2" "Defrost heater WR-51X10055" (8 # 10);
    manual_doc "m3" "Defrost thermostat" (7 # 10) ].

(** A cross-encoder that prefers the passages about defrosting, and
    gives the two of them the same score. *)
Definition example_cross_encoder (query passage : string) : Q :=
  if String.eqb passage "Replace the door gasket" then 1 # 10 else 6 # 10.

(** A store that holds [docs]. *)
Definition search_env (docs : list Document) : SearchEnv :=
  {| text_embedder := fun _ => Ok [1%Q; 0%Q];
     retriever := fun _ n => Ok (take n docs);
     ranker := fun k query candidates =>
                 Ok (ranker_run example_cross_encoder k query candidates) |}.

(** A store that cannot be reached. *)
Definition unreachable_env : SearchEnv :=
  {| text_embedder := fun _ => Ok [1%Q; 0%Q];
     retriever := fun _ _ => Raise PineconeError;
     ranker := fun k query candidates =>
                 Ok (ranker_run example_cross_encoder k query candidates) |}.

(** No checkpoint file, empty stores, no call made yet. *)
Definition fresh_world : World :=
  {| tracker := StateTracker.load None;
     vectorizer := None;
     pinecone := ∅;
     documents := [];
     trace := [] |}.

End Examples.

(** ** More vocabulary *)

(** Any call but a write to the documents table. *)
Definition is_not_row_write (e : Event) : Prop :=
  match e with
  | CallDocumentsUpsert _ => False
  | _ => True
  end.

(** Between [w] and [w'] neither store was written, nor was a write
    tried. *)
Definition no_store_write (w w' : World) : Prop :=
  pinecone w' = pinecone w /\ documents w' = documents w
  /\ extends_trace is_local_call w w'.

(** Between [w] and [w'] the documents table was not written, nor was a
    write to it tried. *)
Definition no_row_write (w w' : World) : Prop :=
  documents w' = documents w /\ extends_trace is_not_row_write w w'.

(** The texts a pattern can match: the pieces its repetitions take, one
    after the other, each of them made of characters of its class and
    of a length within its bounds. A word boundary takes nothing. *)
Fixpoint matches_shape (re : list Atom) (m : list ascii) : Prop :=
  match re with
  | [] => m = []
  | WordBoundary :: re' => matches_shape re' m
  | Repeat cls lo hi :: re' =>
      exists piece more,
        m = piece ++ more
        /\ Forall (fun a => cls a = true) piece
        /\ (lo <= length piece)%nat
        /\ match hi with
           | Some h => (length piece <= h)%nat
           | None => True
           end
        /\ matches_shape re' more
  end.

(** [needle] stands somewhere in [text]. *)
Definition occurs_in (needle text : string) : Prop :=
  exists before after,
    list_ascii_of_string text = before ++ list_ascii_of_string needle ++ after.

(** ** More small inputs *)

Module MoreExamples.

(** A configuration whose batch size is not positive. *)
Definition negative_batch_config : IngestionConfig :=
  {| pdf_root := ["manuals"];
     namespace := "appliance_manuals";
     batch_size := (-4);
     tmp_dir := [".ingestion"; "tmp"] |}.

(** The example directory seen with other settings. *)
Definition env_with_settings (s : Settings) (pdfs : list Path) : Env :=
  {| settings := s;
     glob_pdfs := pdfs;
     read_bytes := Examples.example_bytes;
     sha256_hexdigest := Examples.example_hexdigest;
     fitz_open := Examples.example_open;
     pixmap_saved := fun _ _ => false;
     vision_analyzer := None;
     split_text := Examples.example_split;
     dense_encode := fun texts => Ok (map (fun _ => [1%Q; 0%Q]) texts);
     tfidf_fit := fun _ => Ok tt;
     tfidf_transform := fun _ texts => Ok (map (fun _ => [("part", 1 # 2)]) texts);
     pinecone_accepts := fun _ _ _ => true;
     supabase_accepts := fun _ _ => true |}.

(** No key for the vector index. *)
Definition no_pinecone_key : Settings :=
  {| pinecone_api_key := "";
     pinecone_index := "appliance-manuals";
     supabase_url := "https://db.example";
     supabase_key := "sb-key" |}.

(** No credentials for the documents table. *)
Definition no_supabase_key : Settings :=
  {| pinecone_api_key := "pc-key";
     pinecone_index := "appliance-manuals";
     supabase_url := "https://db.example";
     supabase_key := "" |}.

End MoreExamples.

(** * The conversational layer

    [agent/memory.py], [agent/model_router.py], [agent/service.py],
    [tools/router.py], [tools/search.py], [tools/vision.py], and the
    echo model of [app/main.py]. *)

(** ** More Python built-ins *)

Definition newline : string := String (ascii_of_nat 10) "".

(** [sep.join(parts)] *)
Fixpoint py_join (sep : string) (parts : list string) : string :=
  match parts with
  | [] => ""
  | [part] => part
  | part :: parts' => part +:+ sep +:+ py_join sep parts'
  end.

(** [str.isspace] of one character, on the code points below U+0100. *)
Definition is_space (a : ascii) : bool :=
  code_in 9 13 a || code_in 28 32 a || code_in 133 133 a || code_in 160 160 a.

Fixpoint lstrip (s : string) : string :=
  match s with
  | EmptyString => ""
  | String a s' => if is_space a then lstrip s' else s
  end.

(** [s.rstrip()]: a blank is dropped when only blanks follow it. *)
Fixpoint rstrip (s : string) : string :=
  match s with
  | EmptyString => ""
  | String a s' =>
      match rstrip s' with
      | EmptyString => if is_space a then "" else String a ""
      | rest => String a rest
      end
  end.

(** [s.strip()] *)
Definition py_strip (s : string) : string := rstrip (lstrip s).

(** [str.lower] of one character, on the code points below U+0100. *)
Definition lower_ascii (a : ascii) : ascii :=
  if code_in 65 90 a || code_in 192 214 a || code_in 216 222 a
  then ascii_of_N (N_of_ascii a + 32)
  else a.

(** [s.lower()] *)
Fixpoint py_lower (s : string) : string :=
  match s with
  | EmptyString => ""
  | String a s' => String (lower_ascii a) (py_lower s')
  end.

(** [s.startswith(p)] *)
Definition startswith (s p : string) : bool := String.prefix p s.

(** [needle in s] *)
Fixpoint contains (needle s : string) : bool :=
  String.prefix needle s
  || match s with
     | EmptyString => false
     | String _ s' => contains needle s'
     end.

(** [l[start:]] for any integer [start]: a negative start counts from
    the end, and a start beyond either end is brought back to it. *)
Definition slice_from {A} (l : list A) (start : Z) : list A :=
  let len := Z.of_nat (length l) in
  let start' := if (start <? 0)%Z then Z.max 0 (start + len) else Z.min start len in
  drop (Z.to_nat start') l.

(** The scalar values a metadata flag can hold, and their truth value. *)
Inductive PyValue :=
  | PyNone
  | PyBool (b : bool)
  | PyInt (z : Z)
  | PyStr (s : string).

Definition truthy (v : PyValue) : bool :=
  match v with
  | PyNone => false
  | PyBool b => b
  | PyInt z => negb (z =? 0)%Z
  | PyStr s => negb (String.eqb s "")
  end.

(** [metadata.get(key)] seen as a condition; a missing key is [None]. *)
Definition flag (v : option PyValue) : bool :=
  match v with
  | Some x => truthy x
  | None => false
  end.

Module Conversation.

(** *** [app/models.py] *)

(** The keys of a request's metadata that the code reads. *)
Record Metadata := {
  md_image_ids : option (list string);
  md_requires_search : option PyValue;
  md_mode : option PyValue;
  md_requires_part_numbers : option PyValue
}.

Definition empty_metadata : Metadata :=
  {| md_image_ids := None; md_requires_search := None;
     md_mode := None; md_requires_part_numbers := None |}.

Record ChatRequest := {
  session_id : option string;
  message : string;
  image_ids : list string;
  metadata : Metadata
}.

(** *** [tools/search.py] *)

Record SearchResult := {
  title : string;
  link : string;
  snippet : string;
  source : string
}.

(** A JSON object whose values are strings. *)
Abbreviation Item := (gmap string string).

(** The payload of the two search services, as far as it is read. *)
Record GooglePayload := { items : option (list Item) }.
Record BingPayload := { webPages : option (option (list Item)) }.

(** *** [tools/router.py] *)

Inductive ToolInput :=
  | InputImageIds (ids : list string)
  | InputQuery (query : string).

(** One element of a tool's output: a [SearchResult], or the JSON
    object of a vision answer, each value by its [str]. *)
Inductive ToolResult :=
  | Hit (result : SearchResult)
  | Json (obj : Item).

Record ToolCall := {
  name : string;
  input : ToolInput;
  output : list ToolResult
}.

(** *** [agent/model_router.py] *)

Inductive ModelRole := Primary | Fast | Extractor.

(** A message of a prompt: its role and its content. *)
Abbreviation PromptMessage := (string * string)%type.

(** A row of the conversation history: its role and its content. *)
Abbreviation HistoryItem := (string * string)%type.

(** [created_at], the time of construction, is left out. *)
Record ChatMessage := {
  role : string;
  content : string;
  citations : list DocumentChunk;
  tool_calls : list ToolCall
}.

(** *** The world of the conversational layer *)

Inductive Call :=
  | SelectMessages (session : string) (window : Z)
  | UpsertConversation (session : string)
  | InsertMessage (session role content : string)
  | CallRetrieve (query : string)
  | GetGoogle (q : string)
  | GetBing (q : string)
  | PostGemini (image_id : string)
  | Invoke (model : ModelRole) (messages : list PromptMessage).

(** The settings read by the tools. *)
Record ToolSettings := {
  google_search_api_key : string;
  google_search_cx : string;
  bing_search_api_key : string;
  gemini_api_key : string
}.

(** What the layer does not own. A remote service may answer a call
    and fail the same call later: its answer depends on the number of
    calls made before. *)
Record Env := {
  settings : Settings;
  tool_settings : ToolSettings;
  (* the rows of the select on the messages table, newest first *)
  select_messages : nat -> string -> Z -> Result (list HistoryItem);
  (* the upsert on the conversations table *)
  upsert_conversation : nat -> string -> Result unit;
  (* the insert on the messages table *)
  insert_message : nat -> string -> string -> string -> Result unit;
  (* the GET on the Google endpoint, raise_for_status and json *)
  get_google : nat -> string -> Result GooglePayload;
  (* the GET on the Bing endpoint, raise_for_status and json *)
  get_bing : nat -> string -> Result BingPayload;
  (* the POST on the Gemini endpoint, raise_for_status and json *)
  post_gemini : nat -> string -> Result Item;
  (* model.ainvoke(messages).content *)
  ainvoke : nat -> ModelRole -> list PromptMessage -> Result string;
  (* ChatPromptTemplate.format_messages(context, history, question) *)
  format_messages : string -> string -> string -> list PromptMessage;
  (* textwrap.dedent *)
  dedent : string -> string;
  (* urlparse(link).netloc *)
  netloc : string -> string;
  (* the retrieval pipeline of the context, if any, and its services *)
  retrieval_pipeline : option RetrievalPipeline;
  search_env : nat -> SearchEnv
}.

Record World := {
  (* the module-level dict of agent/memory.py *)
  _local_memory_store : gmap string (list HistoryItem);
  (* every call made so far, oldest first *)
  calls : list Call
}.

Definition log (c : Call) (w : World) : World :=
  {| _local_memory_store := _local_memory_store w; calls := calls w ++ [c] |}.

Definition set_store (s : gmap string (list HistoryItem)) (w : World) : World :=
  {| _local_memory_store := s; calls := calls w |}.

(** State, and exceptions that keep it. *)
Definition AM (A : Type) : Type := World -> Result A * World.

Definition ret {A} (a : A) : AM A := fun w => (Ok a, w).

Definition bind {A B} (m : AM A) (k : A -> AM B) : AM B :=
  fun w =>
    match m w with
    | (Ok a, w') => k a w'
    | (Raise e, w') => (Raise e, w')
    end.

Notation "x <~ m ;; k" := (bind m (fun x => k))
  (at level 100, m at next level, right associativity).

(** A call to a remote service: logged, then answered by what the
    service says at this point of the run. *)
Definition remote {A} (c : Call) (answer : nat -> Result A) : AM A :=
  fun w => (answer (length (calls w)), log c w).

(** [try: body; except Exception: handler] *)
Definition try_except {A} (body : AM A) (handler : AM A) : AM A :=
  fun w =>
    match body w with
    | (Ok a, w') => (Ok a, w')
    | (Raise _, w') => handler w'
    end.

Section Layer.
Variable env : Env.

(** *** [database/clients.py]: the [supabase] property *)

Definition supabase : AM unit :=
  if String.eqb (supabase_url (settings env)) ""
     || String.eqb (supabase_key (settings env)) ""
  then fun w => (Raise (RuntimeError "Supabase credentials are missing"), w)
  else ret tt.

(** *** [agent/memory.py]: [ConversationMemory] *)

Definition _fetch_local (window : Z) (session : string) : AM (list HistoryItem) :=
  fun w =>
    let history := from_option (_local_memory_store w !! session) [] in
    match history with
    | [] => (Ok [], w)
    | _ :: _ => (Ok (slice_from history (- window)), w)
    end.

Definition fetch (window : Z) (session : string) : AM (list HistoryItem) :=
  try_except
    (_ <~ supabase ;;
     data <~ remote (SelectMessages session window)
               (fun t => select_messages env t session window) ;;
     ret (rev data))
    (_fetch_local window session).

Definition _ensure_conversation (session : string) : AM unit :=
  try_except
    (_ <~ supabase ;;
     remote (UpsertConversation session) (fun t => upsert_conversation env t session))
    (ret tt).

Definition _append_local (session : string) (payload : HistoryItem) : AM unit :=
  fun w =>
    let entries := from_option (_local_memory_store w !! session) [] in
    (Ok tt, set_store (<[session := entries ++ [payload]]> (_local_memory_store w)) w).

Definition append (session role content : string) : AM unit :=
  try_except
    (_ <~ _ensure_conversation session ;;
     _ <~ supabase ;;
     remote (InsertMessage session role content)
       (fun t => insert_message env t session role content))
    (_append_local session (role, content)).

(** *** [tools/search.py]: [SearchTool] *)

Definition item_get (item : Item) (key : string) : string :=
  from_option (item !! key) "".

Definition trusted_sites : string :=
  "site:partselect.com OR site:repairclinic.com OR site:searspartsdirect.com".

Definition _google_search (query : string) : AM (list SearchResult) :=
  if String.eqb (google_search_api_key (tool_settings env)) ""
     || String.eqb (google_search_cx (tool_settings env)) ""
  then ret []
  else
    let augmented_query := query +:+ " (" +:+ trusted_sites +:+ ")" in
    payload <~ remote (GetGoogle augmented_query)
                 (fun t => get_google env t augmented_query) ;;
    ret (map (fun item =>
                {| title := item_get item "title";
                   link := item_get item "link";
                   snippet := item_get item "snippet";
                   source := "google" |})
           (from_option (items payload) [])).

Definition _bing_search (query : string) : AM (list SearchResult) :=
  if String.eqb (bing_search_api_key (tool_settings env)) ""
  then ret []
  else
    payload <~ remote (GetBing query) (fun t => get_bing env t query) ;;
    ret (map (fun item =>
                {| title := item_get item "name";
                   link := item_get item "url";
                   snippet := item_get item "snippet";
                   source := "bing" |})
           (from_option (from_option (webPages payload) None) [])).

Definition search (query : string) : AM (list SearchResult) :=
  google_results <~ _google_search query ;;
  bing_results <~ _bing_search query ;;
  ret (google_results ++ bing_results).

(** *** [tools/vision.py]: [VisionTool] *)

Fixpoint post_images (ids : list string) (responses : list Item)
    : AM (list Item) :=
  match ids with
  | [] => ret responses
  | image_id :: ids' =>
      resp <~ remote (PostGemini image_id) (fun t => post_gemini env t image_id) ;;
      post_images ids' (responses ++ [resp])
  end.

Definition describe_images (ids : list string) : AM (list Item) :=
  if String.eqb (gemini_api_key (tool_settings env)) ""
  then ret []
  else post_images ids [].

(** *** [tools/router.py]: [ToolRouter.route] *)

(** [metadata.get("image_ids")] as a condition. *)
Definition has_image_ids (md : Metadata) : bool :=
  match md_image_ids md with
  | Some (_ :: _) => true
  | _ => false
  end.

Definition route (msg : string) (md : option Metadata) : AM (list ToolCall) :=
  let md := from_option md empty_metadata in
  events <~
    (if has_image_ids md then
       let ids := from_option (md_image_ids md) [] in
       vision_result <~ describe_images ids ;;
       ret [ {| name := "vision"; input := InputImageIds ids;
               output := map Json vision_result |} ]
     else ret []) ;;
  if flag (md_requires_search md) then
    search_result <~ search msg ;;
    ret (events ++ [ {| name := "web_search"; input := InputQuery msg;
                       output := map Hit search_result |} ])
  else ret events.

(** *** [agent/model_router.py]: [ModelRouter.pick] *)

Definition is_extract (v : option PyValue) : bool :=
  match v with
  | Some (PyStr s) => String.eqb s "extract"
  | _ => false
  end.

Definition pick (request : ChatRequest) : ModelRole :=
  if is_extract (md_mode (metadata request))
     || flag (md_requires_part_numbers (metadata request))
  then Extractor
  else if (String.length (message request) <? 320)%nat then Fast
  else Primary.

(** *** [agent/service.py]: [AgentOrchestrator] *)

Definition _format_history (history : list HistoryItem) : string :=
  match history with
  | [] => "(empty)"
  | _ :: _ => py_join newline (map (fun item => fst item +:+ ": " +:+ snd item) history)
  end.

Definition classifier_prompt (question : string) : list PromptMessage :=
  [ ("system",
     "You determine if a customer question needs up-to-date or general web knowledge. "
       +:+ "Respond with exactly YES or NO.");
    ("human", question) ].

Definition heuristics : list string :=
  ["error code"; "recall"; "price"; "warranty"; "meaning"; "news"].

(** The last lines of [_should_search]. *)
Definition keyword_search (question : string) : bool :=
  let lowered := py_lower question in
  existsb (fun term => contains term lowered) heuristics.

Definition _should_search (question : string) : AM bool :=
  fun w =>
    let prompt := classifier_prompt question in
    let w' := log (Invoke Fast prompt) w in
    match ainvoke env (length (calls w)) Fast prompt with
    | Ok result =>
        let answer := py_lower (py_strip result) in
        if startswith answer "yes" || startswith answer "y" then (Ok true, w')
        else if startswith answer "no" || startswith answer "n" then (Ok false, w')
        else (Ok (keyword_search question), w')
    | Raise _ => (Ok (keyword_search question), w')
    end.

(** [str(chunk.page_number)] *)
Definition str_of_page (page_number : option nat) : string :=
  match page_number with
  | Some n => str_of_nat n
  | None => "None"
  end.

(** [a or b] on strings. *)
Definition str_or (a b : string) : string :=
  if String.eqb a "" then b else a.

Definition spaces (n : nat) : string := string_of_list_ascii (repeat " "%char n).

Definition _format_manual_chunks (chunks : list RetrievalResult) : string :=
  match chunks with
  | [] => ""
  | _ :: _ =>
  py_join (newline +:+ newline)
    (map
       (fun chunk =>
          let summary_source :=
            str_or (from_option (res_summary chunk) "")
              (str_prefix 400 (res_text chunk)) in
          py_strip
            (dedent env
               (newline
                +:+ spaces 20 +:+ "Source: " +:+ res_source chunk
                +:+ " (page " +:+ str_of_page (res_page_number chunk) +:+ ")"
                +:+ newline
                +:+ spaces 20 +:+ "Snippet: " +:+ summary_source +:+ newline
                +:+ spaces 20 +:+ "Part numbers: "
                +:+ str_or (py_join ", " (res_part_numbers chunk)) "N/A" +:+ newline
                +:+ spaces 20)))
       chunks)
  end.

(** [hasattr(result, field)] holds for the four fields of a
    [SearchResult] only; a JSON object is a [dict]. *)
Definition _safe_get (result : ToolResult) (field : string) : string :=
  match result with
  | Hit r =>
      if String.eqb field "title" then title r
      else if String.eqb field "link" then link r
      else if String.eqb field "snippet" then snippet r
      else if String.eqb field "source" then source r
      else ""
  | Json obj => from_option (obj !! field) ""
  end.

(** The entry of one search result; [index] counts from one. *)
Definition format_entry (index : nat) (result : ToolResult) : string :=
  let title := _safe_get result "title" in
  let link := _safe_get result "link" in
  let snippet := _safe_get result "snippet" in
  let source := str_or (_safe_get result "source") "web" in
  let host := if String.eqb link "" then "unknown" else netloc env link in
  py_strip
    (dedent env
       (newline
        +:+ spaces 24 +:+ "[" +:+ str_of_nat index +:+ "] ("
        +:+ source +:+ " | " +:+ host +:+ ")" +:+ newline
        +:+ spaces 24 +:+ "Title: " +:+ title +:+ newline
        +:+ spaces 24 +:+ "URL: " +:+ link +:+ newline
        +:+ spaces 24 +:+ "Snippet: " +:+ snippet +:+ newline
        +:+ spaces 24)).

Fixpoint format_entries (index : nat) (results : list ToolResult) : list string :=
  match results with
  | [] => []
  | result :: results' => format_entry index result :: format_entries (S index) results'
  end.

(** The entries of one tool event. *)
Definition event_entries (event : ToolCall) : list string :=
  if negb (String.eqb (name event) "web_search")
     || match output event with [] => true | _ :: _ => false end
  then []
  else format_entries 1 (output event).

Definition _format_search_results (tool_events : list ToolCall) : string :=
  match tool_events with
  | [] => ""
  | _ :: _ => py_join (newline +:+ newline) (concat (map event_entries tool_events))
  end.

Definition _format_context (chunks : list RetrievalResult) (tool_events : list ToolCall)
    : string :=
  let manual_section := _format_manual_chunks chunks in
  let sections1 :=
    if String.eqb manual_section "" then []
    else ["Manual Excerpts:" +:+ newline +:+ manual_section] in
  let search_section := _format_search_results tool_events in
  let sections :=
    if String.eqb search_section "" then sections1
    else sections1 ++ ["Web Search Results:" +:+ newline +:+ search_section] in
  match sections with
  | [] => "No manual excerpts retrieved."
  | _ :: _ => py_join (newline +:+ newline) sections
  end.

(** [await self.context.retrieval_pipeline.retrieve(query=...)], or
    no chunk at all without a pipeline. *)
Definition retrieve_chunks (query : string) : AM (list RetrievalResult) :=
  match retrieval_pipeline env with
  | Some pipeline =>
      remote (CallRetrieve query) (fun t => retrieve (search_env env t) pipeline query)
  | None => ret []
  end.

(** [request.session_id or "temp"] *)
Definition session_or_temp (request : ChatRequest) : string :=
  match session_id request with
  | Some s => if String.eqb s "" then "temp" else s
  | None => "temp"
  end.

Definition run (window : Z) (request : ChatRequest) : AM ChatMessage :=
  let session := session_or_temp request in
  history <~ fetch window session ;;
  let history_str := _format_history history in
  retrieved_chunks <~ retrieve_chunks (message request) ;;
  should_search <~
    (match retrieved_chunks with
     | [] => ret true
     | _ :: _ =>
         needed <~ _should_search (message request) ;;
         ret (if needed then true else flag (md_requires_search (metadata request)))
     end) ;;
  tool_events <~
    (if should_search : bool then
       route (message request)
         (Some {| md_image_ids := None;
                  md_requires_search := Some (PyBool true);
                  md_mode := None;
                  md_requires_part_numbers := None |})
     else ret []) ;;
  let context_block := _format_context retrieved_chunks tool_events in
  let prompt_messages :=
    format_messages env context_block history_str (message request) in
  let model := pick request in
  response <~ remote (Invoke model prompt_messages)
                (fun t => ainvoke env t model prompt_messages) ;;
  _ <~ append session "user" (message request) ;;
  _ <~ append session "assistant" response ;;
  ret {| role := "assistant";
         content := response;
         citations := map to_model retrieved_chunks;
         tool_calls := tool_events |}.

End Layer.

(** *** Vocabulary of the statements *)

(** The Supabase credentials are not both set. *)
Definition no_supabase (env : Env) : Prop :=
  supabase_url (settings env) = "" \/ supabase_key (settings env) = "".

(** No key of a search service is set. *)
Definition no_search_key (env : Env) : Prop :=
  google_search_api_key (tool_settings env) = ""
  /\ bing_search_api_key (tool_settings env) = "".

(** The local history of a session. *)
Definition history_of (w : World) (session : string) : list HistoryItem :=
  from_option (_local_memory_store w !! session) [].

Definition is_memory_write (c : Call) : bool :=
  match c with
  | UpsertConversation _ | InsertMessage _ _ _ => true
  | _ => false
  end.

Definition is_vision_call (c : Call) : bool :=
  match c with
  | PostGemini _ => true
  | _ => false
  end.

(** From [w] to [w'] calls were made, and [P] holds of each of them. *)
Definition continues (P : Call -> bool) (w w' : World) : Prop :=
  exists made, calls w' = calls w ++ made /\ forallb P made = true.

(** From [w] to [w'] the memory was not written: the local store is
    the same and no write to the remote one was tried. *)
Definition memory_untouched (w w' : World) : Prop :=
  _local_memory_store w' = _local_memory_store w
  /\ continues (fun c => negb (is_memory_write c)) w w'.

(** Every run of [m] relates the world it starts in to the world it
    ends in. *)
Definition preserves {A} (R : World -> World -> Prop) (m : AM A) : Prop :=
  forall w, R w (snd (m w)).

(** A relation between worlds that is kept along a run, as long as
    the calls made satisfy [P]. *)
Class CallFrame (P : Call -> bool) (R : World -> World -> Prop) : Prop := {
  call_frame_refl : forall w, R w w;
  call_frame_trans : forall w1 w2 w3, R w1 w2 -> R w2 w3 -> R w1 w3;
  call_frame_log : forall c w, P c = true -> R w (log c w)
}.

(** *** [app/main.py]: [LocalEchoModel] *)

Definition LocalEchoModel (messages : list PromptMessage) : string :=
  "[mock-response] "
    +:+ match List.last (map Some messages) None with
        | Some last => snd last
        | None => ""
        end.

End Conversation.

(** ** Small inputs of the conversational layer *)

Module ConversationExamples.
Import Conversation.

Definition offline_settings : Settings :=
  {| pinecone_api_key := ""; pinecone_index := "";
     supabase_url := ""; supabase_key := "" |}.

Definition online_settings : Settings :=
  {| pinecone_api_key := "pc-key"; pinecone_index := "manuals";
     supabase_url := "https://db.example"; supabase_key := "sb-key" |}.

Definition no_keys : ToolSettings :=
  {| google_search_api_key := ""; google_search_cx := "";
     bing_search_api_key := ""; gemini_api_key := "" |}.

Definition all_keys : ToolSettings :=
  {| google_search_api_key := "g-key"; google_search_cx := "g-cx";
     bing_search_api_key := "b-key"; gemini_api_key := "gm-key" |}.

Definition example_template (context history question : string) : list PromptMessage :=
  [ ("system", "You are an elite appliance repair technician.");
    ("human", "Context: " +:+ context +:+ " History: " +:+ history
              +:+ " Question: " +:+ question) ].

(** A process without any credential: every model is the echo model,
    there is no retrieval pipeline, and no service is ever reached. *)
Definition offline_env : Env :=
  {| settings := offline_settings;
     tool_settings := no_keys;
     select_messages := fun _ _ _ => Raise SupabaseError;
     upsert_conversation := fun _ _ => Raise SupabaseError;
     insert_message := fun _ _ _ _ => Raise SupabaseError;
     get_google := fun _ _ => Raise (ValueError "no answer");
     get_bing := fun _ _ => Raise (ValueError "no answer");
     post_gemini := fun _ _ => Raise (ValueError "no answer");
     ainvoke := fun _ _ messages => Ok (LocalEchoModel messages);
     format_messages := example_template;
     dedent := fun text => text;
     netloc := fun link => link;
     retrieval_pipeline := None;
     search_env := fun _ => Examples.unreachable_env |}.

(** A process with every credential, whose index cannot be reached,
    whose Google answer is not JSON and whose Gemini answers stop
    after the first. *)
Definition degraded_env : Env :=
  {| settings := online_settings;
     tool_settings := all_keys;
     select_messages := fun _ _ _ => Ok [];
     upsert_conversation := fun _ _ => Ok tt;
     insert_message := fun _ _ _ _ => Ok tt;
     get_google := fun _ _ => Raise (ValueError "Expecting value");
     get_bing := fun _ _ => Ok {| webPages := None |};
     post_gemini := fun t image_id =>
       if (t <? 1)%nat then Ok {[ "text" := "model " +:+ image_id ]}
       else Raise (ValueError "Expecting value");
     ainvoke := fun _ _ messages => Ok (LocalEchoModel messages);
     format_messages := example_template;
     dedent := fun text => text;
     netloc := fun link => link;
     retrieval_pipeline := Some (RetrievalPipeline_init 5);
     search_env := fun _ => Examples.unreachable_env |}.

Definition empty_world : World := {| _local_memory_store := ∅; calls := [] |}.

Definition talk : list HistoryItem :=
  [ ("user", "My fridge is warm"); ("assistant", "Which model?");
    ("user", "RF28"); ("assistant", "Check the defrost heater") ].

Definition world_with_talk : World :=
  {| _local_memory_store := {[ "s1" := talk ]}; calls := [] |}.

Definition example_request : ChatRequest :=
  {| session_id := Some "s1";
     message := "What does error code 5E mean?";
     image_ids := ["uploaded://1"];
     metadata := empty_metadata |}.

End ConversationExamples.

(** * Properties *)

(** ** The stable sort *)

Section PySortedFacts.
Context {A : Type} (leb : A -> A -> bool).

Lemma insert_sorted_perm (x : A) (l : list A) :
  Permutation (insert_sorted leb x l) (x :: l).
Proof.
  induction l as [|y l IH]; simpl; [reflexivity|].
  destruct (leb x y); [reflexivity|].
  rewrite IH. apply perm_swap.
Qed.

Lemma py_sorted_perm (l : list A) : Permutation (py_sorted leb l) l.
Proof.
  induction l as [|x l IH]; simpl; [reflexivity|].
  rewrite insert_sorted_perm. now constructor.
Qed.

Lemma py_sorted_In (l : list A) (x : A) : In x (py_sorted leb l) <-> In x l.
Proof.
  split; apply Permutation_in; [|symmetry]; apply py_sorted_perm.
Qed.

Lemma py_sorted_length (l : list A) : length (py_sorted leb l) = length l.
Proof. apply Permutation_length, py_sorted_perm. Qed.

Hypothesis leb_total : forall x y, leb x y = true \/ leb y x = true.
Hypothesis leb_trans : forall x y z, leb x y = true -> leb y z = true -> leb x z = true.

Lemma insert_sorted_sorted (x : A) (l : list A) :
  StronglySorted (fun a b => leb a b = true) l ->
  StronglySorted (fun a b => leb a b = true) (insert_sorted leb x l).
Proof.
  induction 1 as [|y l Hl IH Hy]; simpl.
  - repeat constructor.
  - destruct (leb x y) eqn:Hxy.
    + constructor; [now constructor|].
      constructor; [exact Hxy|].
      eapply Forall_impl; [exact Hy|]. intros z Hz. eapply leb_trans; eauto.
    + constructor; [exact IH|].
      assert (Hyx : leb y x = true) by (destruct (leb_total x y); congruence).
      eapply Permutation_Forall; [symmetry; apply insert_sorted_perm|].
      now constructor.
Qed.

Lemma py_sorted_sorted (l : list A) :
  StronglySorted (fun a b => leb a b = true) (py_sorted leb l).
Proof.
  induction l as [|x l IH]; simpl; [constructor|].
  now apply insert_sorted_sorted.
Qed.
End PySortedFacts.

Lemma StronglySorted_weaken {A} (R1 R2 : A -> A -> Prop) (l : list A) :
  (forall a b, R1 a b -> R2 a b) -> StronglySorted R1 l -> StronglySorted R2 l.
Proof.
  intros H. induction 1 as [|x l Hl IH Hx]; constructor; [exact IH|].
  eapply Forall_impl; [exact Hx|]. intros y. apply H.
Qed.

(** Stability: the elements picked by [f] leave the sort in the order
    they entered it, as long as each of them may stand before the others. *)
Lemma insert_sorted_filter {A} (leb : A -> A -> bool) (f : A -> bool) (x : A) (l : list A) :
  (forall y, In y l -> f x = true -> f y = true -> leb x y = true) ->
  List.filter f (insert_sorted leb x l) = List.filter f (x :: l).
Proof.
  induction l as [|y l IH]; intros H; simpl; [reflexivity|].
  destruct (leb x y) eqn:Hxy; simpl; [reflexivity|].
  destruct (f y) eqn:Hfy.
  - destruct (f x) eqn:Hfx.
    + rewrite (H y) in Hxy; [discriminate|now left|reflexivity|exact Hfy].
    + rewrite IH by (intros; apply H; auto; now right). simpl. now rewrite Hfx.
  - rewrite IH by (intros; apply H; auto; now right). reflexivity.
Qed.

Lemma py_sorted_stable {A} (leb : A -> A -> bool) (f : A -> bool) (l : list A) :
  (forall x y, f x = true -> f y = true -> leb x y = true) ->
  List.filter f (py_sorted leb l) = List.filter f l.
Proof.
  intros H. induction l as [|x l IH]; simpl; [reflexivity|].
  rewrite insert_sorted_filter by (intros; now apply H).
  simpl. now rewrite IH.
Qed.

(** ** The order of strings *)

Lemma string_leb_trans (s1 s2 s3 : string) :
  String.leb s1 s2 = true -> String.leb s2 s3 = true -> String.leb s1 s3 = true.
Proof.
  unfold String.leb. revert s2 s3.
  induction s1 as [|a s1 IH]; intros [|b s2] [|c s3]; simpl; try congruence.
  unfold Ascii.compare.
  destruct (N.compare_spec (N_of_ascii a) (N_of_ascii b)) as [Hab|Hab|Hab];
    destruct (N.compare_spec (N_of_ascii b) (N_of_ascii c)) as [Hbc|Hbc|Hbc];
    try congruence.
  - rewrite Hab, Hbc, N.compare_refl. apply IH.
  - rewrite Hab. intros _ _.
    now rewrite (proj2 (N.compare_lt_iff _ _) Hbc).
  - rewrite <- Hbc. intros _ _.
    now rewrite (proj2 (N.compare_lt_iff _ _) Hab).
  - intros _ _.
    now rewrite (proj2 (N.compare_lt_iff _ _) (N.lt_trans _ _ _ Hab Hbc)).
Qed.

Lemma string_leb_ne_ltb (s1 s2 : string) :
  String.leb s1 s2 = true -> s1 <> s2 -> String.ltb s1 s2 = true.
Proof.
  unfold String.leb, String.ltb. intros Hle Hne.
  destruct (String.compare s1 s2) eqn:Hc; try congruence.
  apply String.compare_eq_iff in Hc. contradiction.
Qed.

(** A sorted list without repetition is strictly increasing. *)
Lemma sorted_nodup_strict (l : list string) :
  StronglySorted (fun a b => String.leb a b = true) l -> NoDup l ->
  StronglySorted (fun a b => String.ltb a b = true) l.
Proof.
  induction 1 as [|x l Hl IH Hx]; intros Hnd; constructor.
  - apply IH. now apply NoDup_cons_1_2 in Hnd.
  - apply Forall_forall. intros y Hy.
    apply string_leb_ne_ltb.
    + rewrite Forall_forall in Hx. now apply Hx.
    + intros ->. apply NoDup_cons_1_1 in Hnd. contradiction.
Qed.

Lemma sorted_set_spec (candidates : list string) :
  StronglySorted (fun a b => String.ltb a b = true)
    (py_sorted String.leb (remove_dups candidates))
  /\ forall m, In m (py_sorted String.leb (remove_dups candidates)) <-> In m candidates.
Proof.
  split.
  - apply sorted_nodup_strict.
    + apply py_sorted_sorted; [apply String.leb_total|apply string_leb_trans].
    + rewrite py_sorted_perm. apply NoDup_remove_dups.
  - intros m. rewrite py_sorted_In, <- !list_elem_of_In.
    apply elem_of_remove_dups.
Qed.

(** ** The matcher *)

Lemma match_repeat_suffix {X} (len : X -> nat) cls lo hi prev s
    (k : option ascii -> list ascii -> option X) r :
  (forall p s' r', k p s' = Some r' -> (len r' <= length s')%nat) ->
  match_repeat cls lo hi prev s k = Some r -> (len r <= length s)%nat.
Proof.
  intros Hk. revert lo hi prev.
  induction s as [|a s IH]; intros lo hi prev; simpl.
  - destruct lo; [apply Hk|discriminate].
  - destruct (cls a && hi_allows hi).
    + destruct (match_repeat cls (Nat.pred lo) (hi_pred hi) (Some a) s k) eqn:Hrec.
      * intros [= <-]. apply IH in Hrec. lia.
      * destruct lo; [|discriminate]. intros H. apply Hk in H. simpl in H. lia.
    + destruct lo; [|discriminate]. intros H. apply Hk in H. simpl in H. lia.
Qed.

Lemma match_here_suffix re prev s rest :
  match_here re prev s = Some rest -> (length rest <= length s)%nat.
Proof.
  revert prev s rest.
  induction re as [|[|cls lo hi] re IH]; intros prev s rest; simpl.
  - intros [= <-]. lia.
  - destruct (at_boundary prev s); [apply IH|discriminate].
  - apply (match_repeat_suffix (@length ascii)). intros p s' r'. apply IH.
Qed.

(** A repetition that still owes a character takes one of its class. *)
Lemma match_repeat_owes {X} cls lo hi prev s
    (k : option ascii -> list ascii -> option X) r :
  match_repeat cls (S lo) hi prev s k = Some r ->
  exists a s', s = a :: s' /\ cls a = true
    /\ match_repeat cls lo (hi_pred hi) (Some a) s' k = Some r.
Proof.
  destruct s as [|a s]; simpl; [discriminate|].
  destruct (cls a) eqn:Ha; simpl; [|discriminate].
  destruct (hi_allows hi); [|discriminate].
  destruct (match_repeat cls lo (hi_pred hi) (Some a) s k) eqn:Hrec; [|discriminate].
  intros [= <-]. eauto.
Qed.

(** Every match of the part-number pattern starts with three characters
    of [[A-Z0-9]]. *)
Lemma part_number_match_head prev s rest :
  match_here PART_NUMBER_RE prev s = Some rest ->
  exists a b c s', s = a :: b :: c :: s'
    /\ upper_or_digit a = true /\ upper_or_digit b = true /\ upper_or_digit c = true
    /\ (length rest <= length s')%nat.
Proof.
  unfold PART_NUMBER_RE.
  cbn [match_here]. destruct (at_boundary prev s); [|discriminate].
  intros H.
  apply match_repeat_owes in H as (a & s1 & -> & Ha & H).
  apply match_repeat_owes in H as (b & s2 & -> & Hb & H).
  apply match_repeat_owes in H as (c & s3 & -> & Hc & H).
  exists a, b, c, s3. repeat split; try assumption.
  revert H. apply (match_repeat_suffix (@length ascii)).
  intros p s' r'.
  exact (match_here_suffix
           [Repeat hyphen 0 (Some 1); Repeat upper_or_digit 3 (Some 6); WordBoundary]
           p s' r').
Qed.

Lemma findall_part_number_head prev s skip m :
  In m (findall_from PART_NUMBER_RE prev s skip) ->
  exists a b c m', m = String a (String b (String c m'))
    /\ upper_or_digit a = true /\ upper_or_digit b = true /\ upper_or_digit c = true.
Proof.
  revert prev skip.
  induction s as [|x s IH]; intros prev skip; [intros []|].
  cbn [findall_from]. destruct skip as [|n]; [|apply IH].
  destruct (match_here PART_NUMBER_RE prev (x :: s)) as [rest|] eqn:Hm; [|apply IH].
  intros [<-|Hin]; [|eapply IH; eassumption].
  apply part_number_match_head in Hm as (a & b & c & s' & Hs & Ha & Hb & Hc & Hlen).
  rewrite Hs. cbn [length].
  replace (S (S (S (length s'))) - length rest)%nat
    with (S (S (S (length s' - length rest)))) by lia.
  cbn [take string_of_list_ascii]. eauto 10.
Qed.

(** ** Token extraction *)

(** C6, as the code has it. For every text each extractor returns its
    matches without repetition and in strictly increasing order. On
    ["Model ABC-123/DEF"] the model-number extractor returns
    [ABC-123/DEF]. On ["Part WR-60X10074"] the part-number extractor
    returns [60X10074]: the pattern asks for three characters of
    [[A-Z0-9]] before the hyphen, so [WR-60X10074] is a match on no text. *)
Theorem extractors_sorted_dedup :
  (forall text,
      StronglySorted (fun a b => String.ltb a b = true) (extract_part_numbers text)
      /\ (forall m, In m (extract_part_numbers text) <-> In m (findall PART_NUMBER_RE text))
      /\ StronglySorted (fun a b => String.ltb a b = true) (extract_model_numbers text)
      /\ (forall m, In m (extract_model_numbers text) <-> In m (findall MODEL_RE text)))
  /\ extract_model_numbers "Model ABC-123/DEF" = ["ABC-123/DEF"]
  /\ extract_part_numbers "Part WR-60X10074" = ["60X10074"]
  /\ extract_part_numbers "Part WR-60X10074 and Model ABC-123/DEF" = ["60X10074"; "ABC-123"]
  /\ extract_model_numbers "Part WR-60X10074 and Model ABC-123/DEF" = ["ABC-123/DEF"]
  /\ (forall text, ~ In "WR-60X10074" (extract_part_numbers text)).
Proof.
  split; [|repeat split; try (vm_compute; reflexivity)].
  - intros text. unfold extract_part_numbers, extract_model_numbers.
    destruct (sorted_set_spec (findall PART_NUMBER_RE text)) as [H1 H2].
    destruct (sorted_set_spec (findall MODEL_RE text)) as [H3 H4].
    auto.
  - intros text Hin. unfold extract_part_numbers in Hin.
    apply (proj1 (proj2 (sorted_set_spec _) _)) in Hin.
    apply findall_part_number_head in Hin as (a & b & c & m' & Heq & _ & _ & Hc).
    injection Heq as <- <- <- _. vm_compute in Hc. discriminate.
Qed.

(** C6 as stated fails on the text of the spec: the part-number extractor
    does not return [WR-60X10074]. *)
Lemma part_number_extractor_misses_WR :
  ~ In "WR-60X10074" (extract_part_numbers "Part WR-60X10074 and Model ABC-123/DEF").
Proof.
  vm_compute. intros [H|[H|[]]]; discriminate.
Qed.

(** ** The sparse token hasher *)

Lemma utf8_of_ascii_bytes (a : ascii) :
  Forall (fun b => (b < 256)%N) (utf8_of_ascii a).
Proof.
  unfold utf8_of_ascii. pose proof (N_ascii_bounded a) as Ha.
  destruct (N.ltb_spec (N_of_ascii a) 128).
  - repeat constructor. lia.
  - repeat constructor.
    + rewrite N.shiftr_div_pow2. change (2 ^ 6)%N with 64%N.
      assert (N_of_ascii a / 64 < 4)%N by (apply N.Div0.div_lt_upper_bound; lia).
      lia.
    + change 63%N with (N.ones 6). rewrite N.land_ones.
      change (2 ^ 6)%N with 64%N.
      pose proof (N.mod_upper_bound (N_of_ascii a) 64). lia.
Qed.

Lemma encode_utf8_bytes (s : string) :
  Forall (fun b => (b < 256)%N) (encode_utf8 s).
Proof.
  induction s as [|a s IH]; simpl; [constructor|].
  apply Forall_app. split; [apply utf8_of_ascii_bytes|exact IH].
Qed.

Lemma lxor_uint32 (a b : Z) : is_uint32 a -> is_uint32 b -> is_uint32 (Z.lxor a b).
Proof.
  unfold is_uint32. intros [Ha0 Ha] [Hb0 Hb].
  assert (H0 : (0 <= Z.lxor a b)%Z) by (apply Z.lxor_nonneg; tauto).
  split; [exact H0|].
  destruct (Z.eq_dec (Z.lxor a b) 0%Z) as [->|Hne]; [reflexivity|].
  apply Z.log2_lt_pow2; [lia|].
  pose proof (Z.log2_lxor a b Ha0 Hb0) as Hlog.
  assert (Z.log2 a < 32)%Z.
  { destruct (Z.eq_dec a 0%Z) as [->|]; [reflexivity|]. apply Z.log2_lt_pow2; lia. }
  assert (Z.log2 b < 32)%Z.
  { destruct (Z.eq_dec b 0%Z) as [->|]; [reflexivity|]. apply Z.log2_lt_pow2; lia. }
  lia.
Qed.

Lemma shiftr_uint32 (a : Z) : is_uint32 a -> is_uint32 (Z.shiftr a 1).
Proof.
  unfold is_uint32. intros [Ha0 Ha].
  rewrite Z.shiftr_div_pow2 by lia. change (2 ^ 1)%Z with 2%Z.
  split; [apply Z.div_pos; lia|].
  apply Z.div_lt_upper_bound; lia.
Qed.

Lemma crc32_shift_uint32 (crc : Z) : is_uint32 crc -> is_uint32 (crc32_shift crc).
Proof.
  intros H. unfold crc32_shift. destruct (Z.testbit crc 0).
  - apply lxor_uint32; [now apply shiftr_uint32|].
    unfold is_uint32, crc32_poly. lia.
  - now apply shiftr_uint32.
Qed.

Lemma crc32_update_uint32 (crc : Z) (b : N) :
  is_uint32 crc -> (b < 256)%N -> is_uint32 (crc32_update crc b).
Proof.
  intros Hc Hb. unfold crc32_update.
  assert (H : is_uint32 (Z.lxor crc (Z.of_N b))).
  { apply lxor_uint32; [exact Hc|]. unfold is_uint32. lia. }
  revert H. generalize (Z.lxor crc (Z.of_N b)). intros z Hz.
  simpl. do 8 apply crc32_shift_uint32. exact Hz.
Qed.

Lemma crc32_uint32 (data : list N) :
  Forall (fun b => (b < 256)%N) data -> is_uint32 (crc32 data).
Proof.
  intros Hdata. unfold crc32.
  apply lxor_uint32; [|unfold is_uint32, crc32_mask; lia].
  assert (H : is_uint32 crc32_mask) by (unfold is_uint32, crc32_mask; lia).
  revert H. generalize crc32_mask.
  induction Hdata as [|b data Hb _ IH]; intros crc Hcrc; simpl; [exact Hcrc|].
  apply IH. now apply crc32_update_uint32.
Qed.

Lemma map_sparse_tokens_fold (sparse : SparseDict) (acc : SparseValues) :
  foldl
    (fun acc item =>
       {| indices := indices acc ++ [crc32 (encode_utf8 (fst item))];
          values := values acc ++ [snd item] |})
    acc sparse
  = {| indices := indices acc ++ map (fun item => crc32 (encode_utf8 (fst item))) sparse;
       values := values acc ++ map snd sparse |}.
Proof.
  revert acc. induction sparse as [|item sparse IH]; intros acc; simpl.
  - rewrite !app_nil_r. now destruct acc.
  - rewrite IH. simpl. now rewrite <- !app_assoc.
Qed.

(** C9. The index of a term is the CRC-32 of its UTF-8 bytes: a function
    of the term alone, with a value in [[0, 2^32)]. The hasher walks the
    items of the map once and gives the i-th item's index and weight the
    i-th place of [indices] and of [values]. *)
Theorem sparse_token_hasher_spec (sparse : SparseDict) :
  indices (_map_sparse_tokens sparse)
    = map (fun item => crc32 (encode_utf8 (fst item))) sparse
  /\ values (_map_sparse_tokens sparse) = map snd sparse
  /\ (forall (i : nat) (term : string) (weight : Q),
         sparse !! i = Some (term, weight) ->
         indices (_map_sparse_tokens sparse) !! i = Some (crc32 (encode_utf8 term))
         /\ values (_map_sparse_tokens sparse) !! i = Some weight)
  /\ (forall term : string, (0 <= crc32 (encode_utf8 term) < 2 ^ 32)%Z)
  /\ Forall (fun index => (0 <= index < 2 ^ 32)%Z) (indices (_map_sparse_tokens sparse)).
Proof.
  assert (Hrange : forall term : string, (0 <= crc32 (encode_utf8 term) < 2 ^ 32)%Z).
  { intros term. apply crc32_uint32, encode_utf8_bytes. }
  unfold _map_sparse_tokens. rewrite map_sparse_tokens_fold. simpl.
  repeat split; try apply Hrange.
  - rewrite list_lookup_fmap, H. reflexivity.
  - rewrite list_lookup_fmap, H. reflexivity.
  - apply Forall_forall. intros index Hin. apply list_elem_of_In, in_map_iff in Hin as (item & <- & _).
    apply Hrange.
Qed.

(** ** The checkpoint map *)

Lemma entry_lookup_meta (status : string) (meta : option Entry) (k v : string) :
  StateTracker.meta_or_empty meta !! k = Some v ->
  StateTracker.entry status meta !! k = Some v.
Proof.
  intros H. unfold StateTracker.entry. now apply lookup_union_Some_l.
Qed.

Lemma entry_lookup_status (status : string) (meta : option Entry) :
  StateTracker.meta_or_empty meta !! "status" = None ->
  StateTracker.entry status meta !! "status" = Some status.
Proof.
  intros H. unfold StateTracker.entry.
  rewrite lookup_union_r by exact H. apply lookup_singleton_eq.
Qed.

Lemma entry_dom (status : string) (meta : option Entry) :
  dom (StateTracker.entry status meta)
  = dom (StateTracker.meta_or_empty meta) ∪ {[ "status" ]}.
Proof.
  unfold StateTracker.entry. now rewrite dom_union_L, dom_singleton_L.
Qed.

Lemma mark_state (digest status : string) (meta : option Entry) (s : StateTracker.t) :
  StateTracker.state (StateTracker.mark digest status meta s)
  = <[digest := StateTracker.entry status meta]> (StateTracker.state s).
Proof. reflexivity. Qed.

Lemma status_of_mark_eq (digest status : string) (meta : option Entry) (s : StateTracker.t) :
  StateTracker.meta_or_empty meta !! "status" = None ->
  StateTracker.status_of digest (StateTracker.mark digest status meta s) = Some status.
Proof.
  intros H. unfold StateTracker.status_of.
  rewrite mark_state, lookup_insert_eq. now apply entry_lookup_status.
Qed.

Lemma status_of_mark_ne (d digest status : string) (meta : option Entry) (s : StateTracker.t) :
  d <> digest ->
  StateTracker.status_of d (StateTracker.mark digest status meta s)
  = StateTracker.status_of d s.
Proof.
  intros H. unfold StateTracker.status_of.
  rewrite mark_state, lookup_insert_ne by congruence. reflexivity.
Qed.

(** C10, as the code has it. [mark] leaves every other digest alone and
    replaces the record of [digest] by a new one, which it also writes
    to the file. The keys of the new record are ["status"] and the keys
    of [meta]; it maps each key of [meta] to the value [meta] gives it,
    and ["status"] to [status] when [meta] has no ["status"] key of its
    own. Nothing of the record that was there before is kept. *)
Theorem mark_replaces_one_entry (digest status : string) (meta : option Entry)
    (s : StateTracker.t) :
  (forall d, d <> digest ->
     StateTracker.state (StateTracker.mark digest status meta s) !! d
     = StateTracker.state s !! d)
  /\ StateTracker.state (StateTracker.mark digest status meta s) !! digest
     = Some (StateTracker.entry status meta)
  /\ dom (StateTracker.entry status meta)
     = dom (StateTracker.meta_or_empty meta) ∪ {[ "status" ]}
  /\ (forall k v, StateTracker.meta_or_empty meta !! k = Some v ->
        StateTracker.entry status meta !! k = Some v)
  /\ (StateTracker.meta_or_empty meta !! "status" = None ->
        StateTracker.entry status meta !! "status" = Some status)
  /\ StateTracker.file (StateTracker.mark digest status meta s)
     = Some (StateTracker.state (StateTracker.mark digest status meta s)).
Proof.
  repeat split.
  - intros d Hd. rewrite mark_state. apply lookup_insert_ne. congruence.
  - rewrite mark_state. apply lookup_insert_eq.
  - apply entry_dom.
  - apply entry_lookup_meta.
  - apply entry_lookup_status.
Qed.

(** C10 as stated fails when [meta] has a ["status"] key: the record then
    holds the status of [meta], not the one passed to [mark]. *)
Lemma mark_status_overridden_by_meta :
  StateTracker.status_of "d1"
    (StateTracker.mark "d1" "completed" (Some {[ "status" := "failed" ]})
       (StateTracker.load None))
  <> Some "completed".
Proof.
  unfold StateTracker.status_of. rewrite mark_state, lookup_insert_eq.
  unfold StateTracker.entry, StateTracker.meta_or_empty.
  erewrite lookup_union_Some_l by apply lookup_singleton_eq.
  discriminate.
Qed.

(** ** The upsert batcher *)

Lemma range_up_length (fuel : nat) (start stop step : Z) :
  (0 < step)%Z -> (stop - start <= Z.of_nat fuel)%Z ->
  length (range_up fuel start stop step)
  = Z.to_nat ((stop - start + step - 1) / step).
Proof.
  intros Hstep. revert start.
  induction fuel as [|fuel IH]; intros start Hfuel; simpl.
  - assert ((stop - start + step - 1) / step <= 0)%Z; [|lia].
    apply Z.lt_succ_r, Z.div_lt_upper_bound; lia.
  - destruct (Z.ltb_spec start stop) as [Hlt|Hge].
    + simpl. rewrite IH by lia.
      replace (stop - start + step - 1)%Z with (stop - (start + step) + step - 1 + 1 * step)%Z by lia.
      rewrite Z.div_add by lia.
      assert (0 <= (stop - (start + step) + step - 1) / step)%Z by (apply Z.div_pos; lia).
      lia.
    + assert ((stop - start + step - 1) / step <= 0)%Z; [|simpl; lia].
      apply Z.lt_succ_r, Z.div_lt_upper_bound; lia.
Qed.

Lemma range_up_slices {A} (l : list A) (fuel : nat) (start step : Z) :
  (0 < step)%Z -> (0 <= start)%Z ->
  (Z.of_nat (length l) - start <= Z.of_nat fuel)%Z ->
  concat (map (fun s => slice l s (s + step))
            (range_up fuel start (Z.of_nat (length l)) step))
  = drop (Z.to_nat start) l.
Proof.
  intros Hstep. revert start.
  induction fuel as [|fuel IH]; intros start Hstart Hfuel; simpl.
  - symmetry. apply drop_ge. lia.
  - destruct (Z.ltb_spec start (Z.of_nat (length l))) as [Hlt|Hge].
    + simpl. rewrite IH by lia. unfold slice.
      replace (Z.to_nat (start + step) - Z.to_nat start)%nat with (Z.to_nat step) by lia.
      replace (Z.to_nat (start + step)) with (Z.to_nat start + Z.to_nat step)%nat by lia.
      rewrite <- drop_drop. apply take_drop.
    + symmetry. apply drop_ge. lia.
Qed.

Lemma range_up_slices_bounds {A} (l : list A) (fuel : nat) (start step : Z) :
  (0 < step)%Z -> (0 <= start)%Z ->
  Forall (fun b => (0 < length b)%nat /\ (Z.of_nat (length b) <= step)%Z)
    (map (fun s => slice l s (s + step))
       (range_up fuel start (Z.of_nat (length l)) step)).
Proof.
  intros Hstep. revert start.
  induction fuel as [|fuel IH]; intros start Hstart; simpl; [constructor|].
  destruct (Z.ltb_spec start (Z.of_nat (length l))) as [Hlt|Hge]; [|constructor].
  simpl. constructor; [|apply IH; lia].
  unfold slice. rewrite length_take, length_drop. lia.
Qed.

(** With a positive batch size the batches are there and make up the list. *)
Lemma batches_concat config (to_upsert : list VectorRecord) :
  (0 < batch_size config)%Z ->
  exists bs, batches config to_upsert = Ok bs /\ concat bs = to_upsert.
Proof.
  intros HB. unfold batches, range_from_zero.
  destruct (Z.eqb_spec (batch_size config) 0) as [|_]; [lia|].
  destruct (Z.ltb_spec (batch_size config) 0) as [|_]; [lia|].
  eexists. split; [reflexivity|].
  rewrite range_up_slices by lia. reflexivity.
Qed.

(** The calls one run of the upsert loop adds to the trace. *)
Lemma for_each_upsert_trace env ns (bs : list (list VectorRecord)) (w w' : World) r :
  for_each bs (fun batch => pinecone_upsert env batch ns) w = (r, w') ->
  exists n : nat,
    trace w' = trace w ++ map (CallPineconeUpsert ns) (take n bs)
    /\ (r = Ok tt -> n = length bs).
Proof.
  revert w. induction bs as [|b bs IH]; intros w; simpl.
  - intros [= <- <-]. exists 0%nat. simpl. now rewrite app_nil_r.
  - unfold bind at 1. unfold pinecone_upsert at 1.
    destruct (pinecone_accepts env (length (trace w)) ns b).
    + intros H. apply IH in H as (n & Htr & Hok).
      exists (S n). split.
      * rewrite Htr. simpl. now rewrite <- app_assoc.
      * intros H. simpl. f_equal. now apply Hok.
    + intros [= <- <-]. exists 1%nat. simpl. split; [reflexivity|discriminate].
Qed.

(** One run of the upsert loop, call by call: the batches go out in
    order, the [i]-th at the moment [i] calls after the start, up to the
    first one the index refuses. *)
Lemma for_each_upsert_calls env ns (bs : list (list VectorRecord)) :
  forall w : World,
  exists n : nat,
    (n <= length bs)%nat
    /\ trace (snd (for_each bs (fun batch => pinecone_upsert env batch ns) w))
       = trace w ++ map (CallPineconeUpsert ns) (take n bs)
    /\ match fst (for_each bs (fun batch => pinecone_upsert env batch ns) w) with
       | Ok _ =>
           n = length bs
           /\ forall (i : nat) b,
                bs !! i = Some b ->
                pinecone_accepts env (length (trace w) + i) ns b = true
       | Raise e =>
           e = PineconeError
           /\ (0 < n)%nat
           /\ (forall (i : nat) b,
                 (i < n - 1)%nat -> bs !! i = Some b ->
                 pinecone_accepts env (length (trace w) + i) ns b = true)
           /\ exists b,
                bs !! (n - 1)%nat = Some b
                /\ pinecone_accepts env (length (trace w) + (n - 1)) ns b = false
       end.
Proof.
  induction bs as [|b bs IH]; intros w.
  - exists 0%nat. simpl. rewrite app_nil_r. repeat split; try lia.
    intros i b Hi. now rewrite lookup_nil in Hi.
  - cbn [for_each]. unfold bind at 1 2. unfold pinecone_upsert at 1 3.
    destruct (pinecone_accepts env (length (trace w)) ns b) eqn:Hb.
    + specialize (IH (set_pinecone (store_records ns (pinecone w) b)
                        (log_call (CallPineconeUpsert ns b) w))).
      destruct IH as (n & Hn & Htr & Hres).
      assert (Hlen : forall i : nat,
                (length (trace (set_pinecone (store_records ns (pinecone w) b)
                                  (log_call (CallPineconeUpsert ns b) w))) + i)%nat
                = (length (trace w) + S i)%nat).
      { intros i. simpl. rewrite length_app. simpl. lia. }
      exists (S n). split; [simpl; lia|]. split.
      { rewrite Htr. simpl. now rewrite <- app_assoc. }
      destruct (fst (for_each bs _ _)) as [[]|e].
      * destruct Hres as [-> Hall]. split; [reflexivity|].
        intros [|i] b' Hi; simpl in Hi.
        -- injection Hi as <-. now rewrite Nat.add_0_r.
        -- rewrite <- Hlen. now apply Hall.
      * destruct Hres as (-> & Hpos & Hbefore & b' & Hlast & Hrefused).
        split; [reflexivity|]. split; [lia|]. split.
        -- intros [|i] b'' Hi Hb''; simpl in Hb''.
           ++ injection Hb'' as <-. now rewrite Nat.add_0_r.
           ++ rewrite <- Hlen. apply Hbefore; [lia|assumption].
        -- exists b'. destruct n as [|n]; [lia|]. simpl in *.
           rewrite Nat.sub_0_r in *. split; [assumption|].
           now rewrite <- Hlen.
    + exists 1%nat. simpl. split; [lia|]. split; [now destruct bs|].
      split; [reflexivity|]. split; [lia|]. split; [intros i b' Hi; lia|].
      exists b. split; [reflexivity|]. now rewrite Nat.add_0_r.
Qed.

(** C7. With a batch size [0 < B], the loop walks through
    [ceil(N / B)] batches, each of them a run of at least one and at
    most [B] consecutive records, which put end to end give the list
    back. It makes one upsert call per batch, in that order and under
    the namespace of the configuration, one call after the other: the
    calls it adds to the trace are the batches up to the first one the
    index does not take, and no other call. It returns when the index
    has taken every batch, and then every batch was sent; it raises the
    failure of the index when a batch is not taken, right after the
    call for that batch, the batches before it taken and the batches
    after it not sent. *)
Theorem upsert_batches_partition (env : Env) (config : IngestionConfig)
    (to_upsert : list VectorRecord) :
  (0 < batch_size config)%Z ->
  exists bs : list (list VectorRecord),
    batches config to_upsert = Ok bs
    /\ Z.of_nat (length bs)
       = ((Z.of_nat (length to_upsert) + batch_size config - 1) / batch_size config)%Z
    /\ concat bs = to_upsert
    /\ Forall (fun b => (0 < length b)%nat /\ (Z.of_nat (length b) <= batch_size config)%Z) bs
    /\ forall w : World,
         exists n : nat,
           (n <= length bs)%nat
           /\ trace (snd (upsert_batches env config to_upsert w))
              = trace w ++ map (CallPineconeUpsert (namespace config)) (take n bs)
           /\ match fst (upsert_batches env config to_upsert w) with
              | Ok _ =>
                  n = length bs
                  /\ forall (i : nat) b,
                       bs !! i = Some b ->
                       pinecone_accepts env (length (trace w) + i) (namespace config) b
                       = true
              | Raise e =>
                  e = PineconeError
                  /\ (0 < n)%nat
                  /\ (forall (i : nat) b,
                        (i < n - 1)%nat -> bs !! i = Some b ->
                        pinecone_accepts env (length (trace w) + i) (namespace config) b
                        = true)
                  /\ exists b,
                       bs !! (n - 1)%nat = Some b
                       /\ pinecone_accepts env (length (trace w) + (n - 1))
                            (namespace config) b = false
              end.
Proof.
  intros HB.
  unfold upsert_batches, batches, range_from_zero.
  destruct (Z.eqb_spec (batch_size config) 0) as [|_]; [lia|].
  destruct (Z.ltb_spec (batch_size config) 0) as [|_]; [lia|].
  eexists. split; [reflexivity|].
  split; [|split; [|split]].
  - rewrite length_map, range_up_length by lia.
    rewrite Z.sub_0_r. apply Z2Nat.id.
    apply Z.div_pos; lia.
  - rewrite range_up_slices by lia. reflexivity.
  - apply range_up_slices_bounds; lia.
  - intros w. unfold bind, lift. apply for_each_upsert_calls.
Qed.

(** The theorem at five records and a batch size of two: with an index
    that takes every batch, three calls and no exception; with an index
    that is down from the second call on, two calls and its failure. *)
Lemma upsert_batches_partition_witness :
  exists bs : list (list VectorRecord),
    batches Examples.small_config Examples.five_records = Ok bs
    /\ length bs = 3%nat
    /\ concat bs = Examples.five_records
    /\ upsert_batches (Examples.example_env []) Examples.small_config
         Examples.five_records Examples.fresh_world
       = (Ok tt,
          snd (upsert_batches (Examples.example_env []) Examples.small_config
                 Examples.five_records Examples.fresh_world))
    /\ trace (snd (upsert_batches (Examples.example_env []) Examples.small_config
                     Examples.five_records Examples.fresh_world))
       = map (CallPineconeUpsert "appliance_manuals") bs
    /\ fst (upsert_batches (Examples.env_with_index (fun t => (t <? 1)%nat) [])
              Examples.small_config Examples.five_records Examples.fresh_world)
       = Raise PineconeError
    /\ trace (snd (upsert_batches (Examples.env_with_index (fun t => (t <? 1)%nat) [])
                     Examples.small_config Examples.five_records Examples.fresh_world))
       = map (CallPineconeUpsert "appliance_manuals") (take 2 bs).
Proof.
  destruct (upsert_batches_partition (Examples.example_env []) Examples.small_config
              Examples.five_records eq_refl)
    as (bs & Hbs & Hlen & Hcat & _ & Hcalls).
  destruct (upsert_batches_partition
              (Examples.env_with_index (fun t => (t <? 1)%nat) [])
              Examples.small_config Examples.five_records eq_refl)
    as (bs' & Hbs' & _ & _ & _ & Hcalls').
  assert (Hsame : bs' = bs) by congruence. subst bs'.
  assert (Hthree : length bs = 3%nat).
  { apply Nat2Z.inj. rewrite Hlen. reflexivity. }
  destruct (Hcalls Examples.fresh_world) as (n & Hn & Htr & Hres).
  destruct (Hcalls' Examples.fresh_world) as (n' & Hn' & Htr' & Hres').
  assert (Hok : fst (upsert_batches (Examples.example_env []) Examples.small_config
                       Examples.five_records Examples.fresh_world) = Ok tt)
    by (vm_compute; reflexivity).
  assert (Hraise : fst (upsert_batches
                          (Examples.env_with_index (fun t => (t <? 1)%nat) [])
                          Examples.small_config Examples.five_records
                          Examples.fresh_world) = Raise PineconeError)
    by (vm_compute; reflexivity).
  rewrite Hok in Hres. rewrite Hraise in Hres'.
  destruct Hres as [-> _].
  destruct Hres' as (_ & Hpos & Hbefore & b & Hb & Hrefused).
  assert (Htwo : n' = 2%nat).
  { simpl in Hrefused.
    destruct n' as [|[|[|n']]]; [lia|discriminate|reflexivity|].
    destruct (bs !! 1%nat) as [b1|] eqn:Hb1.
    - specialize (Hbefore 1%nat b1 ltac:(lia) Hb1). discriminate.
    - apply lookup_ge_None in Hb1. lia. }
  subst n'.
  exists bs. split; [exact Hbs|]. split; [exact Hthree|]. split; [exact Hcat|].
  split; [rewrite (surjective_pairing (upsert_batches _ _ _ _)); now rewrite Hok|].
  split; [rewrite Htr; now rewrite firstn_all|].
  split; [exact Hraise|exact Htr'].
Defined.

(** ** The records of a document *)

Lemma build_records_lookup doc_id labels idx items (i : nat) r :
  build_records doc_id labels idx items !! i = Some r ->
  chunk_record_of doc_id (idx + i) r
  /\ exists dense sparse chunk,
       items !! i = Some (dense, sparse, chunk)
       /\ vec_values r = dense
       /\ vec_sparse_values r = _map_sparse_tokens sparse
       /\ text (vec_metadata r) = str_prefix 2000 chunk.
Proof.
  revert idx i. induction items as [|[[dense sparse] chunk] items IH]; intros idx i; simpl.
  - intros H. discriminate.
  - destruct i as [|i]; simpl.
    + intros [= <-]. rewrite Nat.add_0_r. split; [now repeat split|].
      exists dense, sparse, chunk. now repeat split.
    + intros H. apply IH in H. now rewrite Nat.add_succ_r.
Qed.

Lemma build_records_chunks doc_id labels idx items :
  Forall (fun r => exists i, chunk_record_of doc_id i r)
    (build_records doc_id labels idx items).
Proof.
  apply Forall_lookup. intros i r H.
  apply build_records_lookup in H as [H _]. eauto.
Qed.


(** ** Framing: what a computation leaves alone *)

Section FrameRules.
Context {R : World -> World -> Prop} {P : Event -> Prop}.
Context {HF : Frame R P} {HS : StoreFrame R}.

Lemma respects_ret {A} (a : A) : respects R (ret a).
Proof. intros w. apply frame_refl. Qed.

Lemma respects_raise {A} (e : Exn) : respects R (@raise A e).
Proof. intros w. apply frame_refl. Qed.

Lemma respects_lift {A} (r : Result A) : respects R (lift r).
Proof. intros w. apply frame_refl. Qed.

Lemma respects_bind {A B} (m : M A) (k : A -> M B) :
  respects R m -> (forall a, respects R (k a)) -> respects R (bind m k).
Proof.
  intros Hm Hk w. unfold bind. specialize (Hm w).
  destruct (m w) as [[a|e] w1]; simpl in *; [|exact Hm].
  eapply frame_trans; [exact Hm|apply Hk].
Qed.

Lemma respects_for_each {A} (xs : list A) (body : A -> M unit) :
  (forall x, In x xs -> respects R (body x)) -> respects R (for_each xs body).
Proof.
  induction xs as [|x xs IH]; intros H; simpl; [apply respects_ret|].
  apply respects_bind; [apply H; now left|].
  intros _. apply IH. intros y Hy. apply H. now right.
Qed.

Lemma respects_call {A} (e : Event) (r : Result A) : P e -> respects R (call e r).
Proof. intros He w. apply frame_log, He. Qed.

Variable env : Env.
Variable config : IngestionConfig.

Lemma respects_analyze_images pdf_path doc_id page_number img_index imgs image_metadata :
  (forall img, P (CallAnalyze img)) ->
  respects R
    (analyze_images env config pdf_path doc_id page_number img_index imgs image_metadata).
Proof.
  intros HP. revert img_index image_metadata.
  induction imgs as [|xref imgs IH]; intros img_index image_metadata; simpl.
  - apply respects_ret.
  - destruct (_export_image env config pdf_path xref doc_id page_number img_index);
      [|apply IH].
    destruct (vision_analyzer env); [|apply IH].
    apply respects_bind; [apply respects_call, HP|]. intros description. apply IH.
Qed.

Lemma respects_read_pages pdf_path doc_id page_number pages text_pages image_metadata :
  (forall img, P (CallAnalyze img)) ->
  respects R
    (read_pages env config pdf_path doc_id page_number pages text_pages image_metadata).
Proof.
  intros HP. revert page_number text_pages image_metadata.
  induction pages as [|page pages IH]; intros page_number text_pages image_metadata; simpl.
  - apply respects_ret.
  - apply respects_bind; [apply respects_lift|]. intros page_text.
    apply respects_bind; [apply respects_lift|]. intros imgs.
    apply respects_bind; [now apply respects_analyze_images|]. intros image_metadata'.
    apply IH.
Qed.

Lemma respects_fit texts :
  P (CallSparseFit texts) -> respects R (SparseEmbedder_fit env texts).
Proof.
  intros HP. unfold SparseEmbedder_fit.
  apply respects_bind; [now apply respects_call|].
  intros _ w. apply frame_vectorizer.
Qed.

Lemma respects_sparse_embed texts :
  P (CallSparseEmbed texts) -> respects R (SparseEmbedder_embed env texts).
Proof.
  intros HP w. unfold SparseEmbedder_embed.
  destruct (vectorizer w); now apply respects_call.
Qed.

Lemma respects_dense_embed texts :
  P (CallDenseEmbed texts) -> respects R (DenseEmbedder_embed env texts).
Proof. intros HP. now apply respects_call. Qed.

Lemma respects_db_clients_pinecone : respects R (db_clients_pinecone env).
Proof.
  unfold db_clients_pinecone.
  destruct (String.eqb _ _); [apply respects_raise|apply respects_ret].
Qed.

Lemma respects_db_clients_supabase : respects R (db_clients_supabase env).
Proof.
  unfold db_clients_supabase.
  destruct (_ || _); [apply respects_raise|apply respects_ret].
Qed.

Lemma respects_pinecone_upsert vectors ns :
  P (CallPineconeUpsert ns vectors) -> respects R (pinecone_upsert env vectors ns).
Proof.
  intros HP w. unfold pinecone_upsert.
  destruct (pinecone_accepts env _ _ _); cbn [snd]; [|now apply frame_log].
  eapply frame_trans; [|apply frame_pinecone]. apply frame_log, HP.
Qed.

Lemma respects_documents_upsert row :
  P (CallDocumentsUpsert row) -> respects R (documents_upsert env row).
Proof.
  intros HP w. unfold documents_upsert.
  destruct (supabase_accepts env _ _); cbn [snd]; [|now apply frame_log].
  eapply frame_trans; [|apply frame_documents]. apply frame_log, HP.
Qed.

Lemma respects_upsert_batches to_upsert :
  (forall bs batch, batches config to_upsert = Ok bs -> In batch bs ->
     P (CallPineconeUpsert (namespace config) batch)) ->
  respects R (upsert_batches env config to_upsert).
Proof.
  intros HP w. unfold upsert_batches, bind, lift.
  destruct (batches config to_upsert) as [bs|e] eqn:Hbs; [|apply frame_refl].
  apply respects_for_each. intros batch Hin.
  apply respects_pinecone_upsert. now apply (HP bs).
Qed.

Lemma respects_process_pdf pdf_path :
  (forall e, is_local_call e -> P e) ->
  (forall row, P (CallDocumentsUpsert row)) ->
  (forall to_upsert bs batch,
      Forall (fun r => exists i, chunk_record_of (path_stem pdf_path) i r) to_upsert ->
      batches config to_upsert = Ok bs -> In batch bs ->
      P (CallPineconeUpsert (namespace config) batch)) ->
  respects R (_process_pdf env config pdf_path).
Proof.
  intros Hlocal Hrow Hup. unfold _process_pdf.
  apply respects_bind; [now apply respects_call, Hlocal|]. intros pages.
  apply respects_bind; [apply respects_read_pages; intros; now apply Hlocal|].
  intros read.
  destruct (chunk_iterable env (fst read)) as [|chunk chunks]; [apply respects_ret|].
  apply respects_bind; [now apply respects_fit, Hlocal|]. intros _.
  apply respects_bind; [now apply respects_dense_embed, Hlocal|]. intros dense_vectors.
  apply respects_bind; [now apply respects_sparse_embed, Hlocal|]. intros sparse_vectors.
  apply respects_bind; [apply respects_db_clients_pinecone|]. intros _.
  apply respects_bind.
  { apply respects_upsert_batches. intros bs batch. apply Hup.
    apply build_records_chunks. }
  intros _.
  apply respects_bind; [apply respects_db_clients_supabase|]. intros _.
  apply respects_documents_upsert, Hrow.
Qed.
End FrameRules.

Lemma extends_trace_same P w w' : trace w' = trace w -> extends_trace P w w'.
Proof. intros H. exists []. now rewrite app_nil_r. Qed.

Lemma extends_trace_refl P w : extends_trace P w w.
Proof. now apply extends_trace_same. Qed.

Lemma extends_trace_trans P w1 w2 w3 :
  extends_trace P w1 w2 -> extends_trace P w2 w3 -> extends_trace P w1 w3.
Proof.
  intros (c1 & H1 & F1) (c2 & H2 & F2). exists (c1 ++ c2). split.
  - now rewrite H2, H1, app_assoc.
  - apply Forall_app. now split.
Qed.

Lemma extends_trace_log (P : Event -> Prop) e w : P e -> extends_trace P w (log_call e w).
Proof. intros He. exists [e]. split; [reflexivity|]. now repeat constructor. Qed.

Lemma extends_trace_impl (P Q : Event -> Prop) w w' :
  (forall e, P e -> Q e) -> extends_trace P w w' -> extends_trace Q w w'.
Proof.
  intros HPQ (calls & H & F). exists calls. split; [exact H|].
  eapply Forall_impl; eassumption.
Qed.

Lemma quiet_refl P w : quiet P w w.
Proof. repeat split. apply extends_trace_refl. Qed.

Lemma quiet_trans P w1 w2 w3 : quiet P w1 w2 -> quiet P w2 w3 -> quiet P w1 w3.
Proof.
  intros (T1 & I1 & D1 & E1) (T2 & I2 & D2 & E2).
  repeat split; try congruence. eapply extends_trace_trans; eassumption.
Qed.

Lemma quiet_impl (P Q : Event -> Prop) w w' :
  (forall e, P e -> Q e) -> quiet P w w' -> quiet Q w w'.
Proof.
  intros HPQ (T & I & D & E). repeat split; try assumption.
  eapply extends_trace_impl; eassumption.
Qed.

#[local] Instance same_tracker_frame : Frame same_tracker (fun _ => True).
Proof. split; unfold same_tracker; intros; simpl; congruence. Qed.

#[local] Instance same_tracker_store_frame : StoreFrame same_tracker.
Proof. split; reflexivity. Qed.

#[local] Instance extends_trace_frame P : Frame (extends_trace P) P.
Proof.
  split.
  - apply extends_trace_refl.
  - apply extends_trace_trans.
  - intros e w. apply extends_trace_log.
  - intros v w. now apply extends_trace_same.
Qed.

#[local] Instance extends_trace_store_frame P : StoreFrame (extends_trace P).
Proof. split; intros; now apply extends_trace_same. Qed.

#[local] Instance quiet_frame P : Frame (quiet P) P.
Proof.
  split.
  - apply quiet_refl.
  - apply quiet_trans.
  - intros e w He. repeat split. now apply extends_trace_log.
  - intros v w. repeat split. now apply extends_trace_same.
Qed.

(** Processing a document never touches the checkpoint map. *)
Lemma process_pdf_same_tracker env config pdf_path :
  respects same_tracker (_process_pdf env config pdf_path).
Proof. apply (respects_process_pdf (P := fun _ => True)); auto. Qed.




(** ** Running the monad *)

Lemma bind_ok {A B} (m : M A) (k : A -> M B) w b w' :
  bind m k w = (Ok b, w') ->
  exists a w1, m w = (Ok a, w1) /\ k a w1 = (Ok b, w').
Proof.
  unfold bind. destruct (m w) as [[a|e] w1]; [eauto|discriminate].
Qed.

Lemma respects_run R {A} (m : M A) w r w' :
  respects R m -> m w = (r, w') -> R w w'.
Proof. intros H Hrun. specialize (H w). now rewrite Hrun in H. Qed.

Lemma for_each_app {A} (xs ys : list A) (body : A -> M unit) w :
  for_each (xs ++ ys) body w =
  match for_each xs body w with
  | (Ok _, w1) => for_each ys body w1
  | (Raise e, w1) => (Raise e, w1)
  end.
Proof.
  revert w. induction xs as [|x xs IH]; intros w; simpl; [reflexivity|].
  unfold bind. destruct (body x w) as [[[]|e] w1]; [apply IH|reflexivity].
Qed.

(** ** What processing one document writes *)

Lemma store_records_app ns index (b1 b2 : list VectorRecord) :
  store_records ns index (b1 ++ b2) = store_records ns (store_records ns index b1) b2.
Proof. unfold store_records. apply foldl_app. Qed.

Lemma for_each_upsert_ok env ns (bs : list (list VectorRecord)) w w' :
  for_each bs (fun batch => pinecone_upsert env batch ns) w = (Ok tt, w') ->
  tracker w' = tracker w
  /\ pinecone w' = store_records ns (pinecone w) (concat bs)
  /\ documents w' = documents w
  /\ trace w' = trace w ++ map (CallPineconeUpsert ns) bs.
Proof.
  revert w. induction bs as [|b bs IH]; intros w; simpl.
  - intros [= <-]. now rewrite app_nil_r.
  - intros H. apply bind_ok in H as ([] & w1 & H1 & H).
    unfold pinecone_upsert in H1.
    destruct (pinecone_accepts env _ _ _); [|discriminate].
    injection H1 as <-. apply IH in H as (T & I & D & E).
    rewrite T, I, D, E, store_records_app. simpl.
    now rewrite <- app_assoc.
Qed.

(** A run of [_process_pdf] that ends without an exception either found
    no chunk and wrote nothing, or sent every batch and wrote the row. *)
Lemma process_pdf_ok env config pdf_path w w' :
  _process_pdf env config pdf_path w = (Ok tt, w') ->
  quiet is_parse_call w w'
  \/ exists to_upsert bs row calls,
       Forall (fun r => exists i, chunk_record_of (path_stem pdf_path) i r) to_upsert
       /\ batches config to_upsert = Ok bs
       /\ ((0 < batch_size config)%Z -> concat bs = to_upsert)
       /\ tracker w' = tracker w
       /\ pinecone w' = store_records (namespace config) (pinecone w) (concat bs)
       /\ documents w' = documents w ++ [row]
       /\ row_document_id row = path_stem pdf_path
       /\ row_filename row = path_name pdf_path
       /\ Forall is_local_call calls
       /\ trace w' = trace w ++ calls
                       ++ map (CallPineconeUpsert (namespace config)) bs
                       ++ [CallDocumentsUpsert row].
Proof.
  unfold _process_pdf. intros H.
  apply bind_ok in H as (pages & w1 & Hopen & H).
  apply bind_ok in H as (read & w2 & Hread & H).
  assert (Hparse : quiet is_parse_call w w2).
  { eapply quiet_trans.
    - eapply (respects_run (quiet is_parse_call)); [|exact Hopen].
      now apply respects_call.
    - eapply (respects_run (quiet is_parse_call)); [|exact Hread].
      now apply respects_read_pages. }
  destruct (chunk_iterable env (fst read)) as [|chunk chunks].
  { injection H as <-. now left. }
  right.
  apply bind_ok in H as ([] & w3 & Hfit & H).
  apply bind_ok in H as (dense_vectors & w4 & Hdense & H).
  apply bind_ok in H as (sparse_vectors & w5 & Hsparse & H).
  apply bind_ok in H as ([] & w6 & Hpc & H).
  apply bind_ok in H as ([] & w7 & Hup & H).
  apply bind_ok in H as ([] & w8 & Hsb & H).
  assert (Hlocal : quiet is_local_call w w6).
  { eapply quiet_trans; [eapply quiet_impl; [|exact Hparse]; now intros []|].
    eapply quiet_trans.
    { eapply (respects_run (quiet is_local_call)); [|exact Hfit].
      now apply respects_fit. }
    eapply quiet_trans.
    { eapply (respects_run (quiet is_local_call)); [|exact Hdense].
      now apply respects_dense_embed. }
    eapply quiet_trans.
    { eapply (respects_run (quiet is_local_call)); [|exact Hsparse].
      now apply respects_sparse_embed. }
    eapply (respects_run (quiet is_local_call)); [|exact Hpc].
    apply respects_db_clients_pinecone. }
  destruct Hlocal as (T6 & I6 & D6 & calls & E6 & Fcalls).
  unfold upsert_batches in Hup.
  apply bind_ok in Hup as (bs & w6' & Hbs & Hup).
  unfold lift in Hbs. injection Hbs as Hbs <-.
  apply for_each_upsert_ok in Hup as (T7 & I7 & D7 & E7).
  assert (w8 = w7) as ->.
  { unfold db_clients_supabase in Hsb.
    destruct (_ || _); [discriminate|]. now injection Hsb. }
  unfold documents_upsert in H.
  destruct (supabase_accepts env _ _); [|discriminate].
  injection H as <-.
  match type of Hbs with batches _ ?l = _ => exists l, bs end.
  eexists _, calls.
  split; [apply build_records_chunks|].
  split; [exact Hbs|].
  split.
  { intros HB.
    match type of Hbs with
    | batches _ ?l = _ => destruct (batches_concat config l HB) as (bs' & Hbs' & Hcat)
    end.
    rewrite Hbs in Hbs'. now injection Hbs' as ->. }
  simpl. rewrite T7, T6, I7, I6, D7, D6, E7, E6.
  repeat split; try reflexivity; try assumption.
  now rewrite <- !app_assoc.
Qed.

(** ** One turn of the loop of [ingest] *)

Lemma ingest_one_skips env config pdf_path w :
  StateTracker.status_of (_digest env pdf_path) (tracker w) = Some "completed" ->
  ingest_one env config pdf_path w = (Ok tt, w).
Proof.
  intros H. unfold ingest_one. now rewrite bool_decide_eq_true_2.
Qed.

Lemma ingest_one_processes env config pdf_path w :
  StateTracker.status_of (_digest env pdf_path) (tracker w) <> Some "completed" ->
  ingest_one env config pdf_path w =
  match
    _process_pdf env config pdf_path
      (set_tracker
         (StateTracker.mark (_digest env pdf_path) "processing" (filename_meta pdf_path)) w)
  with
  | (Ok _, w1) =>
      (Ok tt,
       set_tracker
         (StateTracker.mark (_digest env pdf_path) "completed" (filename_meta pdf_path)) w1)
  | (Raise e, w1) => (Raise e, w1)
  end.
Proof.
  intros H. unfold ingest_one. rewrite bool_decide_eq_false_2 by exact H.
  unfold bind, mark. simpl.
  destruct (_process_pdf _ _ _ _) as [[[]|e] w1]; reflexivity.
Qed.

Lemma filename_meta_no_status pdf_path :
  StateTracker.meta_or_empty (filename_meta pdf_path) !! "status" = None.
Proof. unfold filename_meta. simpl. now apply lookup_singleton_ne. Qed.

Lemma status_of_set_tracker_mark digest status pdf_path w :
  StateTracker.status_of digest
    (tracker (set_tracker (StateTracker.mark digest status (filename_meta pdf_path)) w))
  = Some status.
Proof. simpl. apply status_of_mark_eq, filename_meta_no_status. Qed.




(** ** A whole run *)

Lemma ingest_one_raises env config pdf_path w e w' :
  ingest_one env config pdf_path w = (Raise e, w') ->
  StateTracker.status_of (_digest env pdf_path) (tracker w) <> Some "completed"
  /\ _process_pdf env config pdf_path
       (set_tracker
          (StateTracker.mark (_digest env pdf_path) "processing" (filename_meta pdf_path)) w)
     = (Raise e, w')
  /\ StateTracker.status_of (_digest env pdf_path) (tracker w') = Some "processing".
Proof.
  intros Hrun.
  assert (Hnot : StateTracker.status_of (_digest env pdf_path) (tracker w)
                 <> Some "completed").
  { intros Hdone. rewrite (ingest_one_skips _ _ _ _ Hdone) in Hrun. discriminate. }
  split; [exact Hnot|].
  rewrite (ingest_one_processes _ _ _ _ Hnot) in Hrun.
  destruct (_process_pdf _ _ _ _) as [[[]|e1] w1] eqn:Hproc; [discriminate|].
  injection Hrun as -> ->. split; [reflexivity|].
  pose proof (respects_run same_tracker _ _ _ _
                (process_pdf_same_tracker env config pdf_path) Hproc) as Hsame.
  unfold same_tracker in Hsame. rewrite Hsame.
  apply status_of_set_tracker_mark.
Qed.

(** C1, as the code has it. [ingest] has no handler: when the processing
    of a document raises, after the documents before it went through,
    the run ends there with that exception. The world it leaves is the
    one the exception left: the document's status is [processing],
    neither [completed] nor [failed], and no document after it in the
    enumeration has been looked at. *)
Theorem ingest_stops_at_first_exception (env : Env) (config : IngestionConfig)
    (before after : list Path) (pdf_path : Path) (e : Exn) (w w1 w2 : World) :
  _iter_pdfs env = before ++ pdf_path :: after ->
  for_each before (ingest_one env config) w = (Ok tt, w1) ->
  ingest_one env config pdf_path w1 = (Raise e, w2) ->
  ingest env config w = (Raise e, w2)
  /\ StateTracker.status_of (_digest env pdf_path) (tracker w2) = Some "processing"
  /\ _process_pdf env config pdf_path
       (set_tracker
          (StateTracker.mark (_digest env pdf_path) "processing" (filename_meta pdf_path))
          w1)
     = (Raise e, w2).
Proof.
  intros Hlist Hbefore Hraise.
  apply ingest_one_raises in Hraise as Hfacts. destruct Hfacts as (_ & Hproc & Hst).
  split; [|split; assumption].
  unfold ingest. rewrite Hlist, for_each_app, Hbefore. simpl.
  unfold bind. now rewrite Hraise.
Qed.

(** The theorem at a directory whose second document cannot be opened. *)
Lemma ingest_stops_at_first_exception_witness :
  ingest (Examples.example_env [Examples.good_pdf; Examples.broken_pdf; Examples.copy_pdf])
    Examples.example_config Examples.fresh_world
  = (Raise FileDataError,
     snd (ingest_one
            (Examples.example_env [Examples.good_pdf; Examples.broken_pdf; Examples.copy_pdf])
            Examples.example_config Examples.broken_pdf
            (snd (for_each [Examples.copy_pdf]
                    (ingest_one
                       (Examples.example_env
                          [Examples.good_pdf; Examples.broken_pdf; Examples.copy_pdf])
                       Examples.example_config)
                    Examples.fresh_world)))).
Proof.
  refine (proj1 (ingest_stops_at_first_exception
                   (Examples.example_env
                      [Examples.good_pdf; Examples.broken_pdf; Examples.copy_pdf])
                   Examples.example_config
                   [Examples.copy_pdf] [Examples.good_pdf] Examples.broken_pdf
                   FileDataError Examples.fresh_world
                   (snd (for_each [Examples.copy_pdf]
                           (ingest_one
                              (Examples.example_env
                                 [Examples.good_pdf; Examples.broken_pdf; Examples.copy_pdf])
                              Examples.example_config)
                           Examples.fresh_world))
                   _ _ _ _)).
  - vm_compute. reflexivity.
  - vm_compute. reflexivity.
  - vm_compute. reflexivity.
Defined.

(** C1 as stated fails: the broken document is left [processing], not
    marked [failed], and the run ends without a look at the next one. *)
Lemma ingest_aborts_on_broken_pdf :
  fst (ingest (Examples.example_env [Examples.good_pdf; Examples.broken_pdf])
         Examples.example_config Examples.fresh_world)
  = Raise FileDataError
  /\ StateTracker.status_of
       (_digest (Examples.example_env []) Examples.broken_pdf)
       (tracker
          (snd (ingest (Examples.example_env [Examples.good_pdf; Examples.broken_pdf])
                  Examples.example_config Examples.fresh_world)))
     <> Some "failed"
  /\ StateTracker.status_of
       (_digest (Examples.example_env []) Examples.good_pdf)
       (tracker
          (snd (ingest (Examples.example_env [Examples.good_pdf; Examples.broken_pdf])
                  Examples.example_config Examples.fresh_world)))
     = None
  /\ trace
       (snd (ingest (Examples.example_env [Examples.good_pdf; Examples.broken_pdf])
               Examples.example_config Examples.fresh_world))
     = [CallOpen Examples.broken_pdf].
Proof.
  repeat split; vm_compute; congruence.
Qed.

(** ** A second run *)

Lemma ingest_one_keeps_completed env config pdf_path d w w' :
  ingest_one env config pdf_path w = (Ok tt, w') ->
  StateTracker.status_of d (tracker w) = Some "completed" ->
  StateTracker.status_of d (tracker w') = Some "completed".
Proof.
  intros Hrun Hd.
  destruct (decide (StateTracker.status_of (_digest env pdf_path) (tracker w)
                    = Some "completed")) as [Hdone|Hnot].
  - rewrite (ingest_one_skips _ _ _ _ Hdone) in Hrun. now injection Hrun as <-.
  - rewrite (ingest_one_processes _ _ _ _ Hnot) in Hrun.
    destruct (_process_pdf _ _ _ _) as [[[]|e] w1] eqn:Hproc; [|discriminate].
    injection Hrun as <-.
    pose proof (respects_run same_tracker _ _ _ _
                  (process_pdf_same_tracker env config pdf_path) Hproc) as Hsame.
    unfold same_tracker in Hsame. simpl in *. rewrite Hsame.
    destruct (decide (d = _digest env pdf_path)) as [->|Hne].
    + apply status_of_mark_eq, filename_meta_no_status.
    + now rewrite !status_of_mark_ne by exact Hne.
Qed.

Lemma ingest_one_ok_completed env config pdf_path w w' :
  ingest_one env config pdf_path w = (Ok tt, w') ->
  StateTracker.status_of (_digest env pdf_path) (tracker w') = Some "completed".
Proof.
  intros Hrun.
  destruct (decide (StateTracker.status_of (_digest env pdf_path) (tracker w)
                    = Some "completed")) as [Hdone|Hnot].
  - rewrite (ingest_one_skips _ _ _ _ Hdone) in Hrun. now injection Hrun as <-.
  - rewrite (ingest_one_processes _ _ _ _ Hnot) in Hrun.
    destruct (_process_pdf _ _ _ _) as [[[]|e] w1]; [|discriminate].
    injection Hrun as <-. apply status_of_set_tracker_mark.
Qed.

Lemma for_each_keeps_completed env config (pdfs : list Path) d w w' :
  for_each pdfs (ingest_one env config) w = (Ok tt, w') ->
  StateTracker.status_of d (tracker w) = Some "completed" ->
  StateTracker.status_of d (tracker w') = Some "completed".
Proof.
  revert w. induction pdfs as [|p pdfs IH]; intros w; simpl.
  - now intros [= <-].
  - intros H Hd. apply bind_ok in H as ([] & w1 & H1 & H).
    eapply IH; [exact H|]. eapply ingest_one_keeps_completed; eassumption.
Qed.

Lemma for_each_ok_all_completed env config (pdfs : list Path) w w' :
  for_each pdfs (ingest_one env config) w = (Ok tt, w') ->
  forall p, In p pdfs ->
    StateTracker.status_of (_digest env p) (tracker w') = Some "completed".
Proof.
  revert w. induction pdfs as [|x pdfs IH]; intros w; simpl; [intros _ p []|].
  intros H p Hp. apply bind_ok in H as ([] & w1 & H1 & H).
  destruct Hp as [<-|Hp]; [|eapply IH; eassumption].
  eapply for_each_keeps_completed; [exact H|].
  eapply ingest_one_ok_completed; exact H1.
Qed.

Lemma for_each_all_skipped env config (pdfs : list Path) w :
  (forall p, In p pdfs ->
     StateTracker.status_of (_digest env p) (tracker w) = Some "completed") ->
  for_each pdfs (ingest_one env config) w = (Ok tt, w).
Proof.
  induction pdfs as [|x pdfs IH]; intros H; simpl; [reflexivity|].
  unfold bind. rewrite ingest_one_skips by (apply H; now left).
  apply IH. intros p Hp. apply H. now right.
Qed.

Lemma synced_after_mark digest status meta w :
  synced (set_tracker (StateTracker.mark digest status meta) w).
Proof. reflexivity. Qed.

Lemma ingest_one_synced env config pdf_path w r w' :
  ingest_one env config pdf_path w = (r, w') -> synced w -> synced w'.
Proof.
  intros Hrun Hs.
  destruct (decide (StateTracker.status_of (_digest env pdf_path) (tracker w)
                    = Some "completed")) as [Hdone|Hnot].
  - rewrite (ingest_one_skips _ _ _ _ Hdone) in Hrun. now injection Hrun as _ <-.
  - rewrite (ingest_one_processes _ _ _ _ Hnot) in Hrun.
    destruct (_process_pdf _ _ _ _) as [[[]|e] w1] eqn:Hproc; injection Hrun as _ <-.
    + apply synced_after_mark.
    + pose proof (respects_run same_tracker _ _ _ _
                    (process_pdf_same_tracker env config pdf_path) Hproc) as Hsame.
      unfold synced, same_tracker in *. rewrite Hsame. reflexivity.
Qed.

Lemma for_each_synced env config (pdfs : list Path) w r w' :
  for_each pdfs (ingest_one env config) w = (r, w') -> synced w -> synced w'.
Proof.
  revert w. induction pdfs as [|p pdfs IH]; intros w; simpl.
  - now intros [= _ <-].
  - unfold bind. destruct (ingest_one env config p w) as [[[]|e] w1] eqn:H1.
    + intros H Hs. eapply IH; [exact H|]. eapply ingest_one_synced; eassumption.
    + intros [= _ <-] Hs. eapply ingest_one_synced; eassumption.
Qed.

Lemma init_synced w : synced (snd (init w)).
Proof.
  unfold synced. simpl. now destruct (StateTracker.file (tracker w)).
Qed.

Lemma init_of_synced w : synced w -> init w = (Ok tt, w).
Proof.
  unfold synced, init, set_tracker. intros H. rewrite <- H. now destruct w.
Qed.

(** C3. A first run that ends without an exception leaves every
    document of the directory [completed]. A second run over the same
    directory, from the world the first one left, skips them all: it
    ends without an exception in that very world, so it makes no call at
    all (no embedding, no upsert), and the index, the documents table,
    the checkpoint map and its file are what they were. This holds for a
    second call of [ingest] as for a new process that reads the file.
    In any world, a document whose digest is [completed] is passed over
    without a change. *)
Theorem second_run_is_noop (env : Env) (config : IngestionConfig) (w w1 : World) :
  main env config w = (Ok tt, w1) ->
  (forall p w0,
      StateTracker.status_of (_digest env p) (tracker w0) = Some "completed" ->
      ingest_one env config p w0 = (Ok tt, w0))
  /\ (forall p, In p (_iter_pdfs env) ->
        StateTracker.status_of (_digest env p) (tracker w1) = Some "completed")
  /\ ingest env config w1 = (Ok tt, w1)
  /\ main env config w1 = (Ok tt, w1)
  /\ trace (snd (main env config w1)) = trace w1
  /\ pinecone (snd (main env config w1)) = pinecone w1
  /\ tracker (snd (main env config w1)) = tracker w1.
Proof.
  intros H.
  cut ((forall p w0,
         StateTracker.status_of (_digest env p) (tracker w0) = Some "completed" ->
         ingest_one env config p w0 = (Ok tt, w0))
       /\ (forall p, In p (_iter_pdfs env) ->
             StateTracker.status_of (_digest env p) (tracker w1) = Some "completed")
       /\ ingest env config w1 = (Ok tt, w1)
       /\ main env config w1 = (Ok tt, w1)).
  { intros (H1 & H2 & H3 & H4). rewrite H4. auto 10. }
  revert H.
  unfold main. intros H. split; [apply ingest_one_skips|].
  apply bind_ok in H as ([] & w0 & Hinit & Hrun).
  assert (Hall : forall p, In p (_iter_pdfs env) ->
     StateTracker.status_of (_digest env p) (tracker w1) = Some "completed")
    by (eapply for_each_ok_all_completed; exact Hrun).
  assert (Hagain : ingest env config w1 = (Ok tt, w1))
    by (apply for_each_all_skipped, Hall).
  split; [exact Hall|]. split; [exact Hagain|].
  assert (Hs : synced w1).
  { eapply for_each_synced; [exact Hrun|].
    injection Hinit as <-. apply init_synced. }
  unfold bind. now rewrite (init_of_synced _ Hs).
Qed.

(** The theorem at a directory of three documents, from a fresh world. *)
Lemma second_run_is_noop_witness :
  main (Examples.example_env [Examples.good_pdf; Examples.scanned_pdf; Examples.copy_pdf])
    Examples.example_config
    (snd (main (Examples.example_env
                  [Examples.good_pdf; Examples.scanned_pdf; Examples.copy_pdf])
            Examples.example_config Examples.fresh_world))
  = (Ok tt,
     snd (main (Examples.example_env
                  [Examples.good_pdf; Examples.scanned_pdf; Examples.copy_pdf])
            Examples.example_config Examples.fresh_world)).
Proof.
  refine (proj1 (proj2 (proj2 (proj2 (second_run_is_noop
                          (Examples.example_env
                             [Examples.good_pdf; Examples.scanned_pdf; Examples.copy_pdf])
                          Examples.example_config Examples.fresh_world _ _))))).
  vm_compute. reflexivity.
Defined.

(** C3 as stated fails when the first run did not get through. With an
    index that is down at the time of the first upsert, the first run
    raises and leaves the manual [processing]. The second run, over the
    same directory and from the world the first one left, opens the
    manual again, embeds its chunk again, upserts it and writes its row:
    the index and the checkpoint map are not what they were. *)
Lemma second_run_after_failed_run_works_again :
  fst (main Examples.outage_env Examples.example_config Examples.fresh_world)
  = Raise PineconeError
  /\ StateTracker.status_of (_digest Examples.outage_env Examples.good_pdf)
       (tracker (snd (main Examples.outage_env Examples.example_config
                        Examples.fresh_world)))
     = Some "processing"
  /\ fst (main Examples.outage_env Examples.example_config
            (snd (main Examples.outage_env Examples.example_config
                    Examples.fresh_world)))
     = Ok tt
  /\ (exists vectors row,
        drop (length (trace (snd (main Examples.outage_env Examples.example_config
                                    Examples.fresh_world))))
          (trace (snd (main Examples.outage_env Examples.example_config
                         (snd (main Examples.outage_env Examples.example_config
                                 Examples.fresh_world)))))
        = [ CallOpen Examples.good_pdf;
            CallSparseFit ["Part WR-60X10074 fits Model ABC-123/DEF"];
            CallDenseEmbed ["Part WR-60X10074 fits Model ABC-123/DEF"];
            CallSparseEmbed ["Part WR-60X10074 fits Model ABC-123/DEF"];
            CallPineconeUpsert "appliance_manuals" vectors;
            CallDocumentsUpsert row ])
  /\ pinecone (snd (main Examples.outage_env Examples.example_config
                      (snd (main Examples.outage_env Examples.example_config
                              Examples.fresh_world))))
     <> pinecone (snd (main Examples.outage_env Examples.example_config
                         Examples.fresh_world))
  /\ tracker (snd (main Examples.outage_env Examples.example_config
                     (snd (main Examples.outage_env Examples.example_config
                             Examples.fresh_world))))
     <> tracker (snd (main Examples.outage_env Examples.example_config
                        Examples.fresh_world)).
Proof.
  split; [vm_compute; reflexivity|].
  split; [vm_compute; reflexivity|].
  split; [vm_compute; reflexivity|].
  split; [eexists; eexists; vm_compute; reflexivity|].
  split.
  - intros H.
    assert (Hnew : pinecone (snd (main Examples.outage_env Examples.example_config
                                    (snd (main Examples.outage_env Examples.example_config
                                            Examples.fresh_world))))
                   !! ("appliance_manuals", "b200-0")
                   <> None)
      by (vm_compute; discriminate).
    apply Hnew. rewrite H. vm_compute. reflexivity.
  - intros H.
    assert (Hnew : StateTracker.status_of
                     (_digest Examples.outage_env Examples.good_pdf)
                     (tracker (snd (main Examples.outage_env Examples.example_config
                                      (snd (main Examples.outage_env
                                              Examples.example_config
                                              Examples.fresh_world)))))
                   = Some "completed")
      by (vm_compute; reflexivity).
    rewrite H in Hnew. vm_compute in Hnew. discriminate.
Qed.

(** ** The retrieval pipeline *)

Lemma score_geb_total (a b : Document) : score_geb a b = true \/ score_geb b a = true.
Proof.
  unfold score_geb. rewrite !Qle_bool_iff.
  destruct (Qlt_le_dec (score_or_zero a) (score_or_zero b)) as [H|H]; [right|left].
  - now apply Qlt_le_weak.
  - exact H.
Qed.

Lemma score_geb_trans (a b c : Document) :
  score_geb a b = true -> score_geb b c = true -> score_geb a c = true.
Proof.
  unfold score_geb. rewrite !Qle_bool_iff. intros H1 H2. eapply Qle_trans; eassumption.
Qed.

Lemma has_score_geb (v : Q) (a b : Document) :
  has_score v a = true -> has_score v b = true -> score_geb a b = true.
Proof.
  unfold has_score, score_geb. rewrite !Qeq_bool_iff, Qle_bool_iff.
  intros Ha Hb. rewrite Ha, Hb. apply Qle_refl.
Qed.

Lemma ranker_run_rescored cross k query documents :
  ranker_run cross k query documents
  = take k (py_sorted score_geb (rescored cross query documents)).
Proof. reflexivity. Qed.

Lemma rescored_set_score cross query (dense : Document -> Q) candidates :
  rescored cross query (map (fun d => set_score (dense d) d) candidates)
  = rescored cross query candidates.
Proof.
  unfold rescored. rewrite map_map. apply map_ext. intros d. reflexivity.
Qed.

(** The run of [retrieve] is refused: nothing gives the ranker its
    query. *)
Lemma retrieve_missing_ranker_query (senv : SearchEnv) (p : RetrievalPipeline)
    (query : string) :
  retrieve senv p query = Raise (ValueError "Missing input for component ranker: query").
Proof. reflexivity. Qed.

(** What the same pipeline returns when [data] gives the ranker its
    query too. *)
Lemma pipeline_run_given_ranker_query senv k query embedding candidates :
  text_embedder senv query = Ok embedding ->
  retriever senv embedding (k * 2) = Ok candidates ->
  pipeline_run senv (RetrievalPipeline_init k)
    [("text_embedder", [("text", query)]); ("ranker", [("query", query)])]
  = ranker senv k query candidates.
Proof.
  intros He Hr. unfold pipeline_run. simpl. now rewrite He, Hr.
Qed.

(** With the ranker of the spec, such a run returns the first [k] of the
    ranking of the [k * 2] candidates: the candidates, each with its
    cross-encoder score, highest score first, candidates of equal score
    in the order the retriever gave them, whatever score they came
    with. *)
Lemma reranked_when_query_is_given (senv : SearchEnv) (cross : string -> string -> Q)
    (k : nat) (query : string) (embedding : list Q) (candidates : list Document) :
  text_embedder senv query = Ok embedding ->
  retriever senv embedding (k * 2) = Ok candidates ->
  ranker senv k query candidates = Ok (ranker_run cross k query candidates) ->
  exists ranked : list Document,
    pipeline_run senv (RetrievalPipeline_init k)
      [("text_embedder", [("text", query)]); ("ranker", [("query", query)])]
    = Ok (take k ranked)
    /\ Permutation ranked (rescored cross query candidates)
    /\ StronglySorted (fun a b => (score_or_zero b <= score_or_zero a)%Q) ranked
    /\ (forall v, List.filter (has_score v) ranked
                  = List.filter (has_score v) (rescored cross query candidates))
    /\ (forall dense : Document -> Q,
          ranker_run cross k query (map (fun d => set_score (dense d) d) candidates)
          = take k ranked).
Proof.
  intros He Hr Hrank. exists (py_sorted score_geb (rescored cross query candidates)).
  split; [now rewrite (pipeline_run_given_ranker_query _ _ _ _ _ He Hr), Hrank|].
  split; [apply py_sorted_perm|].
  split.
  { eapply StronglySorted_weaken; [|apply py_sorted_sorted].
    - intros a b. unfold score_geb. now rewrite Qle_bool_iff.
    - apply score_geb_total.
    - apply score_geb_trans. }
  split; [intros v; apply py_sorted_stable, has_score_geb|].
  intros dense. now rewrite ranker_run_rescored, rescored_set_score.
Qed.

(** C5. [retrieve] raises on every query, whatever the store holds and
    whether it can be reached or not. The only input its run is given
    is the text of the embedder, and no connection sends the ranker its
    query, so the run is refused with a [ValueError] before a component
    is called. A store without content and a store that cannot be
    reached give the same exception, and neither gives a list. *)
Theorem retrieve_raises_whatever_the_store
    (senv : SearchEnv) (p : RetrievalPipeline) (query : string) :
  missing_input [("text_embedder", [("text", query)])] = Some ("ranker", "query")
  /\ retrieve senv p query
     = Raise (ValueError "Missing input for component ranker: query")
  /\ retrieve (Examples.search_env []) (RetrievalPipeline_init 5) "door gasket"
     = Raise (ValueError "Missing input for component ranker: query")
  /\ retrieve Examples.unreachable_env (RetrievalPipeline_init 5) "door gasket"
     = retrieve (Examples.search_env []) (RetrievalPipeline_init 5) "door gasket".
Proof.
  split; [reflexivity|]. split; [apply retrieve_missing_ranker_query|].
  split; reflexivity.
Qed.

(** C8. A pipeline built for [k] results sets the retriever to [k * 2]
    candidates and the ranker to [k], and sends the documents of the
    retriever to the ranker; but nothing sends the ranker its query, so
    [retrieve] returns no sequence at all, ranked or not: on a store of
    three passages, as on any other, it raises the [ValueError] of the
    refused run. *)
Theorem retrieve_returns_no_ranking (senv : SearchEnv) (k : nat) (query : string) :
  retriever_top_k (RetrievalPipeline_init k) = (k * 2)%nat
  /\ ranker_top_k (RetrievalPipeline_init k) = k
  /\ is_sent "ranker" "documents" = true
  /\ is_sent "ranker" "query" = false
  /\ (forall results, retrieve senv (RetrievalPipeline_init k) query <> Ok results)
  /\ retrieve (Examples.search_env Examples.indexed_docs) (RetrievalPipeline_init 2)
       "defrost"
     = Raise (ValueError "Missing input for component ranker: query").
Proof.
  repeat split.
  intros results. now rewrite retrieve_missing_ranker_query.
Qed.

(** On the store of three passages, a run that is given the query of the
    ranker too returns the two passages of equal rerank score in the
    order the retriever gave them, ahead of the passage it ranked
    first. *)
Example pipeline_run_defrost_passages :
  option_map (map doc_id)
    (match pipeline_run (Examples.search_env Examples.indexed_docs)
             (RetrievalPipeline_init 2)
             [("text_embedder", [("text", "defrost")]); ("ranker", [("query", "defrost")])]
     with
     | Ok documents => Some documents
     | Raise _ => None
     end)
  = Some ["m2"; "m3"].
Proof. reflexivity. Qed.

(** * Further properties of the ingestion pipeline *)

(** ** The order of the enumeration *)

Lemma string_compare_refl (s : string) : String.compare s s = Eq.
Proof.
  induction s as [|a s IH]; simpl; [reflexivity|].
  unfold Ascii.compare. now rewrite N.compare_refl.
Qed.

Lemma string_compare_lt_gt (a b : string) :
  String.compare a b = Lt -> String.compare b a = Gt.
Proof. intros H. now rewrite String.compare_antisym, H. Qed.

Lemma string_compare_gt_lt (a b : string) :
  String.compare a b = Gt -> String.compare b a = Lt.
Proof. intros H. now rewrite String.compare_antisym, H. Qed.

Lemma string_compare_lt_trans (a b c : string) :
  String.compare a b = Lt -> String.compare b c = Lt -> String.compare a c = Lt.
Proof.
  intros Hab Hbc.
  assert (Hle : String.leb a c = true).
  { apply (string_leb_trans a b c); unfold String.leb; now rewrite ?Hab, ?Hbc. }
  unfold String.leb in Hle.
  destruct (String.compare a c) eqn:Hac; [|reflexivity|discriminate].
  apply String.compare_eq_iff in Hac. subst c.
  apply string_compare_lt_gt in Hab. congruence.
Qed.

Lemma path_leb_total (p q : Path) : path_leb p q = true \/ path_leb q p = true.
Proof.
  revert q. induction p as [|a p IH]; intros [|b q]; simpl; auto.
  rewrite (String.compare_antisym b a).
  destruct (String.compare a b); simpl; auto.
Qed.

Lemma path_leb_trans (p q r : Path) :
  path_leb p q = true -> path_leb q r = true -> path_leb p r = true.
Proof.
  revert q r. induction p as [|a p IH]; intros [|b q] [|c r]; simpl; try congruence.
  destruct (String.compare a b) eqn:Hab; [|simpl|discriminate].
  - apply String.compare_eq_iff in Hab. subst b.
    destruct (String.compare a c); [apply IH|reflexivity|discriminate].
  - intros _. destruct (String.compare b c) eqn:Hbc; [|simpl|discriminate].
    + apply String.compare_eq_iff in Hbc. subst c. now rewrite Hab.
    + now rewrite (string_compare_lt_trans a b c Hab Hbc).
Qed.

Lemma path_leb_antisym (p q : Path) :
  path_leb p q = true -> path_leb q p = true -> p = q.
Proof.
  revert q. induction p as [|a p IH]; intros [|b q]; simpl; try congruence.
  destruct (String.compare a b) eqn:Hab.
  - apply String.compare_eq_iff in Hab. subst b.
    rewrite string_compare_refl. intros H1 H2. f_equal. now apply IH.
  - rewrite (string_compare_lt_gt a b Hab). discriminate.
  - discriminate.
Qed.

(** Two sorted lists with the same elements are the same list, when the
    order tells different elements apart. *)
Lemma sorted_perm_unique {A} (R : A -> A -> Prop) (l1 l2 : list A) :
  (forall x y, R x y -> R y x -> x = y) ->
  StronglySorted R l1 -> StronglySorted R l2 -> Permutation l1 l2 -> l1 = l2.
Proof.
  intros Hanti H1. revert l2.
  induction H1 as [|x l1 Hl1 IH Hx]; intros l2 H2 Hperm.
  - now apply Permutation_nil in Hperm.
  - destruct H2 as [|y l2 Hl2 Hy].
    + symmetry in Hperm. now apply Permutation_nil in Hperm.
    + assert (x = y) as ->.
      { assert (Hin1 : In x (y :: l2))
          by (eapply Permutation_in; [exact Hperm|now left]).
        assert (Hin2 : In y (x :: l1))
          by (eapply Permutation_in; [symmetry; exact Hperm|now left]).
        destruct Hin1 as [->|Hin1]; [reflexivity|].
        destruct Hin2 as [->|Hin2]; [reflexivity|].
        rewrite Forall_forall in Hx, Hy.
        apply Hanti; [apply Hx|apply Hy]; now apply list_elem_of_In. }
      f_equal. apply IH; [exact Hl2|]. now apply Permutation_cons_inv in Hperm.
Qed.

(** X1. The documents are enumerated in the order of their paths, part
    by part and character by character, each path of the listing once;
    the order in which the file system lists them plays no part. *)
Theorem iter_pdfs_sorted_whatever_the_listing (env env' : Env) :
  Permutation (glob_pdfs env') (glob_pdfs env) ->
  Permutation (_iter_pdfs env) (glob_pdfs env)
  /\ StronglySorted (fun p q => path_leb p q = true) (_iter_pdfs env)
  /\ _iter_pdfs env' = _iter_pdfs env.
Proof.
  intros Hperm. unfold _iter_pdfs.
  assert (Hsorted : forall l, StronglySorted (fun p q => path_leb p q = true)
                                (py_sorted path_leb l)).
  { intros l. apply py_sorted_sorted; [apply path_leb_total|apply path_leb_trans]. }
  split; [apply py_sorted_perm|]. split; [apply Hsorted|].
  apply (sorted_perm_unique (fun p q => path_leb p q = true)).
  - apply path_leb_antisym.
  - apply Hsorted.
  - apply Hsorted.
  - now rewrite !py_sorted_perm.
Qed.

(** The theorem at two listings of the same three files. *)
Lemma iter_pdfs_sorted_whatever_the_listing_witness :
  _iter_pdfs (Examples.example_env
                [Examples.good_pdf; Examples.copy_pdf; Examples.broken_pdf])
  = _iter_pdfs (Examples.example_env
                  [Examples.broken_pdf; Examples.good_pdf; Examples.copy_pdf]).
Proof.
  refine (proj2 (proj2 (iter_pdfs_sorted_whatever_the_listing
                          (Examples.example_env
                             [Examples.broken_pdf; Examples.good_pdf; Examples.copy_pdf])
                          (Examples.example_env
                             [Examples.good_pdf; Examples.copy_pdf; Examples.broken_pdf])
                          _))).
  simpl. apply Permutation_sym.
  apply (perm_trans (l' := [Examples.good_pdf; Examples.broken_pdf; Examples.copy_pdf])).
  - apply perm_swap.
  - apply perm_skip, perm_swap.
Defined.

(** ** The labels taken from the path *)

Lemma relative_to_app (root rest : Path) : relative_to (root ++ rest) root = Some rest.
Proof.
  induction root as [|r root IH]; simpl; [now destruct rest|].
  now rewrite String.eqb_refl.
Qed.

Lemma build_records_labels doc_id labels idx items (i : nat) r :
  build_records doc_id labels idx items !! i = Some r ->
  appliance_type (vec_metadata r) = fst labels /\ brand (vec_metadata r) = snd labels.
Proof.
  revert idx i. induction items as [|[[dense sparse] chunk] items IH]; intros idx i; simpl.
  - discriminate.
  - destruct i as [|i]; simpl; [intros [= <-]; now split|apply IH].
Qed.

(** X2. The two labels of a document are the first two parts of its
    path below the root, whatever follows them: for a file directly
    inside a first-level directory the second label is the file's own
    name. A file directly in the root, or the root itself, gets
    ["unknown"] twice. Every record built for a document carries the
    labels of its path. *)
Theorem labels_are_first_two_parts (config : IngestionConfig) (first second name : string)
    (rest : Path) :
  path_labels config (pdf_root config ++ first :: second :: rest) = (first, second)
  /\ path_labels config (pdf_root config ++ [first; name]) = (first, name)
  /\ path_labels config (pdf_root config ++ [name]) = ("unknown", "unknown")
  /\ path_labels config (pdf_root config) = ("unknown", "unknown")
  /\ forall pdf_path doc_id items (i : nat) r,
       build_records doc_id (path_labels config pdf_path) 0 items !! i = Some r ->
       (appliance_type (vec_metadata r), brand (vec_metadata r))
       = path_labels config pdf_path.
Proof.
  unfold path_labels.
  repeat split; try (now rewrite relative_to_app).
  - rewrite <- (app_nil_r (pdf_root config)) at 1. now rewrite relative_to_app.
  - intros pdf_path doc_id items i r H.
    apply build_records_labels in H as [-> ->].
    fold (path_labels config pdf_path). now destruct (path_labels config pdf_path).
Qed.

(** ** The records of a document, again *)

Lemma str_prefix_length (n : nat) (s : string) :
  String.length (str_prefix n s) = Nat.min n (String.length s).
Proof.
  unfold str_prefix. revert n.
  induction s as [|a s IH]; intros [|n]; simpl; try reflexivity.
  now rewrite IH.
Qed.

Lemma str_prefix_is_prefix (n : nat) (s : string) :
  exists rest, s = str_prefix n s +:+ rest.
Proof.
  unfold str_prefix. revert n.
  induction s as [|a s IH]; intros [|n]; simpl.
  - now exists "".
  - now exists "".
  - now exists (String a s).
  - destruct (IH n) as [rest Hrest]. exists rest.
    change (String a s = String a (substring 0 n s +:+ rest)). now f_equal.
Qed.

Lemma zip3_length {A B C} (xs : list A) (ys : list B) (zs : list C) :
  length (zip3 xs ys zs) = Nat.min (length xs) (Nat.min (length ys) (length zs)).
Proof.
  revert ys zs. induction xs as [|x xs IH]; intros [|y ys] [|z zs]; simpl;
    try reflexivity.
  now rewrite IH.
Qed.

Lemma zip3_lookup {A B C} (xs : list A) (ys : list B) (zs : list C) (i : nat) x y z :
  zip3 xs ys zs !! i = Some (x, y, z) ->
  xs !! i = Some x /\ ys !! i = Some y /\ zs !! i = Some z.
Proof.
  revert ys zs i. induction xs as [|x0 xs IH]; intros [|y0 ys] [|z0 zs] i; simpl;
    try discriminate.
  destruct i as [|i]; simpl; [now intros [= -> -> ->]|apply IH].
Qed.

Lemma build_records_length doc_id labels idx items :
  length (build_records doc_id labels idx items) = length items.
Proof.
  revert idx. induction items as [|[[dense sparse] chunk] items IH]; intros idx; simpl;
    [reflexivity|]. now rewrite IH.
Qed.

Lemma build_records_tokens doc_id labels idx items (i : nat) r :
  build_records doc_id labels idx items !! i = Some r ->
  exists dense sparse chunk,
    items !! i = Some (dense, sparse, chunk)
    /\ part_numbers (vec_metadata r) = extract_part_numbers chunk
    /\ appliance_models (vec_metadata r) = extract_model_numbers chunk.
Proof.
  revert idx i. induction items as [|[[dense sparse] chunk] items IH]; intros idx i; simpl.
  - discriminate.
  - destruct i as [|i]; simpl; [|apply IH].
    intros [= <-]. exists dense, sparse, chunk. now repeat split.
Qed.

(** X3. The loop makes one record per triple of the zip, so as many
    records as the shortest of the dense vectors, the sparse vectors and
    the chunks: a chunk without its two vectors gets no record. The
    [i]-th record holds the [i]-th dense vector and the [i]-th chunk;
    its text is a prefix of that chunk of at most 2000 characters,
    while its part and model numbers are those of the whole chunk. *)
Theorem records_follow_the_zip (doc_id : string) (labels : string * string)
    (dense_vectors : list (list Q)) (sparse_vectors : list SparseDict)
    (chunks : list string) :
  length (build_records doc_id labels 0 (zip3 dense_vectors sparse_vectors chunks))
  = Nat.min (length dense_vectors) (Nat.min (length sparse_vectors) (length chunks))
  /\ forall (i : nat) r,
       build_records doc_id labels 0 (zip3 dense_vectors sparse_vectors chunks) !! i
       = Some r ->
       exists chunk,
         chunks !! i = Some chunk
         /\ dense_vectors !! i = Some (vec_values r)
         /\ (String.length (text (vec_metadata r)) <= 2000)%nat
         /\ (exists rest, chunk = text (vec_metadata r) +:+ rest)
         /\ part_numbers (vec_metadata r) = extract_part_numbers chunk
         /\ appliance_models (vec_metadata r) = extract_model_numbers chunk.
Proof.
  split; [now rewrite build_records_length, zip3_length|].
  intros i r H.
  pose proof (build_records_tokens _ _ _ _ _ _ H) as (d0 & s0 & c0 & Hi0 & Hparts & Hmodels).
  apply build_records_lookup in H as (_ & dense & sparse & chunk & Hi & Hd & _ & Ht).
  rewrite Hi in Hi0. injection Hi0 as <- <- <-.
  apply zip3_lookup in Hi as (Hdense & _ & Hchunk).
  exists chunk. split; [exact Hchunk|]. split; [now rewrite Hd|].
  rewrite Ht. split; [rewrite str_prefix_length; lia|].
  split; [apply str_prefix_is_prefix|]. now split.
Qed.

(** ** The index after an upsert *)

Lemma str_of_nat_inj (n m : nat) : str_of_nat n = str_of_nat m -> n = m.
Proof.
  unfold str_of_nat. intros H.
  apply (f_equal NilEmpty.uint_of_string) in H. rewrite !NilEmpty.usu in H.
  injection H as H.
  rewrite <- (DecimalNat.Unsigned.of_to n), <- (DecimalNat.Unsigned.of_to m).
  now rewrite H.
Qed.

Lemma string_append_inj_l (a x y : string) : a +:+ x = a +:+ y -> x = y.
Proof.
  induction a as [|c a IH]; [exact (fun H => H)|].
  change ((String c (a +:+ x)) = (String c (a +:+ y)) -> x = y).
  intros [= H]. now apply IH.
Qed.

Lemma chunk_id_inj (doc_id : string) (i j : nat) :
  doc_id +:+ "-" +:+ str_of_nat i = doc_id +:+ "-" +:+ str_of_nat j -> i = j.
Proof.
  intros H. apply string_append_inj_l, string_append_inj_l in H.
  now apply str_of_nat_inj.
Qed.

Lemma build_records_ids doc_id labels idx items :
  map vec_id (build_records doc_id labels idx items)
  = map (fun i => doc_id +:+ "-" +:+ str_of_nat i) (seq idx (length items)).
Proof.
  revert idx. induction items as [|[[dense sparse] chunk] items IH]; intros idx; simpl;
    [reflexivity|]. now rewrite IH.
Qed.

Lemma build_records_ids_NoDup doc_id labels idx items :
  NoDup (map vec_id (build_records doc_id labels idx items)).
Proof.
  rewrite build_records_ids. apply NoDup_fmap_2; [|apply NoDup_seq].
  intros i j. apply chunk_id_inj.
Qed.

Lemma store_records_cons ns index r (l : list VectorRecord) :
  store_records ns index (r :: l) = store_records ns (<[(ns, vec_id r) := r]> index) l.
Proof. reflexivity. Qed.

Lemma store_records_lookup_other ns index (l : list VectorRecord) key :
  (forall r, In r l -> key <> (ns, vec_id r)) ->
  store_records ns index l !! key = index !! key.
Proof.
  revert index. induction l as [|x l IH]; intros index H; [reflexivity|].
  rewrite store_records_cons, IH by (intros r Hr; apply H; now right).
  apply lookup_insert_ne. intros Heq. apply (H x); [now left|now symmetry].
Qed.

Lemma store_records_lookup_sent ns index (l : list VectorRecord) r :
  NoDup (map vec_id l) -> In r l ->
  store_records ns index l !! (ns, vec_id r) = Some r.
Proof.
  revert index. induction l as [|x l IH]; intros index Hnd Hin; [destruct Hin|].
  rewrite store_records_cons. simpl in Hnd.
  apply NoDup_cons in Hnd as [Hx Hnd].
  destruct Hin as [->|Hin]; [|now apply IH].
  rewrite store_records_lookup_other; [apply lookup_insert_eq|].
  intros r' Hr' [= Heq]. apply Hx. rewrite Heq.
  apply list_elem_of_In, in_map, Hr'.
Qed.

Lemma store_records_twice ns index (l : list VectorRecord) :
  NoDup (map vec_id l) ->
  store_records ns (store_records ns index l) l = store_records ns index l.
Proof.
  intros Hnd. apply map_eq. intros key.
  destruct (decide (key ∈ map (fun r => (ns, vec_id r)) l)) as [Hin|Hout].
  - apply list_elem_of_In, in_map_iff in Hin as (r & <- & Hr).
    now rewrite !store_records_lookup_sent.
  - rewrite (store_records_lookup_other ns (store_records ns index l)); [reflexivity|].
    intros r Hr ->. apply Hout, list_elem_of_In, in_map_iff. eauto.
Qed.

Lemma upsert_batches_ok_index env config (to_upsert : list VectorRecord) w w' :
  (0 < batch_size config)%Z ->
  upsert_batches env config to_upsert w = (Ok tt, w') ->
  pinecone w' = store_records (namespace config) (pinecone w) to_upsert.
Proof.
  intros HB H. unfold upsert_batches in H.
  apply bind_ok in H as (bs & w0 & Hbs & H).
  unfold lift in Hbs. injection Hbs as Hbs <-.
  destruct (batches_concat config to_upsert HB) as (bs' & Hbs' & Hcat).
  rewrite Hbs in Hbs'. injection Hbs' as <-.
  apply for_each_upsert_ok in H as (_ & H & _). now rewrite H, Hcat.
Qed.

(** X4. After an upsert loop that went through, with a positive batch
    size, each record of the document is in the index under the
    namespace of the configuration and its own id, whatever was stored
    there before, and an entry under any other key is what it was. *)
Theorem upserted_records_are_in_the_index (env : Env) (config : IngestionConfig)
    (doc_id : string) (labels : string * string)
    (items : list (list Q * SparseDict * string)) (w w' : World) :
  (0 < batch_size config)%Z ->
  upsert_batches env config (build_records doc_id labels 0 items) w = (Ok tt, w') ->
  (forall (i : nat) r,
      build_records doc_id labels 0 items !! i = Some r ->
      pinecone w' !! (namespace config, doc_id +:+ "-" +:+ str_of_nat i) = Some r)
  /\ (forall ns id,
        (forall i : nat, (i < length items)%nat ->
           (ns, id) <> (namespace config, doc_id +:+ "-" +:+ str_of_nat i)) ->
        pinecone w' !! (ns, id) = pinecone w !! (ns, id)).
Proof.
  intros HB H. rewrite (upsert_batches_ok_index _ _ _ _ _ HB H). split.
  - intros i r Hi.
    pose proof (build_records_lookup _ _ _ _ _ _ Hi) as ((Hid & _) & _).
    simpl in Hid. rewrite <- Hid.
    apply store_records_lookup_sent; [apply build_records_ids_NoDup|].
    apply list_elem_of_In, list_elem_of_lookup. eauto.
  - intros ns id Hother. apply store_records_lookup_other.
    intros r Hr. apply list_elem_of_In, list_elem_of_lookup in Hr as [i Hi].
    pose proof (build_records_lookup _ _ _ _ _ _ Hi) as ((Hid & _) & _).
    simpl in Hid. rewrite Hid. apply Hother.
    apply lookup_lt_Some in Hi. now rewrite build_records_length in Hi.
Qed.

(** The theorem at the five example records, sent in batches of two. *)
Lemma upserted_records_are_in_the_index_witness :
  exists r,
    Examples.five_records !! 3%nat = Some r
    /\ pinecone
         (snd (upsert_batches (Examples.example_env []) Examples.small_config
                 Examples.five_records Examples.fresh_world))
       !! ("appliance_manuals", "b200" +:+ "-" +:+ str_of_nat 3) = Some r.
Proof.
  eexists. split; [reflexivity|].
  apply (proj1 (upserted_records_are_in_the_index
                  (Examples.example_env []) Examples.small_config "b200"
                  ("Refrigerator", "Acme")
                  (map (fun chunk => ([1%Q; 0%Q], [("part", 1 # 2)], chunk))
                     ["one"; "two"; "three"; "four"; "five"])
                  Examples.fresh_world
                  (snd (upsert_batches (Examples.example_env []) Examples.small_config
                          Examples.five_records Examples.fresh_world))
                  eq_refl
                  ltac:(vm_compute; reflexivity)) 3%nat).
  reflexivity.
Defined.

(** X5. Sending the records of a document a second time, after a first
    upsert loop that went through, leaves the index as the first loop
    left it: the records go under the ids they already have. *)
Theorem second_upsert_changes_nothing (env : Env) (config : IngestionConfig)
    (doc_id : string) (labels : string * string)
    (items : list (list Q * SparseDict * string)) (w w1 w2 : World) :
  (0 < batch_size config)%Z ->
  upsert_batches env config (build_records doc_id labels 0 items) w = (Ok tt, w1) ->
  upsert_batches env config (build_records doc_id labels 0 items) w1 = (Ok tt, w2) ->
  pinecone w2 = pinecone w1.
Proof.
  intros HB H1 H2.
  rewrite (upsert_batches_ok_index _ _ _ _ _ HB H2).
  rewrite (upsert_batches_ok_index _ _ _ _ _ HB H1).
  apply store_records_twice, build_records_ids_NoDup.
Qed.

(** The theorem at the five example records, sent twice. *)
Lemma second_upsert_changes_nothing_witness :
  pinecone
    (snd (upsert_batches (Examples.example_env []) Examples.small_config
            Examples.five_records
            (snd (upsert_batches (Examples.example_env []) Examples.small_config
                    Examples.five_records Examples.fresh_world))))
  = pinecone
      (snd (upsert_batches (Examples.example_env []) Examples.small_config
              Examples.five_records Examples.fresh_world)).
Proof.
  apply (second_upsert_changes_nothing
           (Examples.example_env []) Examples.small_config "b200"
           ("Refrigerator", "Acme")
           (map (fun chunk => ([1%Q; 0%Q], [("part", 1 # 2)], chunk))
              ["one"; "two"; "three"; "four"; "five"])
           Examples.fresh_world
           (snd (upsert_batches (Examples.example_env []) Examples.small_config
                   Examples.five_records Examples.fresh_world))
           (snd (upsert_batches (Examples.example_env []) Examples.small_config
                   Examples.five_records
                   (snd (upsert_batches (Examples.example_env []) Examples.small_config
                           Examples.five_records Examples.fresh_world))))
           eq_refl
           ltac:(vm_compute; reflexivity)
           ltac:(vm_compute; reflexivity)).
Defined.

(** X6. With a batch size that is not positive the upsert loop sends
    nothing and changes nothing. A batch size of zero makes it raise the
    [ValueError] of [range], even for an empty list; a negative one
    makes it end without an exception, the records left unsent. *)
Theorem nonpositive_batch_size_sends_nothing (env : Env) (config : IngestionConfig)
    (to_upsert : list VectorRecord) (w : World) :
  (batch_size config <= 0)%Z ->
  snd (upsert_batches env config to_upsert w) = w
  /\ fst (upsert_batches env config to_upsert w)
     = if (batch_size config =? 0)%Z
       then Raise (ValueError "range() arg 3 must not be zero")
       else Ok tt.
Proof.
  intros HB. unfold upsert_batches, batches, range_from_zero, bind, lift.
  destruct (Z.eqb_spec (batch_size config) 0) as [|Hne]; [now split|].
  destruct (Z.ltb_spec (batch_size config) 0) as [|]; [now split|lia].
Qed.

(** The theorem at a batch size of [-4] and the five example records. *)
Lemma nonpositive_batch_size_sends_nothing_witness :
  upsert_batches (Examples.example_env []) MoreExamples.negative_batch_config
    Examples.five_records Examples.fresh_world
  = (Ok tt, Examples.fresh_world).
Proof.
  destruct (nonpositive_batch_size_sends_nothing
              (Examples.example_env []) MoreExamples.negative_batch_config
              Examples.five_records Examples.fresh_world)
    as [Hw Hr]; [vm_compute; discriminate|].
  rewrite (surjective_pairing (upsert_batches _ _ _ _)), Hw, Hr. reflexivity.
Defined.

(** ** Missing credentials *)

#[local] Instance no_store_write_frame : Frame no_store_write is_local_call.
Proof.
  split.
  - intros w. repeat split. apply extends_trace_refl.
  - intros w1 w2 w3 (I1 & D1 & E1) (I2 & D2 & E2).
    repeat split; try congruence. eapply extends_trace_trans; eassumption.
  - intros e w He. repeat split. now apply extends_trace_log.
  - intros v w. repeat split. now apply extends_trace_same.
Qed.

#[local] Instance no_row_write_frame : Frame no_row_write is_not_row_write.
Proof.
  split.
  - intros w. split; [reflexivity|apply extends_trace_refl].
  - intros w1 w2 w3 (D1 & E1) (D2 & E2).
    split; [congruence|]. eapply extends_trace_trans; eassumption.
  - intros e w He. split; [reflexivity|]. now apply extends_trace_log.
  - intros v w. split; [reflexivity|]. now apply extends_trace_same.
Qed.

Lemma respects_raised_bind {R P} {HF : Frame R P} {A B} (m : M A) (k : A -> M B) e :
  (forall w, m w = (Raise e, w)) -> respects R (bind m k).
Proof.
  intros Hm w. unfold bind. rewrite Hm. simpl. apply frame_refl.
Qed.

Lemma respects_mark {R P} {HF : Frame R P} digest status meta :
  (forall f w, R w (set_tracker f w)) -> respects R (mark digest status meta).
Proof. intros H w. apply H. Qed.

(** The loop of [ingest] keeps a relation that marking and processing keep. *)
Lemma respects_ingest {R P} {HF : Frame R P} env config :
  (forall f w, R w (set_tracker f w)) ->
  (forall pdf_path, respects R (_process_pdf env config pdf_path)) ->
  respects R (ingest env config).
Proof.
  intros Htracker Hprocess. unfold ingest.
  apply respects_for_each. intros pdf_path _ w. unfold ingest_one.
  destruct (bool_decide _); [apply frame_refl|].
  revert w. apply respects_bind; [now apply respects_mark|]. intros _.
  apply respects_bind; [apply Hprocess|]. intros _.
  now apply respects_mark.
Qed.

Lemma process_pdf_without_pinecone_key env config pdf_path :
  pinecone_api_key (settings env) = "" ->
  respects no_store_write (_process_pdf env config pdf_path).
Proof.
  intros Hkey. unfold _process_pdf.
  apply respects_bind; [now apply respects_call|]. intros pages.
  apply respects_bind; [now apply respects_read_pages|]. intros read.
  destruct (chunk_iterable env (fst read)) as [|chunk chunks]; [apply respects_ret|].
  apply respects_bind; [now apply respects_fit|]. intros _.
  apply respects_bind; [now apply respects_dense_embed|]. intros dense_vectors.
  apply respects_bind; [now apply respects_sparse_embed|]. intros sparse_vectors.
  apply (respects_raised_bind _ _ (RuntimeError "Pinecone API key missing")).
  intros w. unfold db_clients_pinecone. now rewrite Hkey.
Qed.

Lemma documents_not_extended (rows : list DocumentRow) row : rows <> rows ++ [row].
Proof.
  intros H. apply (f_equal (@length _)) in H. rewrite length_app in H. simpl in H. lia.
Qed.

(** X7. Without a key for the vector index no run writes anything: the
    index and the documents table are what they were, and no upsert of
    either kind is even tried. The only documents that [_process_pdf]
    gets through are those that give no chunk. *)
Theorem no_pinecone_key_no_write (env : Env) (config : IngestionConfig)
    (pdf_path : Path) (w : World) :
  pinecone_api_key (settings env) = "" ->
  no_store_write w (snd (ingest env config w))
  /\ forall w', _process_pdf env config pdf_path w = (Ok tt, w') ->
                quiet is_parse_call w w'.
Proof.
  intros Hkey. split.
  - apply respects_ingest.
    + intros f w0. repeat split. now apply extends_trace_same.
    + intros p. now apply process_pdf_without_pinecone_key.
  - intros w' Hrun.
    pose proof (respects_run no_store_write _ _ _ _
                  (process_pdf_without_pinecone_key env config pdf_path Hkey) Hrun)
      as (_ & Hdocs & _).
    apply process_pdf_ok in Hrun as [Hq|(to_upsert & bs & row & calls & H)]; [exact Hq|].
    destruct H as (_ & _ & _ & _ & _ & Hrow & _).
    rewrite Hdocs in Hrow. now apply documents_not_extended in Hrow.
Qed.

(** The theorem at a directory of two documents and settings without the key. *)
Lemma no_pinecone_key_no_write_witness :
  no_store_write Examples.fresh_world
    (snd (ingest (MoreExamples.env_with_settings MoreExamples.no_pinecone_key
                    [Examples.scanned_pdf; Examples.good_pdf])
            Examples.example_config Examples.fresh_world)).
Proof.
  exact (proj1 (no_pinecone_key_no_write
                  (MoreExamples.env_with_settings MoreExamples.no_pinecone_key
                     [Examples.scanned_pdf; Examples.good_pdf])
                  Examples.example_config Examples.good_pdf Examples.fresh_world
                  eq_refl)).
Defined.

Lemma respects_upsert_batches_rows env config to_upsert :
  respects no_row_write (upsert_batches env config to_upsert).
Proof.
  intros w. unfold upsert_batches, bind, lift.
  destruct (batches config to_upsert) as [bs|e]; [|apply frame_refl].
  apply respects_for_each. intros batch _ w0. unfold pinecone_upsert.
  destruct (pinecone_accepts env _ _ _); cbn [snd];
    (split; [reflexivity|now apply extends_trace_log]).
Qed.

Lemma process_pdf_without_supabase_key env config pdf_path :
  supabase_url (settings env) = "" \/ supabase_key (settings env) = "" ->
  respects no_row_write (_process_pdf env config pdf_path).
Proof.
  intros Hkey. unfold _process_pdf.
  apply respects_bind; [now apply respects_call|]. intros pages.
  apply respects_bind; [now apply respects_read_pages|]. intros read.
  destruct (chunk_iterable env (fst read)) as [|chunk chunks]; [apply respects_ret|].
  apply respects_bind; [now apply respects_fit|]. intros _.
  apply respects_bind; [now apply respects_dense_embed|]. intros dense_vectors.
  apply respects_bind; [now apply respects_sparse_embed|]. intros sparse_vectors.
  apply respects_bind; [apply respects_db_clients_pinecone|]. intros _.
  apply respects_bind; [apply respects_upsert_batches_rows|]. intros _.
  apply (respects_raised_bind _ _ (RuntimeError "Supabase credentials are missing")).
  intros w. unfold db_clients_supabase.
  destruct Hkey as [-> | ->]; [reflexivity|].
  now rewrite orb_true_r.
Qed.

(** X8. Without the credentials of the documents table no run writes a
    row or tries to, and the only documents that [_process_pdf] gets
    through are those that give no chunk. *)
Theorem no_supabase_key_no_row (env : Env) (config : IngestionConfig)
    (pdf_path : Path) (w : World) :
  supabase_url (settings env) = "" \/ supabase_key (settings env) = "" ->
  no_row_write w (snd (ingest env config w))
  /\ forall w', _process_pdf env config pdf_path w = (Ok tt, w') ->
                quiet is_parse_call w w'.
Proof.
  intros Hkey. split.
  - apply respects_ingest.
    + intros f w0. split; [reflexivity|now apply extends_trace_same].
    + intros p. now apply process_pdf_without_supabase_key.
  - intros w' Hrun.
    pose proof (respects_run no_row_write _ _ _ _
                  (process_pdf_without_supabase_key env config pdf_path Hkey) Hrun)
      as (Hdocs & _).
    apply process_pdf_ok in Hrun as [Hq|(to_upsert & bs & row & calls & H)]; [exact Hq|].
    destruct H as (_ & _ & _ & _ & _ & Hrow & _).
    rewrite Hdocs in Hrow. now apply documents_not_extended in Hrow.
Qed.

(** The theorem at a directory of two documents and settings without the key. *)
Lemma no_supabase_key_no_row_witness :
  no_row_write Examples.fresh_world
    (snd (ingest (MoreExamples.env_with_settings MoreExamples.no_supabase_key
                    [Examples.scanned_pdf; Examples.good_pdf])
            Examples.example_config Examples.fresh_world)).
Proof.
  exact (proj1 (no_supabase_key_no_row
                  (MoreExamples.env_with_settings MoreExamples.no_supabase_key
                     [Examples.scanned_pdf; Examples.good_pdf])
                  Examples.example_config Examples.good_pdf Examples.fresh_world
                  (or_intror eq_refl))).
Defined.

(** ** Duplicates and retries *)

(** X9. A file with the bytes of a file that the run has just completed
    is passed over: it is not opened, nothing is embedded or sent for
    it, and the world stays as it is. *)
Theorem same_bytes_processed_once (env : Env) (config : IngestionConfig)
    (first_path second_path : Path) (w w1 : World) :
  read_bytes env second_path = read_bytes env first_path ->
  ingest_one env config first_path w = (Ok tt, w1) ->
  ingest_one env config second_path w1 = (Ok tt, w1).
Proof.
  intros Hbytes Hrun. apply ingest_one_skips.
  unfold _digest. rewrite Hbytes.
  exact (ingest_one_ok_completed env config first_path w w1 Hrun).
Qed.

(** The theorem at two example files with the same bytes. *)
Lemma same_bytes_processed_once_witness :
  ingest_one (Examples.example_env []) Examples.example_config Examples.copy_pdf
    (snd (ingest_one (Examples.example_env []) Examples.example_config Examples.good_pdf
            Examples.fresh_world))
  = (Ok tt,
     snd (ingest_one (Examples.example_env []) Examples.example_config Examples.good_pdf
            Examples.fresh_world)).
Proof.
  apply (same_bytes_processed_once (Examples.example_env []) Examples.example_config
           Examples.good_pdf Examples.copy_pdf Examples.fresh_world).
  - reflexivity.
  - vm_compute. reflexivity.
Defined.

(** Whatever it does next, [_process_pdf] starts by opening the file. *)
Lemma process_pdf_opens_first env config pdf_path w :
  exists calls,
    trace (snd (_process_pdf env config pdf_path w)) = trace w ++ CallOpen pdf_path :: calls.
Proof.
  unfold _process_pdf. unfold bind at 1. unfold call at 1.
  destruct (fitz_open env pdf_path) as [pages|e]; [|now exists []].
  match goal with
  | |- context [snd (?m (log_call ?c w))] =>
      assert (Hrest : respects (extends_trace (fun _ => True)) m)
  end.
  { apply respects_bind; [now apply respects_read_pages|]. intros read.
    destruct (chunk_iterable env (fst read)) as [|chunk chunks]; [apply respects_ret|].
    apply respects_bind; [now apply respects_fit|]. intros _.
    apply respects_bind; [now apply respects_dense_embed|]. intros dense_vectors.
    apply respects_bind; [now apply respects_sparse_embed|]. intros sparse_vectors.
    apply respects_bind; [apply respects_db_clients_pinecone|]. intros _.
    apply respects_bind; [now apply respects_upsert_batches|]. intros _.
    apply respects_bind; [apply respects_db_clients_supabase|]. intros _.
    now apply respects_documents_upsert. }
  destruct (Hrest (log_call (CallOpen pdf_path) w)) as (calls & Htr & _).
  exists calls. rewrite Htr. simpl. now rewrite <- app_assoc.
Qed.

Lemma for_each_ingest_extends env config (pdfs : list Path) :
  respects (extends_trace (fun _ => True)) (for_each pdfs (ingest_one env config)).
Proof.
  apply respects_for_each. intros pdf_path _ w. unfold ingest_one.
  destruct (bool_decide _); [apply extends_trace_refl|].
  revert w. apply respects_bind.
  { intros w. now apply extends_trace_same. }
  intros _. apply respects_bind.
  { apply respects_process_pdf; auto. }
  intros _ w. now apply extends_trace_same.
Qed.

(** X10. A run that raised on a document leaves it [processing]. The
    next run, by a new process that reads the checkpoint file, passes
    over the documents completed before it and starts again on that
    document from the beginning: the first call it makes opens its
    file. *)
Theorem failed_document_is_retried (env : Env) (config : IngestionConfig)
    (before after : list Path) (pdf_path : Path) (e : Exn) (w w1 w2 : World) :
  _iter_pdfs env = before ++ pdf_path :: after ->
  for_each before (ingest_one env config) w = (Ok tt, w1) ->
  ingest_one env config pdf_path w1 = (Raise e, w2) ->
  exists calls,
    trace (snd (main env config w2)) = trace w2 ++ CallOpen pdf_path :: calls.
Proof.
  intros Hlist Hbefore Hraise.
  apply ingest_one_raises in Hraise as (Hnot & Hproc & Hst).
  pose proof (respects_run same_tracker _ _ _ _
                (process_pdf_same_tracker env config pdf_path) Hproc) as Hsame.
  unfold same_tracker in Hsame. simpl in Hsame.
  assert (Hs : synced w2) by (unfold synced; now rewrite Hsame).
  assert (Hdone : forall q, In q before ->
            StateTracker.status_of (_digest env q) (tracker w2) = Some "completed").
  { intros q Hq.
    pose proof (for_each_ok_all_completed _ _ _ _ _ Hbefore q Hq) as Hq1.
    rewrite Hsame, status_of_mark_ne; [exact Hq1|].
    intros Heq. rewrite Heq in Hq1. contradiction. }
  unfold main, bind. rewrite (init_of_synced _ Hs).
  unfold ingest. rewrite Hlist, for_each_app, (for_each_all_skipped _ _ _ _ Hdone).
  cbn [for_each]. unfold bind at 1.
  assert (Hnot2 : StateTracker.status_of (_digest env pdf_path) (tracker w2)
                  <> Some "completed") by (rewrite Hst; discriminate).
  rewrite (ingest_one_processes _ _ _ _ Hnot2).
  match goal with
  | |- context [_process_pdf env config pdf_path ?w0] =>
      destruct (process_pdf_opens_first env config pdf_path w0) as (calls & Hopen);
      destruct (_process_pdf env config pdf_path w0) as [[[]|e'] w3]
  end; simpl in Hopen.
  - match goal with
    | |- context [for_each after ?f ?w4] =>
        destruct (for_each_ingest_extends env config after w4) as (more & Hmore & _)
    end.
    exists (calls ++ more). rewrite Hmore. simpl. rewrite Hopen.
    now rewrite <- app_assoc.
  - exists calls. exact Hopen.
Qed.

(** The theorem at a directory whose second document cannot be opened. *)
Lemma failed_document_is_retried_witness :
  exists calls,
    trace
      (snd (main (Examples.example_env [Examples.good_pdf; Examples.broken_pdf])
              Examples.example_config
              (snd (ingest (Examples.example_env [Examples.good_pdf; Examples.broken_pdf])
                      Examples.example_config Examples.fresh_world))))
    = trace
        (snd (ingest (Examples.example_env [Examples.good_pdf; Examples.broken_pdf])
                Examples.example_config Examples.fresh_world))
      ++ CallOpen Examples.broken_pdf :: calls.
Proof.
  apply (failed_document_is_retried
           (Examples.example_env [Examples.good_pdf; Examples.broken_pdf])
           Examples.example_config [] [Examples.good_pdf] Examples.broken_pdf
           FileDataError Examples.fresh_world Examples.fresh_world).
  - vm_compute. reflexivity.
  - reflexivity.
  - vm_compute. reflexivity.
Defined.

(** X13. At the end of every run of the entry point, gone through or
    ended by an exception, the checkpoint file holds the map the run
    ended with: a new process loads exactly that map. *)
Theorem checkpoint_file_in_step (env : Env) (config : IngestionConfig) (w : World) :
  synced (snd (main env config w))
  /\ init (snd (main env config w)) = (Ok tt, snd (main env config w)).
Proof.
  assert (Hs : synced (snd (main env config w))).
  { unfold main, bind. simpl.
    destruct (ingest env config _) as [r w1] eqn:Hrun.
    eapply for_each_synced; [exact Hrun|].
    exact (init_synced w). }
  split; [exact Hs|now apply init_of_synced].
Qed.

(** ** Pages, images and chunks *)

Lemma analyze_images_skipped env config pdf_path doc_id page_number img_index imgs
    image_metadata w :
  vision_analyzer env = None \/ (forall xref, pixmap_saved env pdf_path xref = false) ->
  analyze_images env config pdf_path doc_id page_number img_index imgs image_metadata w
  = (Ok image_metadata, w).
Proof.
  intros Hskip. revert img_index.
  induction imgs as [|xref imgs IH]; intros img_index; simpl; [reflexivity|].
  unfold _export_image.
  destruct Hskip as [Hnone|Hfail].
  - rewrite Hnone. destruct (pixmap_saved env pdf_path xref); apply IH.
  - rewrite Hfail. apply IH.
Qed.

(** X11. When there is no vision analyzer, or when no image of the
    document can be exported, reading the pages makes no call and
    describes no image: the world is untouched and the list of image
    descriptions is the one it started with. When it returns, it
    returns the texts of the pages in page order. *)
Theorem pages_read_without_images (env : Env) (config : IngestionConfig)
    (pdf_path : Path) (doc_id : string) (pages : list Page) (page_number : nat)
    (text_pages : list string) (image_metadata : list ImageMetadata) (w : World) :
  vision_analyzer env = None \/ (forall xref, pixmap_saved env pdf_path xref = false) ->
  snd (read_pages env config pdf_path doc_id page_number pages text_pages image_metadata w)
  = w
  /\ forall texts images,
       fst (read_pages env config pdf_path doc_id page_number pages text_pages
              image_metadata w) = Ok (texts, images) ->
       images = image_metadata
       /\ exists page_texts,
            texts = text_pages ++ page_texts
            /\ Forall2 (fun page t => get_text page = Ok t) pages page_texts.
Proof.
  intros Hskip. revert page_number text_pages.
  induction pages as [|page pages IH]; intros page_number text_pages; simpl.
  - split; [reflexivity|]. intros texts images [= <- <-]. split; [reflexivity|].
    exists []. split; [now rewrite app_nil_r|constructor].
  - unfold bind, lift.
    destruct (get_text page) as [t|e] eqn:Ht; [|split; [reflexivity|discriminate]].
    destruct (get_images page) as [imgs|e]; [|split; [reflexivity|discriminate]].
    rewrite (analyze_images_skipped _ _ _ _ _ _ _ _ _ Hskip).
    destruct (IH (S page_number) (text_pages ++ [t])) as [Hw Hres].
    split; [exact Hw|]. intros texts images Hrun.
    destruct (Hres texts images Hrun) as (Himg & page_texts & Htexts & Hall).
    split; [exact Himg|]. exists (t :: page_texts).
    split; [now rewrite Htexts, <- app_assoc|]. now constructor.
Qed.

(** The theorem at the example document of two blank pages. *)
Lemma pages_read_without_images_witness :
  read_pages (Examples.example_env []) Examples.example_config Examples.scanned_pdf "scan" 1
    [Examples.blank_page; Examples.blank_page] [] [] Examples.fresh_world
  = (Ok (["" ; ""], []), Examples.fresh_world).
Proof.
  destruct (pages_read_without_images (Examples.example_env []) Examples.example_config
              Examples.scanned_pdf "scan" [Examples.blank_page; Examples.blank_page] 1
              [] [] Examples.fresh_world (or_introl eq_refl)) as [Hw _].
  rewrite (surjective_pairing (read_pages _ _ _ _ _ _ _ _ _)), Hw. reflexivity.
Defined.

Lemma chunk_iterable_fold env (pages chunks : list string) :
  foldl (fun chunks page => chunks ++ chunk_text env page) chunks pages
  = chunks ++ concat (map (chunk_text env) pages).
Proof.
  revert chunks. induction pages as [|page pages IH]; intros chunks; simpl.
  - now rewrite app_nil_r.
  - now rewrite IH, <- app_assoc.
Qed.

(** X12. The chunks of a document are the chunks of its pages put end
    to end in page order: the chunks of two runs of pages are those of
    the first run followed by those of the second, a chunk belongs to
    the document exactly when the splitter gives it for one of the
    pages, and a page for which the splitter gives nothing (an empty
    page) adds nothing. *)
Theorem chunks_follow_the_pages (env : Env) (pages more_pages : list string) :
  chunk_iterable env pages = concat (map (chunk_text env) pages)
  /\ chunk_iterable env (pages ++ more_pages)
     = chunk_iterable env pages ++ chunk_iterable env more_pages
  /\ (forall chunk,
        In chunk (chunk_iterable env pages)
        <-> exists page, In page pages /\ In chunk (split_text env page))
  /\ (forall page, split_text env page = [] ->
        chunk_iterable env (pages ++ page :: more_pages)
        = chunk_iterable env (pages ++ more_pages)).
Proof.
  assert (Hcat : forall ps, chunk_iterable env ps = concat (map (chunk_text env) ps)).
  { intros ps. unfold chunk_iterable. now rewrite chunk_iterable_fold. }
  split; [apply Hcat|]. split; [|split].
  - now rewrite !Hcat, map_app, concat_app.
  - intros chunk. rewrite Hcat, in_concat. split.
    + intros (l & Hl & Hin). apply in_map_iff in Hl as (page & <- & Hpage). eauto.
    + intros (page & Hpage & Hin). exists (chunk_text env page).
      split; [now apply in_map|exact Hin].
  - intros page Hempty. rewrite !Hcat, !map_app, !concat_app. simpl.
    unfold chunk_text at 2. now rewrite Hempty.
Qed.

(** ** What a match looks like *)

Lemma match_repeat_sound {X} (rest_of : X -> list ascii) (Q : list ascii -> Prop)
    cls lo hi prev s (k : option ascii -> list ascii -> option X) r :
  (forall p s' r', k p s' = Some r' -> exists m, s' = m ++ rest_of r' /\ Q m) ->
  match_repeat cls lo hi prev s k = Some r ->
  exists piece more,
    s = piece ++ more ++ rest_of r
    /\ Forall (fun a => cls a = true) piece
    /\ (lo <= length piece)%nat
    /\ match hi with Some h => (length piece <= h)%nat | None => True end
    /\ Q more.
Proof.
  intros Hk. revert lo hi prev.
  assert (Hstop : forall lo hi prev s0,
             match lo with 0%nat => k prev s0 | S _ => None end = Some r ->
             exists piece more,
               s0 = piece ++ more ++ rest_of r
               /\ Forall (fun a => cls a = true) piece
               /\ (lo <= length piece)%nat
               /\ match hi with Some h => (length piece <= h)%nat | None => True end
               /\ Q more).
  { intros lo hi prev s0 H. destruct lo; [|discriminate].
    apply Hk in H as (m & -> & Hm). exists [], m.
    repeat split; auto. destruct hi; simpl; [lia|exact I]. }
  induction s as [|a s IH]; intros lo hi prev; simpl; [apply Hstop|].
  destruct (cls a) eqn:Ha; simpl; [|apply Hstop].
  destruct (hi_allows hi) eqn:Hhi; [|apply Hstop].
  destruct (match_repeat cls (Nat.pred lo) (hi_pred hi) (Some a) s k) as [r0|] eqn:Hrec;
    [|apply Hstop].
  intros [= <-]. apply IH in Hrec as (piece & more & -> & Hall & Hlo & Hbound & Hmore).
  exists (a :: piece), more. repeat split; auto.
  - simpl. lia.
  - destruct hi as [[|h]|]; simpl in *; try discriminate; [lia|exact I].
Qed.

Lemma match_here_sound re prev s rest :
  match_here re prev s = Some rest ->
  exists m, s = m ++ rest /\ matches_shape re m.
Proof.
  revert prev s rest.
  induction re as [|[|cls lo hi] re IH]; intros prev s rest; simpl.
  - intros [= <-]. now exists [].
  - destruct (at_boundary prev s); [apply IH|discriminate].
  - intros H.
    apply (match_repeat_sound (fun r => r) (matches_shape re)) in H
      as (piece & more & -> & Hall & Hlo & Hhi & Hmore); [|intros p s' r'; apply IH].
    exists (piece ++ more). split; [now rewrite app_assoc|].
    exists piece, more. auto.
Qed.

Lemma findall_from_sound re prev s skip x :
  In x (findall_from re prev s skip) ->
  exists m before after,
    x = string_of_list_ascii m /\ matches_shape re m /\ s = before ++ m ++ after.
Proof.
  revert prev skip.
  induction s as [|a s IH]; intros prev skip; [intros []|].
  cbn [findall_from].
  assert (Hlater : forall p k, In x (findall_from re p s k) ->
            exists m before after,
              x = string_of_list_ascii m /\ matches_shape re m
              /\ a :: s = before ++ m ++ after).
  { intros p k H. apply IH in H as (m & before & after & Hx & Hm & ->).
    now exists m, (a :: before), after. }
  destruct skip as [|n]; [|apply Hlater].
  destruct (match_here re prev (a :: s)) as [rest|] eqn:Hm; [|apply Hlater].
  intros [<-|Hin]; [|eapply Hlater; eassumption].
  apply match_here_sound in Hm as (m & Hs & Hshape).
  exists m, [], rest. rewrite Hs. split; [|now split].
  f_equal. rewrite length_app.
  replace (length m + length rest - length rest)%nat with (length m) by lia.
  now rewrite take_app_length.
Qed.

Lemma extractor_sound re text x :
  In x (py_sorted String.leb (remove_dups (findall re text))) ->
  matches_shape re (list_ascii_of_string x) /\ occurs_in x text.
Proof.
  intros H. apply (proj1 (proj2 (sorted_set_spec _) _)) in H.
  apply findall_from_sound in H as (m & before & after & -> & Hshape & Htext).
  unfold occurs_in. rewrite list_ascii_of_string_of_list_ascii. eauto.
Qed.

(** X15. Every part number the extractor returns stands in the text as
    it is returned, and is made of three to five characters of
    [[A-Z0-9]], then at most one hyphen, then three to six characters of
    [[A-Z0-9]]. Every model number it returns stands in the text too,
    and is made of at least three characters of [[A-Z0-9]], one hyphen,
    and at least three characters of [[A-Z0-9/]]. *)
Theorem extracted_tokens_are_in_the_text (text token : string) :
  (In token (extract_part_numbers text) ->
   occurs_in token text
   /\ exists head sep tail,
        list_ascii_of_string token = head ++ sep ++ tail
        /\ Forall (fun a => upper_or_digit a = true) head
        /\ (3 <= length head <= 5)%nat
        /\ (sep = [] \/ sep = ["-"%char])
        /\ Forall (fun a => upper_or_digit a = true) tail
        /\ (3 <= length tail <= 6)%nat)
  /\ (In token (extract_model_numbers text) ->
      occurs_in token text
      /\ exists head tail,
           list_ascii_of_string token = head ++ "-"%char :: tail
           /\ Forall (fun a => upper_or_digit a = true) head
           /\ (3 <= length head)%nat
           /\ Forall (fun a => upper_digit_or_slash a = true) tail
           /\ (3 <= length tail)%nat).
Proof.
  assert (Hhyphen : forall piece, Forall (fun a => hyphen a = true) piece ->
            piece = repeat "-"%char (length piece)).
  { induction 1 as [|a piece Ha _ IH]; simpl; [reflexivity|].
    unfold hyphen in Ha. apply Ascii.eqb_eq in Ha. subst a. now f_equal. }
  split; intros H; apply extractor_sound in H as [Hshape Hocc]; (split; [exact Hocc|]);
    simpl in Hshape.
  - destruct Hshape as (head & m1 & -> & Hhead & Hlo1 & Hhi1
                        & sep & m2 & -> & Hsep & _ & Hhi2
                        & tail & m3 & -> & Htail & Hlo3 & Hhi3 & ->).
    exists head, sep, tail. rewrite app_nil_r.
    repeat split; try assumption.
    apply Hhyphen in Hsep. destruct sep as [|a [|b sep]]; simpl in *; try lia.
    + now left.
    + right. injection Hsep as ->. reflexivity.
  - destruct Hshape as (head & m1 & -> & Hhead & Hlo1 & _
                        & sep & m2 & -> & Hsep & Hlo2 & Hhi2
                        & tail & m3 & -> & Htail & Hlo3 & _ & ->).
    exists head, tail. rewrite app_nil_r.
    apply Hhyphen in Hsep. destruct sep as [|a [|b sep]]; simpl in *; try lia.
    injection Hsep as ->. repeat split; assumption.
Qed.

(** ** Citations *)

(** X14. A citation made from a retrieval result keeps the result's
    summary when it has a non-empty one; otherwise its summary is the
    first 280 characters of the matched text, so it is empty only when
    the text is. For a document that came without metadata the citation
    carries the document's own id, the source ["pinecone"], no page
    number, no appliance type and no part numbers. *)
Theorem citation_summary_and_defaults (r : RetrievalResult) (d : Document) :
  (forall s, res_summary r = Some s -> s <> "" -> chunk_summary (to_model r) = s)
  /\ (res_summary r = None \/ res_summary r = Some "" ->
      chunk_summary (to_model r) = str_prefix 280 (res_text r)
      /\ (String.length (chunk_summary (to_model r)) <= 280)%nat
      /\ exists rest, res_text r = chunk_summary (to_model r) +:+ rest)
  /\ (chunk_summary (to_model r) = "" -> res_text r = "")
  /\ (doc_meta d = None ->
      to_model (_to_result d)
      = {| chunk_document_id := doc_id d;
           chunk_source := "pinecone";
           chunk_page_number := None;
           chunk_appliance_type := None;
           chunk_summary := str_prefix 280 (doc_content d);
           chunk_part_numbers := [] |}).
Proof.
  assert (Hfall : res_summary r = None \/ res_summary r = Some "" ->
                  chunk_summary (to_model r) = str_prefix 280 (res_text r)).
  { unfold to_model. simpl. now intros [-> | ->]. }
  split; [|split; [|split]].
  - intros s Hs Hne. unfold to_model. simpl. rewrite Hs.
    destruct (String.eqb_spec s ""); [contradiction|reflexivity].
  - intros H. rewrite (Hfall H). split; [reflexivity|].
    split; [rewrite str_prefix_length; lia|apply str_prefix_is_prefix].
  - unfold to_model. simpl.
    assert (Hprefix : str_prefix 280 (res_text r) = "" -> res_text r = "").
    { unfold str_prefix. destruct (res_text r); [reflexivity|discriminate]. }
    destruct (res_summary r) as [s|]; [|exact Hprefix].
    destruct (String.eqb_spec s ""); [exact Hprefix|]. intros ->. contradiction.
  - intros Hmeta. unfold to_model, _to_result, meta_get. simpl. now rewrite Hmeta.
Qed.

(** * The conversational layer *)

Import Conversation.

(** ** The local window *)

Lemma slice_from_window {A} (h : list A) (window : Z) :
  (0 < window)%Z ->
  slice_from h (- window) = drop (length h - Z.to_nat window) h.
Proof.
  intros Hw. unfold slice_from.
  destruct (Z.ltb_spec (- window) 0) as [_|]; [|lia].
  f_equal. lia.
Qed.

Lemma slice_from_zero {A} (h : list A) : slice_from h 0 = h.
Proof.
  unfold slice_from. simpl.
  replace (Z.to_nat (Z.min 0 (Z.of_nat (length h)))) with 0%nat by lia.
  reflexivity.
Qed.

Lemma supabase_missing (env : Env) (w : World) :
  no_supabase env ->
  supabase env w = (Raise (RuntimeError "Supabase credentials are missing"), w).
Proof.
  intros H. unfold supabase.
  destruct H as [-> | ->]; simpl; [reflexivity|].
  now rewrite orb_true_r.
Qed.

Lemma fetch_local (env : Env) (window : Z) (session : string) (w : World) :
  no_supabase env ->
  fetch env window session w = _fetch_local window session w.
Proof.
  intros H. unfold fetch, try_except, bind.
  now rewrite supabase_missing.
Qed.

Lemma append_local (env : Env) (session role content : string) (w : World) :
  no_supabase env ->
  append env session role content w = _append_local session (role, content) w.
Proof.
  intros H. unfold append, try_except, bind, _ensure_conversation, try_except, bind.
  rewrite supabase_missing by assumption. unfold ret.
  now rewrite supabase_missing.
Qed.

(** X16. Without Supabase credentials [fetch] answers from the local
    store and calls nothing: a positive window gives the last [window]
    items of the session's history, all of it when it is shorter; a
    window of zero gives the whole history, not an empty one. *)
Theorem fetch_window_of_local_history
    (env : Env) (window : Z) (session : string) (w : World) :
  no_supabase env ->
  (0 <= window)%Z ->
  fetch env window session w
  = (Ok (if (window =? 0)%Z then history_of w session
         else drop (length (history_of w session) - Z.to_nat window)
                (history_of w session)),
     w).
Proof.
  intros Hs Hw. rewrite fetch_local by assumption.
  unfold _fetch_local, history_of.
  destruct (Z.eqb_spec window 0) as [-> | Hne].
  - destruct (from_option _ _) as [|x h] eqn:E; [reflexivity|].
    now rewrite <- E, slice_from_zero.
  - destruct (from_option _ _) as [|x h] eqn:E.
    + now rewrite drop_nil.
    + rewrite <- E. now rewrite slice_from_window by lia.
Qed.

Lemma fetch_window_of_local_history_witness :
  fetch ConversationExamples.offline_env 2 "s1" ConversationExamples.world_with_talk
  = (Ok [("user", "RF28"); ("assistant", "Check the defrost heater")],
     ConversationExamples.world_with_talk)
  /\ fetch ConversationExamples.offline_env 0 "s1" ConversationExamples.world_with_talk
     = (Ok ConversationExamples.talk, ConversationExamples.world_with_talk).
Proof.
  split.
  - exact (fetch_window_of_local_history ConversationExamples.offline_env 2 "s1"
             ConversationExamples.world_with_talk (or_introl eq_refl)
             ltac:(vm_compute; discriminate)).
  - exact (fetch_window_of_local_history ConversationExamples.offline_env 0 "s1"
             ConversationExamples.world_with_talk (or_introl eq_refl)
             ltac:(vm_compute; discriminate)).
Defined.

(** ** Appending, then fetching *)

Lemma history_of_append_same (env : Env) (session role content : string) (w : World) :
  no_supabase env ->
  history_of (snd (append env session role content w)) session
  = history_of w session ++ [(role, content)].
Proof.
  intros H. rewrite append_local by assumption.
  unfold _append_local, history_of. simpl.
  now rewrite lookup_insert_eq.
Qed.

Lemma history_of_append_other
    (env : Env) (session other role content : string) (w : World) :
  no_supabase env ->
  other <> session ->
  history_of (snd (append env session role content w)) other = history_of w other.
Proof.
  intros H Hne. rewrite append_local by assumption.
  unfold _append_local, history_of. simpl.
  now rewrite lookup_insert_ne by congruence.
Qed.

Lemma fetch_local_result (env : Env) (window : Z) (session : string) (w : World) :
  no_supabase env ->
  fst (fetch env window session w)
  = Ok (match history_of w session with
        | [] => []
        | _ :: _ => slice_from (history_of w session) (- window)
        end).
Proof.
  intros H. rewrite fetch_local by assumption.
  unfold _fetch_local, history_of.
  now destruct (from_option _ _).
Qed.

(** X17. Without Supabase credentials a message appended to a session
    is the last item of the next fetch of that session, whatever the
    positive window, preceded by the end of the history the session had;
    the fetch of any other session is what it was. *)
Theorem appended_message_is_fetched_last
    (env : Env) (window : Z) (session other role content : string) (w : World) :
  no_supabase env ->
  (0 < window)%Z ->
  other <> session ->
  let w' := snd (append env session role content w) in
  fst (fetch env window session w')
  = Ok (drop (S (length (history_of w session)) - Z.to_nat window) (history_of w session)
        ++ [(role, content)])
  /\ fst (fetch env window other w') = fst (fetch env window other w).
Proof.
  intros Hs Hw Hne w'. subst w'. split.
  - rewrite fetch_local_result by assumption.
    rewrite history_of_append_same by assumption.
    destruct (history_of w session ++ [(role, content)]) as [|x l] eqn:E.
    { now destruct (history_of w session). }
    rewrite <- E. rewrite slice_from_window by assumption.
    rewrite length_app. simpl.
    replace (length (history_of w session) + 1 - Z.to_nat window)%nat
      with (S (length (history_of w session)) - Z.to_nat window)%nat by lia.
    rewrite drop_app.
    replace (S (length (history_of w session)) - Z.to_nat window
             - length (history_of w session))%nat with 0%nat by lia.
    reflexivity.
  - rewrite !fetch_local_result by assumption.
    now rewrite history_of_append_other by assumption.
Qed.

Lemma appended_message_is_fetched_last_witness :
  fst (fetch ConversationExamples.offline_env 2 "s1"
         (snd (append ConversationExamples.offline_env "s1" "user" "Thanks"
                 ConversationExamples.world_with_talk)))
  = Ok [("assistant", "Check the defrost heater"); ("user", "Thanks")]
  /\ fst (fetch ConversationExamples.offline_env 2 "s2"
            (snd (append ConversationExamples.offline_env "s1" "user" "Thanks"
                    ConversationExamples.world_with_talk)))
     = Ok [].
Proof.
  exact (appended_message_is_fetched_last ConversationExamples.offline_env 2 "s1" "s2"
           "user" "Thanks" ConversationExamples.world_with_talk (or_introl eq_refl)
           ltac:(vm_compute; reflexivity) ltac:(discriminate)).
Defined.

(** ** Where a message goes *)

Lemma supabase_present (env : Env) (w : World) :
  ~ no_supabase env -> supabase env w = (Ok tt, w).
Proof.
  intros H. unfold supabase, no_supabase in *.
  destruct (String.eqb_spec (supabase_url (settings env)) "") as [E|_]; [tauto|].
  destruct (String.eqb_spec (supabase_key (settings env)) "") as [E|_]; [tauto|].
  reflexivity.
Qed.

Lemma no_supabase_dec (env : Env) : {no_supabase env} + {~ no_supabase env}.
Proof.
  unfold no_supabase.
  destruct (String.eqb_spec (supabase_url (settings env)) "");
    destruct (String.eqb_spec (supabase_key (settings env)) ""); tauto.
Qed.

(** X18. [append] never raises and keeps a message in one place only.
    With Supabase credentials it upserts the conversation, then inserts
    the message, whether the upsert worked or not; when the insert
    succeeds the local store is left as it is. In every other case, and
    only then, the message is added at the end of the session's local
    history. *)
Theorem append_stores_the_message_once
    (env : Env) (session role content : string) (w : World) :
  let result := append env session role content w in
  fst result = Ok tt
  /\ ((~ no_supabase env
       /\ insert_message env (S (length (calls w))) session role content = Ok tt
       /\ _local_memory_store (snd result) = _local_memory_store w
       /\ calls (snd result)
          = calls w ++ [UpsertConversation session; InsertMessage session role content])
      \/ ((no_supabase env
           \/ exists e, insert_message env (S (length (calls w))) session role content
                        = Raise e)
          /\ _local_memory_store (snd result)
             = <[session := history_of w session ++ [(role, content)]]>
                 (_local_memory_store w))).
Proof.
  intros result. subst result.
  destruct (no_supabase_dec env) as [Hn|Hp].
  - rewrite append_local by assumption. split; [reflexivity|].
    right. split; [now left|reflexivity].
  - unfold append, try_except, bind, _ensure_conversation, try_except, bind, remote, ret.
    rewrite supabase_present by assumption.
    assert (Hlen : length (calls (log (UpsertConversation session) w))
                   = S (length (calls w))).
    { simpl. rewrite length_app. simpl. lia. }
    destruct (upsert_conversation env (length (calls w)) session) as [[]|e0];
      rewrite supabase_present by assumption; rewrite Hlen;
      destruct (insert_message env (S (length (calls w))) session role content)
        as [[]|e] eqn:E; simpl.
    all: split; [reflexivity|].
    1,3: left; repeat split; try assumption; now rewrite <- app_assoc.
    all: right; split; [right; now exists e|reflexivity].
Qed.

(** ** The tools *)

Lemma bind_unfold {A B} (m : AM A) (k : A -> AM B) (w : World) :
  bind m k w
  = match m w with
    | (Ok a, w') => k a w'
    | (Raise e, w') => (Raise e, w')
    end.
Proof. reflexivity. Qed.

Lemma length_calls_log (c : Call) (w : World) :
  length (calls (log c w)) = S (length (calls w)).
Proof. simpl. rewrite length_app. simpl. lia. Qed.

Lemma google_configured (env : Env) :
  google_search_api_key (tool_settings env) <> "" ->
  google_search_cx (tool_settings env) <> "" ->
  String.eqb (google_search_api_key (tool_settings env)) ""
  || String.eqb (google_search_cx (tool_settings env)) "" = false.
Proof.
  intros H1 H2.
  destruct (String.eqb_spec (google_search_api_key (tool_settings env)) ""); [tauto|].
  destruct (String.eqb_spec (google_search_cx (tool_settings env)) ""); [tauto|].
  reflexivity.
Qed.

(** X19. When Google is configured and its answer fails, [search]
    raises that failure after the one request to Google: Bing is not
    queried, whether its key is set or not. The request carries the
    query followed by the filter on the trusted sites. *)
Theorem google_failure_stops_search
    (env : Env) (query : string) (w : World) (e : Exn) :
  google_search_api_key (tool_settings env) <> "" ->
  google_search_cx (tool_settings env) <> "" ->
  get_google env (length (calls w)) (query +:+ " (" +:+ trusted_sites +:+ ")") = Raise e ->
  search env query w
  = (Raise e, log (GetGoogle (query +:+ " (" +:+ trusted_sites +:+ ")")) w).
Proof.
  intros H1 H2 He.
  unfold search, _google_search. rewrite google_configured by assumption.
  unfold bind, remote. now rewrite He.
Qed.

Lemma google_failure_stops_search_witness :
  search ConversationExamples.degraded_env "door gasket" ConversationExamples.empty_world
  = (Raise (ValueError "Expecting value"),
     log (GetGoogle ("door gasket" +:+ " (" +:+ trusted_sites +:+ ")"))
       ConversationExamples.empty_world).
Proof.
  exact (google_failure_stops_search ConversationExamples.degraded_env "door gasket"
           ConversationExamples.empty_world (ValueError "Expecting value")
           ltac:(discriminate) ltac:(discriminate) eq_refl).
Defined.




(** *** The vision tool *)

Lemma post_images_outcome (env : Env) (ids : list string) :
  forall (responses : list Conversation.Item) (w : World),
  let result := post_images env ids responses w in
  exists n,
    (n <= length ids)%nat
    /\ calls (snd result) = calls w ++ map PostGemini (take n ids)
    /\ match fst result with
       | Ok out =>
           n = length ids
           /\ exists answers,
                out = responses ++ answers
                /\ length answers = length ids
                /\ forall i image_id answer,
                     ids !! i = Some image_id -> answers !! i = Some answer ->
                     post_gemini env (length (calls w) + i) image_id = Ok answer
       | Raise e =>
           exists image_id,
             (0 < n)%nat /\ ids !! (n - 1)%nat = Some image_id
             /\ post_gemini env (length (calls w) + (n - 1)) image_id = Raise e
       end.
Proof.
  induction ids as [|image_id ids IH]; intros responses w; simpl.
  - exists 0%nat. simpl. rewrite app_nil_r. repeat split; try lia.
    exists []. rewrite app_nil_r. repeat split.
    intros i ? ? Hi. now rewrite lookup_nil in Hi.
  - rewrite bind_unfold. unfold remote.
    destruct (post_gemini env (length (calls w)) image_id) as [resp|e] eqn:E.
    + specialize (IH (responses ++ [resp]) (log (PostGemini image_id) w)).
      simpl in IH. destruct IH as (n & Hn & Hcalls & Hres).
      exists (S n). split; [lia|]. split.
      { rewrite Hcalls. simpl. now rewrite <- app_assoc. }
      destruct (fst (post_images env ids _ _)) as [out|e'].
      * destruct Hres as (-> & answers & -> & Hlen & Hans).
        split; [reflexivity|]. exists (resp :: answers).
        split; [now rewrite <- app_assoc|]. split; [simpl; lia|].
        intros [|i] id answer Hid Hanswer; simpl in *.
        -- injection Hid as <-. injection Hanswer as <-.
           now rewrite Nat.add_0_r.
        -- specialize (Hans i id answer Hid Hanswer).
           rewrite length_app in Hans. simpl in Hans.
           now replace (length (calls w) + S i)%nat
             with (length (calls w) + 1 + i)%nat by lia.
      * destruct Hres as (id & Hpos & Hid & He). exists id.
        split; [lia|]. split.
        { destruct n as [|n]; [lia|]. simpl in *.
          now rewrite Nat.sub_0_r in Hid. }
        rewrite length_app in He. simpl in He.
        now replace (length (calls w) + (S n - 1))%nat
          with (length (calls w) + 1 + (n - 1))%nat by lia.
    + exists 1%nat. simpl. split; [lia|]. split; [now destruct ids|].
      exists image_id. split; [lia|]. split; [reflexivity|].
      now rewrite Nat.add_0_r.
Qed.

(** X21. With a Gemini key [describe_images] posts one request per
    image id, in the order of the ids, and stops at the first request
    that fails. When none fails it returns one answer per id, in the
    same order; when one fails it raises that failure, and the answers
    received before are lost. *)
Theorem describe_images_one_post_per_id
    (env : Env) (ids : list string) (w : World) :
  gemini_api_key (tool_settings env) <> "" ->
  let result := describe_images env ids w in
  exists n,
    (n <= length ids)%nat
    /\ calls (snd result) = calls w ++ map PostGemini (take n ids)
    /\ match fst result with
       | Ok out =>
           n = length ids /\ length out = length ids
           /\ forall i image_id answer,
                ids !! i = Some image_id -> out !! i = Some answer ->
                post_gemini env (length (calls w) + i) image_id = Ok answer
       | Raise e =>
           exists image_id,
             (0 < n)%nat /\ ids !! (n - 1)%nat = Some image_id
             /\ post_gemini env (length (calls w) + (n - 1)) image_id = Raise e
       end.
Proof.
  intros Hkey result. subst result. unfold describe_images.
  destruct (String.eqb_spec (gemini_api_key (tool_settings env)) "") as [E|_];
    [contradiction|].
  destruct (post_images_outcome env ids [] w) as (n & Hn & Hcalls & Hres).
  exists n. split; [assumption|]. split; [assumption|].
  destruct (fst (post_images env ids [] w)) as [out|e]; [|assumption].
  destruct Hres as (-> & answers & -> & Hlen & Hans). simpl.
  repeat split; assumption.
Qed.

Lemma describe_images_one_post_per_id_witness :
  exists n,
    (n <= 3)%nat
    /\ calls (snd (describe_images ConversationExamples.degraded_env
                     ["img-1"; "img-2"; "img-3"] ConversationExamples.empty_world))
       = [] ++ map PostGemini (take n ["img-1"; "img-2"; "img-3"])
    /\ match fst (describe_images ConversationExamples.degraded_env
                    ["img-1"; "img-2"; "img-3"] ConversationExamples.empty_world) with
       | Ok out =>
           n = 3%nat /\ length out = 3%nat
           /\ forall i image_id answer,
                ["img-1"; "img-2"; "img-3"] !! i = Some image_id ->
                out !! i = Some answer ->
                post_gemini ConversationExamples.degraded_env (0 + i) image_id = Ok answer
       | Raise e =>
           exists image_id,
             (0 < n)%nat /\ ["img-1"; "img-2"; "img-3"] !! (n - 1)%nat = Some image_id
             /\ post_gemini ConversationExamples.degraded_env (0 + (n - 1)) image_id
                = Raise e
       end.
Proof.
  exact (describe_images_one_post_per_id ConversationExamples.degraded_env
           ["img-1"; "img-2"; "img-3"] ConversationExamples.empty_world
           ltac:(discriminate)).
Defined.

(** *** The router *)

(** X22. The events of [route] are named by the metadata alone: a
    [vision] event when [image_ids] is a list with an element, then a
    [web_search] event when [requires_search] is true as a condition,
    in this order and no other event. Without metadata, [route] calls
    no tool and returns no event. *)
Theorem route_events_named_by_metadata
    (env : Env) (msg : string) (md : option Metadata) (w : World) :
  match fst (route env msg md w) with
  | Ok events =>
      map name events
      = (if has_image_ids (from_option md empty_metadata) then ["vision"] else [])
        ++ (if flag (md_requires_search (from_option md empty_metadata))
            then ["web_search"] else [])
  | Raise _ => True
  end
  /\ (md = None \/ md = Some empty_metadata -> route env msg md w = (Ok [], w)).
Proof.
  split.
  - unfold route. rewrite bind_unfold.
    destruct (has_image_ids (from_option md empty_metadata)).
    + rewrite bind_unfold.
      destruct (describe_images env _ w) as [[out|e] w1]; [|exact I].
      unfold ret at 1.
      destruct (flag _); [|reflexivity].
      rewrite bind_unfold.
      destruct (search env msg w1) as [[res|e] w2]; [|exact I].
      reflexivity.
    + unfold ret at 1.
      destruct (flag _); [|reflexivity].
      rewrite bind_unfold.
      destruct (search env msg w) as [[res|e] w2]; [|exact I].
      reflexivity.
  - now intros [-> | ->].
Qed.

(** ** Frame rules of the conversational layer *)

Lemma continues_refl (P : Call -> bool) (w : World) : continues P w w.
Proof. exists []. now rewrite app_nil_r. Qed.

Lemma continues_trans (P : Call -> bool) (w1 w2 w3 : World) :
  continues P w1 w2 -> continues P w2 w3 -> continues P w1 w3.
Proof.
  intros (l1 & E1 & H1) (l2 & E2 & H2). exists (l1 ++ l2). split.
  - now rewrite E2, E1, <- app_assoc.
  - rewrite forallb_app. now rewrite H1, H2.
Qed.

Lemma continues_log (P : Call -> bool) (c : Call) (w : World) :
  P c = true -> continues P w (log c w).
Proof. intros H. exists [c]. split; [reflexivity|]. simpl. now rewrite H. Qed.

#[local] Instance continues_frame (P : Call -> bool) : CallFrame P (continues P).
Proof.
  split.
  - apply continues_refl.
  - apply continues_trans.
  - apply continues_log.
Qed.

#[local] Instance memory_untouched_frame :
  CallFrame (fun c => negb (is_memory_write c)) memory_untouched.
Proof.
  split.
  - intros w. split; [reflexivity|apply continues_refl].
  - intros w1 w2 w3 [E1 H1] [E2 H2]. split; [congruence|].
    eapply continues_trans; eassumption.
  - intros c w H. split; [reflexivity|now apply continues_log].
Qed.

Section CallFrameRules.
Context {P : Call -> bool} {R : World -> World -> Prop} `{!CallFrame P R}.

Lemma preserves_ret {A} (a : A) : preserves R (ret a).
Proof. intros w. apply call_frame_refl. Qed.

Lemma preserves_bind {A B} (m : AM A) (k : A -> AM B) :
preserves R m -> (forall a, preserves R (k a)) -> preserves R (bind m k).
Proof.
intros Hm Hk w. rewrite bind_unfold. specialize (Hm w).
destruct (m w) as [[a|e] w1]; simpl in *; [|assumption].
eapply call_frame_trans; [eassumption|apply Hk].
Qed.

Lemma preserves_remote {A} (c : Call) (answer : nat -> Result A) :
P c = true -> preserves R (remote c answer).
Proof. intros H w. now apply call_frame_log. Qed.

Lemma preserves_try_except {A} (body handler : AM A) :
preserves R body -> preserves R handler -> preserves R (try_except body handler).
Proof.
intros Hb Hh w. unfold try_except. specialize (Hb w).
destruct (body w) as [[a|e] w1]; simpl in *; [assumption|].
eapply call_frame_trans; [eassumption|apply Hh].
Qed.

Lemma preserves_if {A} (b : bool) (m1 m2 : AM A) :
preserves R m1 -> preserves R m2 -> preserves R (if b then m1 else m2).
Proof. now destruct b. Qed.

Lemma preserves_supabase (env : Env) : preserves R (supabase env).
Proof.
unfold supabase. apply preserves_if; [|apply preserves_ret].
intros w. apply call_frame_refl.
Qed.

Lemma preserves_fetch (env : Env) (window : Z) (session : string) :
P (SelectMessages session window) = true ->
preserves R (fetch env window session).
Proof.
intros H. apply preserves_try_except.
- apply preserves_bind; [apply preserves_supabase|]. intros _.
  apply preserves_bind; [now apply preserves_remote|]. intros data.
  apply preserves_ret.
- intros w. unfold _fetch_local. destruct (from_option _ _); apply call_frame_refl.
Qed.

Lemma preserves_retrieve_chunks (env : Env) (query : string) :
P (CallRetrieve query) = true ->
preserves R (retrieve_chunks env query).
Proof.
intros H. unfold retrieve_chunks.
destruct (retrieval_pipeline env); [now apply preserves_remote|apply preserves_ret].
Qed.

Lemma preserves_should_search (env : Env) (question : string) :
P (Invoke Fast (classifier_prompt question)) = true ->
preserves R (_should_search env question).
Proof.
intros H w. unfold _should_search.
destruct (ainvoke env _ _ _) as [result|e].
- destruct (_ || _); [now apply call_frame_log|].
  destruct (_ || _); now apply call_frame_log.
- now apply call_frame_log.
Qed.

Lemma preserves_search (env : Env) (query : string) :
(forall q, P (GetGoogle q) = true) ->
(forall q, P (GetBing q) = true) ->
preserves R (search env query).
Proof.
intros Hg Hb. unfold search.
apply preserves_bind.
{ unfold _google_search. apply preserves_if; [apply preserves_ret|].
  apply preserves_bind; [now apply preserves_remote|]. intros payload.
  apply preserves_ret. }
intros g. apply preserves_bind.
{ unfold _bing_search. apply preserves_if; [apply preserves_ret|].
  apply preserves_bind; [now apply preserves_remote|]. intros payload.
  apply preserves_ret. }
intros b. apply preserves_ret.
Qed.

(** [route] as [run] calls it: no image id, a search required. *)
Lemma preserves_route_search (env : Env) (msg : string) :
(forall q, P (GetGoogle q) = true) ->
(forall q, P (GetBing q) = true) ->
preserves R
  (route env msg
     (Some {| md_image_ids := None; md_requires_search := Some (PyBool true);
              md_mode := None; md_requires_part_numbers := None |})).
Proof.
intros Hg Hb. unfold route. simpl.
apply preserves_bind; [apply preserves_ret|]. intros events.
apply preserves_bind; [now apply preserves_search|]. intros results.
apply preserves_ret.
Qed.

End CallFrameRules.

(** ** [run] *)

Lemma append_returns (env : Env) (session role content : string) (w : World) :
  fst (append env session role content w) = Ok tt.
Proof.
  unfold append, try_except.
  destruct (bind _ _ w) as [[[]|e] w1]; reflexivity.
Qed.

Lemma preserves_append_calls (P : Call -> bool) (env : Env) (session role content : string) :
  P (UpsertConversation session) = true ->
  P (InsertMessage session role content) = true ->
  preserves (continues P) (append env session role content).
Proof.
  intros Hu Hi. apply preserves_try_except.
  - apply preserves_bind.
    { apply preserves_try_except; [|apply preserves_ret].
      apply preserves_bind; [apply preserves_supabase|]. intros _.
      now apply preserves_remote. }
    intros _. apply preserves_bind; [apply preserves_supabase|]. intros _.
    now apply preserves_remote.
  - intros w. exists []. simpl. now rewrite app_nil_r.
Qed.

(** X23. [run] never reaches the vision tool: whatever the request
    says, its image ids and its metadata included, and whatever the
    services answer, no request of the vision tool is among the calls
    of a run. *)
Theorem run_never_calls_the_vision_tool
    (env : Env) (window : Z) (request : ChatRequest) (w : World) :
  continues (fun c => negb (is_vision_call c)) w (snd (run env window request w)).
Proof.
  revert w. change (preserves (continues (fun c => negb (is_vision_call c)))
                      (run env window request)).
  unfold run.
  apply preserves_bind; [now apply preserves_fetch|]. intros history.
  apply preserves_bind; [now apply preserves_retrieve_chunks|]. intros chunks.
  apply preserves_bind.
  { destruct chunks; [apply preserves_ret|].
    apply preserves_bind; [now apply preserves_should_search|]. intros needed.
    apply preserves_ret. }
  intros should_search. apply preserves_bind.
  { apply preserves_if; [|apply preserves_ret].
    now apply preserves_route_search. }
  intros tool_events.
  apply preserves_bind; [now apply preserves_remote|]. intros response.
  apply preserves_bind; [now apply preserves_append_calls|]. intros _.
  apply preserves_bind; [now apply preserves_append_calls|]. intros _.
  apply preserves_ret.
Qed.

Lemma bind_raise_preserves {A B} (R : World -> World -> Prop) (P : Call -> bool)
    `{!CallFrame P R} (m : AM A) (k : A -> AM B) :
  preserves R m ->
  (forall a w e, fst (k a w) = Raise e -> R w (snd (k a w))) ->
  forall w e, fst (bind m k w) = Raise e -> R w (snd (bind m k w)).
Proof.
  intros Hm Hk w e. rewrite bind_unfold. specialize (Hm w).
  destruct (m w) as [[a|e'] w1]; simpl in *.
  - intros He. eapply call_frame_trans; [eassumption|]. eapply Hk, He.
  - intros _. assumption.
Qed.

(** X24. A run that raises has written nothing to the memory: the
    local store is what it was, and neither an upsert of the
    conversation nor an insert of a message was tried. The question is
    remembered only once the model has answered it. *)
Theorem failed_run_leaves_memory_untouched
    (env : Env) (window : Z) (request : ChatRequest) (w : World) (e : Exn) :
  fst (run env window request w) = Raise e ->
  memory_untouched w (snd (run env window request w)).
Proof.
  revert w e. unfold run.
  apply (bind_raise_preserves memory_untouched _); [now apply preserves_fetch|].
  intros history.
  apply (bind_raise_preserves memory_untouched _);
    [now apply preserves_retrieve_chunks|].
  intros chunks.
  apply (bind_raise_preserves memory_untouched _).
  { destruct chunks; [apply preserves_ret|].
    apply preserves_bind; [now apply preserves_should_search|]. intros needed.
    apply preserves_ret. }
  intros should_search.
  apply (bind_raise_preserves memory_untouched _).
  { apply preserves_if; [|apply preserves_ret]. now apply preserves_route_search. }
  intros tool_events.
  apply (bind_raise_preserves memory_untouched _); [now apply preserves_remote|].
  intros response w e. rewrite !bind_unfold.
  pose proof (append_returns env
(session_or_temp request) "user" (message request) w) as H1.
  destruct (append env _ "user" _ w) as [[[]|e1] w1]; [|discriminate].
  rewrite !bind_unfold.
  pose proof (append_returns env
(session_or_temp request) "assistant" response w1) as H2.
  destruct (append env _ "assistant" _ w1) as [[[]|e2] w2]; [|discriminate].
  simpl. intros H. discriminate H.
Qed.

Lemma failed_run_leaves_memory_untouched_witness :
  memory_untouched ConversationExamples.empty_world
    (snd (run ConversationExamples.degraded_env 6 ConversationExamples.example_request
            ConversationExamples.empty_world)).
Proof.
  exact (failed_run_leaves_memory_untouched ConversationExamples.degraded_env 6
           ConversationExamples.example_request ConversationExamples.empty_world
           (ValueError "Missing input for component ranker: query")
           ltac:(vm_compute; reflexivity)).
Defined.

(** ** A process without credentials *)

Lemma search_without_keys (env : Env) (query : string) (w : World) :
  no_search_key env -> search env query w = (Ok [], w).
Proof.
  intros [Hg Hb]. unfold search, _google_search, _bing_search.
  now rewrite Hg, Hb.
Qed.

(** X25. A run without Supabase credentials, without a search key and
    without a retrieval pipeline makes one call, to the model picked for
    the request, with the prompt built from the sentence that stands
    for an empty context and from the local history. With the answer of
    the model it returns an assistant message with no citation and one
    [web_search] event without results, and adds the question, then the
    answer, at the end of the local history of the session ([temp] when
    the request names none), leaving the other sessions alone. *)
Theorem run_without_credentials
    (env : Env) (window : Z) (request : ChatRequest) (w : World) (answer : string) :
  no_supabase env ->
  no_search_key env ->
  retrieval_pipeline env = None ->
  let session := session_or_temp request in
  let history :=
    match history_of w session with
    | [] => []
    | _ :: _ => slice_from (history_of w session) (- window)
    end in
  let prompt :=
    format_messages env "No manual excerpts retrieved." (_format_history history)
      (message request) in
  ainvoke env (length (calls w)) (pick request) prompt = Ok answer ->
  let result := run env window request w in
  fst result
  = Ok {| role := "assistant";
          content := answer;
          citations := [];
          tool_calls := [ {| name := "web_search";
                             input := InputQuery (message request);
                             output := [] |} ] |}
  /\ calls (snd result) = calls w ++ [Invoke (pick request) prompt]
  /\ history_of (snd result) session
     = history_of w session ++ [("user", message request); ("assistant", answer)]
  /\ forall other, other <> session ->
       history_of (snd result) other = history_of w other.
Proof.
  intros Hs Hk Hp session history prompt Hanswer result.
  assert (Hrun : result
                 = (_ <~ append env session "user" (message request) ;;
                    _ <~ append env session "assistant" answer ;;
                    ret {| role := "assistant";
                           content := answer;
                           citations := [];
                           tool_calls := [ {| name := "web_search";
                                              input := InputQuery (message request);
                                              output := [] |} ] |})
                     (log (Invoke (pick request) prompt) w)).
  { subst result. unfold run. rewrite bind_unfold.
    rewrite fetch_local by assumption.
    assert (Hf : _fetch_local window (session_or_temp request) w = (Ok history, w)).
    { unfold _fetch_local. subst history session. unfold history_of.
      now destruct (from_option _ _). }
    rewrite Hf. rewrite bind_unfold. unfold retrieve_chunks. rewrite Hp.
    unfold ret at 1. rewrite bind_unfold. unfold ret at 1.
    rewrite bind_unfold. unfold route. cbn [from_option has_image_ids md_image_ids
      md_requires_search flag truthy].
    rewrite bind_unfold. unfold ret at 1. rewrite bind_unfold.
    rewrite search_without_keys by assumption.
    unfold ret at 1. rewrite bind_unfold. unfold remote at 1.
    change (_format_context env [] _) with "No manual excerpts retrieved.".
    fold prompt. rewrite Hanswer. reflexivity. }
  rewrite Hrun. rewrite !bind_unfold.
  rewrite (surjective_pairing (append env session "user" (message request) _)).
  rewrite append_returns. rewrite !bind_unfold.
  rewrite (surjective_pairing (append env session "assistant" answer _)).
  rewrite append_returns. unfold ret. simpl fst. simpl snd.
  split; [reflexivity|]. split.
  { rewrite !append_local by assumption. reflexivity. }
  split.
  - rewrite history_of_append_same by assumption.
    rewrite history_of_append_same by assumption.
    now rewrite <- app_assoc.
  - intros other Hne.
    rewrite history_of_append_other by assumption.
    now rewrite history_of_append_other by assumption.
Qed.

Lemma run_without_credentials_witness :
  fst (run ConversationExamples.offline_env 2 ConversationExamples.example_request
         ConversationExamples.world_with_talk)
  = Ok {| role := "assistant";
          content :=
            "[mock-response] Context: No manual excerpts retrieved. History: "
              +:+ "user: RF28" +:+ newline +:+ "assistant: Check the defrost heater"
              +:+ " Question: What does error code 5E mean?";
          citations := [];
          tool_calls := [ {| name := "web_search";
                             input := InputQuery "What does error code 5E mean?";
                             output := [] |} ] |}
  /\ history_of
       (snd (run ConversationExamples.offline_env 2 ConversationExamples.example_request
               ConversationExamples.world_with_talk)) "s1"
     = ConversationExamples.talk
       ++ [ ("user", "What does error code 5E mean?");
            ("assistant",
             "[mock-response] Context: No manual excerpts retrieved. History: "
               +:+ "user: RF28" +:+ newline +:+ "assistant: Check the defrost heater"
               +:+ " Question: What does error code 5E mean?") ].
Proof.
  pose proof (run_without_credentials ConversationExamples.offline_env 2
                ConversationExamples.example_request
                ConversationExamples.world_with_talk
                ("[mock-response] Context: No manual excerpts retrieved. History: "
                   +:+ "user: RF28" +:+ newline
                   +:+ "assistant: Check the defrost heater"
                   +:+ " Question: What does error code 5E mean?")
                (or_introl eq_refl) (conj eq_refl eq_refl) eq_refl
                ltac:(vm_compute; reflexivity)) as (H1 & _ & H3 & _).
  exact (conj H1 H3).
Defined.

(** ** The classifier and the echo model *)

Lemma rstrip_keeps_first (a : ascii) (s : string) :
  is_space a = false -> exists rest, rstrip (String a s) = String a rest.
Proof.
  intros Ha. simpl. destruct (rstrip s); rewrite ?Ha; eauto.
Qed.

(** X26. When the fast model is the echo model, its answer starts with
    an opening bracket and so is neither a yes nor a no: the decision
    of [_should_search] is the keyword test on the question, whatever
    the question is, a question that itself starts with yes or no
    included. *)
Theorem echo_model_leaves_search_to_keywords
    (env : Env) (question : string) (w : World) :
  ainvoke env (length (calls w)) Fast (classifier_prompt question)
  = Ok (LocalEchoModel (classifier_prompt question)) ->
  _should_search env question w
  = (Ok (keyword_search question),
     log (Invoke Fast (classifier_prompt question)) w).
Proof.
  intros H. unfold _should_search. rewrite H.
  change (LocalEchoModel (classifier_prompt question))
    with (String "["%char ("mock-response] " +:+ question)).
  unfold py_strip. cbn [lstrip]. change (is_space "["%char) with false. cbv iota.
  destruct (rstrip_keeps_first "["%char ("mock-response] " +:+ question) eq_refl)
    as [rest ->].
  reflexivity.
Qed.

Lemma echo_model_leaves_search_to_keywords_witness :
  _should_search ConversationExamples.offline_env "Yes or no: is the pump under warranty?"
    ConversationExamples.empty_world
  = (Ok true,
     log (Invoke Fast (classifier_prompt "Yes or no: is the pump under warranty?"))
       ConversationExamples.empty_world)
  /\ _should_search ConversationExamples.offline_env "Yes, the door is open. What next?"
       ConversationExamples.empty_world
     = (Ok false,
        log (Invoke Fast (classifier_prompt "Yes, the door is open. What next?"))
          ConversationExamples.empty_world).
Proof.
  split.
  - exact (echo_model_leaves_search_to_keywords ConversationExamples.offline_env
             "Yes or no: is the pump under warranty?" ConversationExamples.empty_world
             eq_refl).
  - exact (echo_model_leaves_search_to_keywords ConversationExamples.offline_env
             "Yes, the door is open. What next?" ConversationExamples.empty_world
             eq_refl).
Defined.

(** ** What reaches the prompt *)

Lemma event_entries_dropped (env : Env) (event : ToolCall) :
  String.eqb (name event) "web_search"
  && match output event with [] => false | _ :: _ => true end = false ->
  event_entries env event = [].
Proof.
  unfold event_entries.
  destruct (String.eqb (name event) "web_search"); [|reflexivity].
  now destruct (output event).
Qed.

Lemma entries_of_kept_events (env : Env) (events : list ToolCall) :
  concat (map (event_entries env)
            (List.filter
               (fun event =>
                  String.eqb (name event) "web_search"
                  && match output event with [] => false | _ :: _ => true end)
               events))
  = concat (map (event_entries env) events).
Proof.
  induction events as [|event events IH]; [reflexivity|]. simpl.
  destruct (_ && _) eqn:E; simpl.
  - now rewrite IH.
  - now rewrite event_entries_dropped.
Qed.

Lemma format_search_results_entries (env : Env) (events : list ToolCall) :
  _format_search_results env events
  = py_join (newline +:+ newline) (concat (map (event_entries env) events)).
Proof. now destruct events. Qed.

(** X27. The context given to the model depends on the tool events
    only through the [web_search] events that have results: every other
    event, the answers of the vision tool among them, can be removed
    without changing the context. *)
Theorem context_ignores_all_but_search_results
    (env : Env) (chunks : list RetrievalResult) (events : list ToolCall) :
  _format_context env chunks events
  = _format_context env chunks
      (List.filter
         (fun event =>
            String.eqb (name event) "web_search"
            && match output event with [] => false | _ :: _ => true end)
         events).
Proof.
  unfold _format_context.
  now rewrite !format_search_results_entries, entries_of_kept_events.
Qed.

(** ** What an answer rests on *)



